(** * Bunker queen overlord: zone assignment and task manifests

    A shallow embedding of [src/overlords/core/queen_bunker.ts]: the
    partition of the bunker into four quadrants, the round-robin assignment
    of quadrants to queens, the two manifest builders (supply and withdraw),
    the idle handler and the per-tick dispatcher.

    Numbers are modelled as [Z]; JavaScript objects used as maps are [gmap]s
    keyed by strings, except the simulated carry, whose key order is observed
    by [_.keys] and which is therefore an association list in insertion
    order. *)

From stdpp Require Import gmap strings list fin_maps sorting.
From Stdlib Require Import ZArith Lia.

(** ** Data model *)

(** The structure-type constants of the game API. *)
Inductive StructureType :=
| STRUCTURE_SPAWN | STRUCTURE_EXTENSION | STRUCTURE_ROAD | STRUCTURE_WALL
| STRUCTURE_RAMPART | STRUCTURE_KEEPER_LAIR | STRUCTURE_PORTAL
| STRUCTURE_CONTROLLER | STRUCTURE_LINK | STRUCTURE_STORAGE | STRUCTURE_TOWER
| STRUCTURE_OBSERVER | STRUCTURE_POWER_BANK | STRUCTURE_POWER_SPAWN
| STRUCTURE_EXTRACTOR | STRUCTURE_LAB | STRUCTURE_TERMINAL
| STRUCTURE_CONTAINER | STRUCTURE_NUKER.

#[global] Instance StructureType_eq_dec : EqDecision StructureType.
Proof. solve_decision. Defined.

(** A bunker-relative coordinate of the layout tables. *)
Record Coord := mkCoord { coord_x : Z; coord_y : Z }.

Module RoomPosition.
Record t := mk { x : Z; y : Z; roomName : string }.

#[global] Instance position_eq_dec : EqDecision t.
Proof. solve_decision. Defined.

(** [getRangeTo]: the linear (Chebyshev) range inside one room; the game
    API answers [Infinity] across rooms, here [None]. *)
Definition getRangeTo (a b : t) : option Z :=
  if decide (roomName a = roomName b)
  then Some (Z.max (Z.abs (x a - x b)) (Z.abs (y a - y b)))
  else None.

(** One iteration of the scan of [findClosestByRange]: the accumulator is
    the closest candidate so far with its range, replaced only by a
    strictly smaller range. *)
Definition closer (from : t) (acc : option (t * Z)) (c : t) : option (t * Z) :=
  match getRangeTo from c with
  | None => acc
  | Some r =>
      match acc with
      | None => Some (c, r)
      | Some (_, minRange) => if (r <? minRange)%Z then Some (c, r) else acc
      end
  end.

(** [findClosestByRange] on an array of positions: the candidate with the
    least range, [None] (null) when there is none in the room. *)
Definition findClosestByRange (from : t) (candidates : list t) : option t :=
  fst <$> foldl (closer from) None candidates.
End RoomPosition.

Module Structure.
Record t := mk {
  id : string;
  structureType : StructureType;
  pos : RoomPosition.t;
  store : gmap string Z
}.

#[global] Instance structure_eq_dec : EqDecision t.
Proof. solve_decision. Defined.
End Structure.

Module TransportRequest.
Record t := mk {
  target : Structure.t;
  resourceType : string;
  amount : Z
}.
End TransportRequest.

Module TransportRequestGroup.
Record t := mk {
  supplyByID : gmap string (list TransportRequest.t);
  withdrawByID : gmap string (list TransportRequest.t)
}.
End TransportRequestGroup.

(** The three operations the builders create. *)
Inductive Task :=
| TransferAll (target : Structure.t)
| Transfer (target : Structure.t) (resourceType : string) (amount : Z)
| Withdraw (target : Structure.t) (resourceType : string) (amount : Z).

#[global] Instance Task_eq_dec : EqDecision Task.
Proof. solve_decision. Defined.

Module Tasks.
Definition transferAll (target : Structure.t) : Task := TransferAll target.
Definition transfer (target : Structure.t) (resourceType : string) (amount : Z) : Task :=
  Transfer target resourceType amount.
Definition withdraw (target : Structure.t) (resourceType : string) (amount : Z) : Task :=
  Withdraw target resourceType amount.

(** Modelled from the spec: [Tasks.chain] is declared in [tasks/Tasks],
    which is not part of this file.  A manifest is "an ordered sequence of
    Operations forming a single chain", and the builders' lists are
    "concatenated into one chain": the chain of one or more operations is
    the manifest of these operations, in their order.  Without an operation
    there is nothing to chain and no manifest: on an empty array
    [Tasks.chain] answers null. *)
Definition chain (tasks : list Task) : option (list Task) :=
  match tasks with
  | [] => None
  | _ :: _ => Some tasks
  end.
End Tasks.

Module Zerg.
Record t := mk {
  name : string;
  pos : RoomPosition.t;
  carry : gmap string Z;
  carryCapacity : Z;
  spawning : bool;
  task : option (list Task)
}.

#[global] Instance zerg_eq_dec : EqDecision t.
Proof. solve_decision. Defined.

Definition setTask (queen : t) (newTask : option (list Task)) : t :=
  mk (name queen) (pos queen) (carry queen) (carryCapacity queen)
     (spawning queen) newTask.
End Zerg.

Module Colony.
Record t := mk {
  terminal : option Structure.t;
  storage : option Structure.t;
  containers : list Structure.t;
  transportRequests : TransportRequestGroup.t
}.
End Colony.

(** The four quadrants, as coordinate tables ([quadrantFillOrder]) and as
    structure lists ([this.quadrants]). *)
Record Quadrants (A : Type) := mkQuadrants {
  lowerRight : list A;
  upperLeft : list A;
  lowerLeft : list A;
  upperRight : list A
}.
Arguments mkQuadrants {A} _ _ _ _.
Arguments lowerRight {A} _.
Arguments upperLeft {A} _.
Arguments lowerLeft {A} _.
Arguments upperRight {A} _.

(** Messages handed to [log.warning]. *)
Inductive Warning :=
| NoTransferTargets (queenName : string) (at_ : RoomPosition.t)
| NoWithdrawTarget (queenName : string) (at_ : RoomPosition.t)
| NoChargingSpot (at_ : RoomPosition.t).

(** What a tick of the overlord does to the outside world. *)
Inductive Effect :=
| LogWarning (w : Warning)
| GoTo (queenName : string) (destination : RoomPosition.t) (range : Z)
| RunTask (queenName : string) (current : option (list Task)).

Record Overlord := mkOverlord {
  colony : Colony.t;
  queens : list Zerg.t;
  batteries : list Structure.t;
  storeStructures : list Structure.t;
  quadrants : Quadrants Structure.t;
  assignments : gmap string (list Structure.t)
}.

(** ** Library functions used by the overlord *)

(** [_.compact] on an array whose entries may be undefined. *)
Definition compact {A} (l : list (option A)) : list A := omap (λ o, o) l.

(** [_.sum] over the values of an object. *)
Definition sumValues (m : gmap string Z) : Z :=
  map_fold (λ _ v acc, (acc + v)%Z) 0%Z m.

(** [_.sortBy] with a string key: a stable sort, here by insertion. *)
Fixpoint insertBy {A} (key : A → string) (a : A) (l : list A) : list A :=
  match l with
  | [] => [a]
  | b :: l' =>
      if String.leb (key a) (key b) then a :: l else b :: insertBy key a l'
  end.

Definition sortBy {A} (key : A → string) (l : list A) : list A :=
  foldr (insertBy key) [] l.

(** Modelled from the spec: [minBy] is declared in [utilities/utils], which
    is not part of this file.  "Pick the one minimizing travel distance": the
    first element whose value is least, none for an empty list. *)
Fixpoint minBy {A} (objects : list A) (iteratee : A → Z) : option A :=
  match objects with
  | [] => None
  | a :: rest =>
      match minBy rest iteratee with
      | None => Some a
      | Some b => if (iteratee a <=? iteratee b)%Z then Some a else Some b
      end
  end.

(** Modelled from the spec: [mergeSum] is declared in [utilities/utils],
    which is not part of this file.  "Sum resource stores across all
    designated reserve/store structures into a single availability map". *)
Definition mergeSum (objects : list (gmap string Z)) : gmap string Z :=
  foldr (union_with (λ a b, Some (a + b)%Z)) ∅ objects.

(** ** The simulated carry: an object in insertion order *)

Definition CarryObj := list (string * Z).

(** [_.sum(queenCarry)] *)
Definition sumCarry (c : CarryObj) : Z := foldr (λ kv acc, (kv.2 + acc)%Z) 0%Z c.

(** [queenCarry[r] || 0] *)
Fixpoint carryGet (c : CarryObj) (r : string) : Z :=
  match c with
  | [] => 0%Z
  | (k, v) :: c' => if decide (k = r) then v else carryGet c' r
  end.

(** [if (!queenCarry[r]) queenCarry[r] = 0; queenCarry[r] += amount]: an
    existing key keeps its place, a new key goes last. *)
Fixpoint carryAdd (r : string) (amount : Z) (c : CarryObj) : CarryObj :=
  match c with
  | [] => [(r, (0 + amount)%Z)]
  | (k, v) :: c' =>
      if decide (k = r) then (k, (v + amount)%Z) :: c'
      else (k, v) :: carryAdd r amount c'
  end.

(** [_.keys(queenCarry)] *)
Definition carryKeys (c : CarryObj) : list string := c.*1.

(** The state of the greedy fill loops: the simulated carry, the tasks pushed
    so far, and whether [break] was taken. *)
Record FillState := mkFill {
  queenCarry : CarryObj;
  pushed : list Task;
  broken : bool
}.

(** Truthiness of a value that may be undefined. *)
Definition truthy {A} (o : option A) : bool :=
  match o with Some _ => true | None => false end.

(** ** Zone partition *)

Definition isSupplyStructure (structure : Structure.t) : bool :=
  bool_decide (Structure.structureType structure = STRUCTURE_EXTENSION)
  || bool_decide (Structure.structureType structure = STRUCTURE_LAB)
  || bool_decide (Structure.structureType structure = STRUCTURE_TOWER)
  || bool_decide (Structure.structureType structure = STRUCTURE_SPAWN).

Section Overlord.

(** The room and the layout, as the overlord sees them during one tick:
    [getPosFromBunkerCoord(coord, colony)], [pos.lookFor(LOOK_STRUCTURES)],
    [insideBunkerBounds(pos, colony)], [Pathing.distance] and the layout
    tables [quadrantFillOrder] and [bunkerChargingSpots]. *)
Variable getPosFromBunkerCoord : Coord → RoomPosition.t.
Variable lookForStructures : RoomPosition.t → list Structure.t.
Variable insideBunkerBounds : RoomPosition.t → bool.
Variable distance : RoomPosition.t → RoomPosition.t → Z.
Variable quadrantFillOrder : Quadrants Coord.
Variable bunkerChargingSpots : list Coord.

(** The execution layer's judgement on a manifest a queen holds
    ([task.isValid()]). *)
Variable isValid : list Task → bool.

(** [_.find(pos.lookFor(LOOK_STRUCTURES), s => isSupplyStructure(s))] *)
Definition supplyStructureAt (pos : RoomPosition.t) : option Structure.t :=
  List.find isSupplyStructure (lookForStructures pos).

(** The loop of [computeQuadrant]: one tile after the other, the first
    supply structure found on it, if any, is pushed. *)
Definition computeQuadrant (quadrant : list Coord) : list Structure.t :=
  let positions := map getPosFromBunkerCoord quadrant in
  foldl (λ structures pos,
           match supplyStructureAt pos with
           | Some structure => structures ++ [structure]
           | None => structures
           end) [] positions.

(** ** Constructor: store structures, quadrants and assignments *)

(** One turn of the assignment loop; [queen0] is the head of the active
    queens, which stands for the (never taken) out-of-range case of
    [activeQueens[i % activeQueens.length]]. *)
Definition assignStep (activeQueens : list Zerg.t) (queen0 : Zerg.t)
    (acc : gmap string (list Structure.t) * nat) (quadrant : list Structure.t)
    : gmap string (list Structure.t) * nat :=
  let '(assignments, i) := acc in
  let queen := nth (i mod length activeQueens) activeQueens queen0 in
  (<[Zerg.name queen := default [] (assignments !! Zerg.name queen) ++ quadrant]> assignments,
   S i).

Definition assignQuadrants (queens : list Zerg.t) (quadrants : Quadrants Structure.t)
    : gmap string (list Structure.t) :=
  let assignments : gmap string (list Structure.t) :=
    foldl (λ m queen, <[Zerg.name queen := []]> m) ∅ queens in
  let activeQueens := List.filter (λ queen, negb (Zerg.spawning queen)) queens in
  match activeQueens with
  | [] => assignments
  | queen0 :: _ =>
      let quadrantAssignmentOrder :=
        [lowerRight quadrants; upperLeft quadrants;
         lowerLeft quadrants; upperRight quadrants] in
      (foldl (assignStep activeQueens queen0) (assignments, 0) quadrantAssignmentOrder).1
  end.

(** The quadrants go through the structure cache [$.structures], which
    hands back what its callback computed. *)
Definition constructor (colony : Colony.t) (zerg : list Zerg.t) : Overlord :=
  let queens := sortBy Zerg.name zerg in
  let batteries :=
    List.filter (λ container, insideBunkerBounds (Structure.pos container))
                (Colony.containers colony) in
  let storeStructures :=
    compact ([Colony.terminal colony; Colony.storage colony] ++ map Some batteries) in
  let quadrants :=
    mkQuadrants (computeQuadrant (lowerRight quadrantFillOrder))
                (computeQuadrant (upperLeft quadrantFillOrder))
                (computeQuadrant (lowerLeft quadrantFillOrder))
                (computeQuadrant (upperRight quadrantFillOrder)) in
  mkOverlord colony queens batteries storeStructures quadrants
             (assignQuadrants queens quadrants).

(** ** Shared pieces of the two builders *)

(** [this.colony.terminal || this.colony.storage || this.batteries[0]] *)
Definition transferTarget (this : Overlord) : option Structure.t :=
  match Colony.terminal (colony this) with
  | Some terminal => Some terminal
  | None =>
      match Colony.storage (colony this) with
      | Some storage => Some storage
      | None => head (batteries this)
      end
  end.

(** [this.assignments[queen.name]]; lodash reads an undefined collection
    as an empty one. *)
Definition assigned (this : Overlord) (queen : Zerg.t) : list Structure.t :=
  default [] (assignments this !! Zerg.name queen).

(** [_.compact(_.flatten(_.map(assigned, struc => byID[struc.id])))]: the
    request arrays of the assigned structures, one after the other;
    structures without an entry contribute nothing. *)
Definition requestsFor (byID : gmap string (list TransportRequest.t))
    (structures : list Structure.t) : list TransportRequest.t :=
  flat_map (λ struc, default [] (byID !! Structure.id struc)) structures.

(** [_.any(assigned, struc => byID[struc.id])] *)
Definition anyRequest (byID : gmap string (list TransportRequest.t))
    (structures : list Structure.t) : bool :=
  existsb (λ struc, truthy (byID !! Structure.id struc)) structures.

(** ** Supply manifest *)

(** Step 1: empty the carry.  Gives the tasks so far and the position the
    queen will be at, or the warning of the early return. *)
Definition supplyFlush (this : Overlord) (queen : Zerg.t)
    : list Task * RoomPosition.t + Warning :=
  if (0 <? sumValues (Zerg.carry queen))%Z then
    match transferTarget this with
    | Some target => inl ([Tasks.transferAll target], Structure.pos target)
    | None => inr (NoTransferTargets (Zerg.name queen) (Zerg.pos queen))
    end
  else inl ([], Zerg.pos queen).

(** Step 2, the body of the loop over the supply requests. *)
Definition supplyStep (carryCapacity : Z) (allStore : gmap string Z)
    (st : FillState) (request : TransportRequest.t) : FillState :=
  if broken st then st else
  let remainingAmount := (carryCapacity - sumCarry (queenCarry st))%Z in
  if (remainingAmount =? 0)%Z then mkFill (queenCarry st) (pushed st) true else
  let amount := Z.min (TransportRequest.amount request) remainingAmount in
  let amount :=
    Z.min amount (default 0%Z (allStore !! TransportRequest.resourceType request)) in
  if (amount =? 0)%Z then st else
  mkFill (carryAdd (TransportRequest.resourceType request) amount (queenCarry st))
         (pushed st ++ [Tasks.transfer (TransportRequest.target request)
                                       (TransportRequest.resourceType request) amount])
         false.

Definition supplyRequests (this : Overlord) (queen : Zerg.t) : list TransportRequest.t :=
  requestsFor (TransportRequestGroup.supplyByID (Colony.transportRequests (colony this)))
              (assigned this queen).

Definition allStore (this : Overlord) : gmap string Z :=
  mergeSum (map Structure.store (storeStructures this)).

Definition supplyFill (this : Overlord) (queen : Zerg.t) : FillState :=
  foldl (supplyStep (Zerg.carryCapacity queen) (allStore this))
        (mkFill [] [] false) (supplyRequests this queen).

(** Step 3: the store structures that hold every needed resource. *)
Definition coversCarry (queenCarry : CarryObj) (s : Structure.t) : bool :=
  forallb (λ resource,
             (carryGet queenCarry resource <=? default 0 (Structure.store s !! resource))%Z)
          (carryKeys queenCarry).

Definition withdrawTargets (this : Overlord) (queenCarry : CarryObj) : list Structure.t :=
  List.filter (coversCarry queenCarry) (storeStructures this).

Definition pickWithdrawTarget (queenPos : RoomPosition.t) (targets : list Structure.t)
    : option Structure.t :=
  if (1 <? length targets)%nat
  then minBy targets (λ target, distance queenPos (Structure.pos target))
  else head targets.

Definition buildSupplyTaskManifest (this : Overlord) (queen : Zerg.t)
    : option (list Task) * list Warning :=
  match supplyFlush this queen with
  | inr warning => (None, [warning])
  | inl (tasks, queenPos) =>
      let fill := supplyFill this queen in
      let queenCarry := queenCarry fill in
      let supplyTasks := pushed fill in
      let neededResources := carryKeys queenCarry in
      let targets := withdrawTargets this queenCarry in
      match pickWithdrawTarget queenPos targets with
      | None => (None, [NoWithdrawTarget (Zerg.name queen) (Zerg.pos queen)])
      | Some withdrawTarget =>
          let withdrawTasks :=
            map (λ resourceType,
                   Tasks.withdraw withdrawTarget resourceType
                                  (carryGet queenCarry resourceType))
                neededResources in
          (Tasks.chain (tasks ++ withdrawTasks ++ supplyTasks), [])
      end
  end.

(** ** Withdraw manifest *)

Definition withdrawStep (carryCapacity : Z)
    (st : FillState) (request : TransportRequest.t) : FillState :=
  if broken st then st else
  let remainingAmount := (carryCapacity - sumCarry (queenCarry st))%Z in
  if (remainingAmount =? 0)%Z then mkFill (queenCarry st) (pushed st) true else
  let amount := Z.min (TransportRequest.amount request) remainingAmount in
  if (amount =? 0)%Z then st else
  mkFill (carryAdd (TransportRequest.resourceType request) amount (queenCarry st))
         (pushed st ++ [Tasks.withdraw (TransportRequest.target request)
                                       (TransportRequest.resourceType request) amount])
         false.

Definition withdrawRequests (this : Overlord) (queen : Zerg.t) : list TransportRequest.t :=
  requestsFor (TransportRequestGroup.withdrawByID (Colony.transportRequests (colony this)))
              (assigned this queen).

(** Step 1: empty the carry; the tasks so far, or the warning of the early
    return. *)
Definition withdrawFlush (this : Overlord) (queen : Zerg.t) : list Task + Warning :=
  if (0 <? sumValues (Zerg.carry queen))%Z then
    match transferTarget this with
    | Some target => inl [Tasks.transferAll target]
    | None => inr (NoTransferTargets (Zerg.name queen) (Zerg.pos queen))
    end
  else inl [].

(** Step 2: the loop pushes onto the tasks of step 1; the simulated carry
    starts as [{energy: 0}]. *)
Definition withdrawFill (tasks : list Task) (this : Overlord) (queen : Zerg.t) : FillState :=
  foldl (withdrawStep (Zerg.carryCapacity queen))
        (mkFill [("energy", 0%Z)] tasks false) (withdrawRequests this queen).

Definition buildWithdrawTaskManifest (this : Overlord) (queen : Zerg.t)
    : option (list Task) * list Warning :=
  match withdrawFlush this queen with
  | inr warning => (None, [warning])
  | inl tasks =>
      let tasks := pushed (withdrawFill tasks this queen) in
      match transferTarget this with
      | Some target => (Tasks.chain (tasks ++ [Tasks.transferAll target]), [])
      | None => (None, [NoTransferTargets (Zerg.name queen) (Zerg.pos queen)])
      end
  end.

(** ** Idle handler *)

Definition getChargingSpot (this : Overlord) (queen : Zerg.t)
    : RoomPosition.t * list Warning :=
  let chargeSpots := map getPosFromBunkerCoord bunkerChargingSpots in
  let from :=
    match head (assigned this queen) with
    | Some structure => Structure.pos structure
    | None => Zerg.pos queen
    end in
  match RoomPosition.findClosestByRange from chargeSpots with
  | Some chargeSpot => (chargeSpot, [])
  | None => (Zerg.pos queen, [NoChargingSpot (Zerg.pos queen)])
  end.

Definition idleActions (this : Overlord) (queen : Zerg.t) : list Effect :=
  let '(chargingSpot, warnings) := getChargingSpot this queen in
  map LogWarning warnings ++ [GoTo (Zerg.name queen) chargingSpot 0].

(** ** Dispatcher *)

(** Modelled from the spec: [Zerg.isIdle] is declared in [zerg/Zerg], which
    is not part of this file.  A failed build "yields no manifest, which
    the Dispatcher treats as remain idle"; "an agent mid-chain does not get
    a new manifest": a queen without a task is idle, one with a task is
    idle when the execution layer no longer accepts that task. *)
Definition isIdle (queen : Zerg.t) : bool :=
  match Zerg.task queen with
  | None => true
  | Some task => negb (isValid task)
  end.

(** [queen.task = build(queen)], with the warnings the build logged. *)
Definition assignTask (queen : Zerg.t) (built : option (list Task) * list Warning)
    : Zerg.t * list Effect :=
  (Zerg.setTask queen built.1, map LogWarning built.2).

Definition handleQueen (this : Overlord) (queen : Zerg.t) : Zerg.t * list Effect :=
  let requests := Colony.transportRequests (colony this) in
  let '(queen', log) :=
    if anyRequest (TransportRequestGroup.withdrawByID requests) (assigned this queen)
    then assignTask queen (buildWithdrawTaskManifest this queen)
    else if anyRequest (TransportRequestGroup.supplyByID requests) (assigned this queen)
    then assignTask queen (buildSupplyTaskManifest this queen)
    else (queen, []) in
  if isIdle queen' then (queen', log ++ idleActions this queen') else (queen', log).

(** The body of the loop of [run], for one queen. *)
Definition runQueen (this : Overlord) (queen : Zerg.t) : Zerg.t * list Effect :=
  let '(queen', log) :=
    if isIdle queen then handleQueen this queen else (queen, []) in
  (queen', log ++ [RunTask (Zerg.name queen') (Zerg.task queen')]).

Definition run (this : Overlord) : list Zerg.t * list Effect :=
  foldl (λ acc queen,
           let '(queen', log) := runQueen this queen in
           (acc.1 ++ [queen'], acc.2 ++ log))
        ([], []) (queens this).

End Overlord.

(** ** Reference definitions, in the words of the specification *)

(** "Assign zone i to activeAgents[i mod activeCount]": the zones, counted
    from [i], that fall to the agent called [agent]. *)
Fixpoint zonesOf {A} (activeNames : list string) (i : nat) (zones : list (list A))
    (agent : string) : list A :=
  match zones with
  | [] => []
  | zone :: zones' =>
      (if decide (activeNames !! (i mod length activeNames) = Some agent)
       then zone else [])
      ++ zonesOf activeNames (S i) zones' agent
  end.


(** "Every qualifying structure appears in exactly one of the four zones",
    read over the structures inside the bunker bounds: each structure with a
    supply role found on a tile inside the bounds occurs once, and only once,
    in the four zone lists taken together. *)
Definition every_supply_structure_in_one_zone
    (getPosFromBunkerCoord : Coord → RoomPosition.t)
    (lookForStructures : RoomPosition.t → list Structure.t)
    (insideBunkerBounds : RoomPosition.t → bool)
    (quadrantFillOrder : Quadrants Coord) : Prop :=
  let zone := computeQuadrant getPosFromBunkerCoord lookForStructures in
  ∀ (tile : RoomPosition.t) (s : Structure.t),
    s ∈ lookForStructures tile → insideBunkerBounds tile = true →
    isSupplyStructure s = true →
    ∃ before after,
      zone (lowerRight quadrantFillOrder) ++ zone (upperLeft quadrantFillOrder)
      ++ zone (lowerLeft quadrantFillOrder) ++ zone (upperRight quadrantFillOrder)
      = before ++ s :: after
      ∧ (s ∉ before) ∧ (s ∉ after).

(** "Sum resource stores across all designated reserve/store structures":
    what the availability snapshot holds of one resource. *)
Definition availability (stores : list Structure.t) (resource : string) : Z :=
  foldr (λ s acc, (default 0 (Structure.store s !! resource) + acc)%Z) 0%Z stores.

(** The greedy fill of the supply path, in the words of the specification:
    stop when nothing remains, take the least of the requested amount, the
    remaining capacity and the availability, skip a request that gets
    nothing, otherwise add to the simulated carry and append a delivery. *)
Fixpoint greedySupply (carryCapacity : Z) (available : string → Z)
    (requests : list TransportRequest.t) (simulatedCarry : CarryObj)
    : CarryObj * list Task :=
  match requests with
  | [] => (simulatedCarry, [])
  | request :: rest =>
      let remaining := (carryCapacity - sumCarry simulatedCarry)%Z in
      if decide (remaining = 0%Z) then (simulatedCarry, [])
      else
        let resource := TransportRequest.resourceType request in
        let amount :=
          Z.min (TransportRequest.amount request) (Z.min remaining (available resource)) in
        if decide (amount = 0%Z)
        then greedySupply carryCapacity available rest simulatedCarry
        else
          let '(carry, deliveries) :=
            greedySupply carryCapacity available rest
                         (carryAdd resource amount simulatedCarry) in
          (carry, Transfer (TransportRequest.target request) resource amount :: deliveries)
  end.

(** The greedy fill of the withdraw path: the same, without the bound by
    availability, appending a withdrawal from the request's target. *)
Fixpoint greedyWithdraw (carryCapacity : Z)
    (requests : list TransportRequest.t) (simulatedCarry : CarryObj)
    : CarryObj * list Task :=
  match requests with
  | [] => (simulatedCarry, [])
  | request :: rest =>
      let remaining := (carryCapacity - sumCarry simulatedCarry)%Z in
      if decide (remaining = 0%Z) then (simulatedCarry, [])
      else
        let resource := TransportRequest.resourceType request in
        let amount := Z.min (TransportRequest.amount request) remaining in
        if decide (amount = 0%Z)
        then greedyWithdraw carryCapacity rest simulatedCarry
        else
          let '(carry, withdrawals) :=
            greedyWithdraw carryCapacity rest (carryAdd resource amount simulatedCarry) in
          (carry, Withdraw (TransportRequest.target request) resource amount :: withdrawals)
  end.

(** The kinds of operation, and what a manifest withdraws in total. *)
Definition isTransfer (t : Task) : bool :=
  match t with Transfer _ _ _ => true | _ => false end.
Definition isWithdraw (t : Task) : bool :=
  match t with Withdraw _ _ _ => true | _ => false end.

Definition withdrawnTotal (tasks : list Task) : Z :=
  foldr (λ t acc, match t with Withdraw _ _ amount => (amount + acc)%Z | _ => acc end)
        0%Z tasks.

(** The stores the carry flushes of a list of operations go to, in order. *)
Definition flushTargets (tasks : list Task) : list Structure.t :=
  omap (λ t, match t with TransferAll target => Some target | _ => None end) tasks.

(** "The supply-path build aborts with no manifest and a warning exactly
    when the agent carries a nonzero amount and no fallback store exists". *)
Definition supply_aborts_only_at_flush
    (distance : RoomPosition.t → RoomPosition.t → Z)
    (this : Overlord) (queen : Zerg.t) : Prop :=
  (∃ warning, buildSupplyTaskManifest distance this queen = (None, [warning]))
  ↔ (0 < sumValues (Zerg.carry queen))%Z ∧ transferTarget this = None.

(** "If the simulated carry stays empty, the build succeeds and returns a
    manifest containing no withdraw and no delivery operations whenever at
    least one store structure exists". *)
Definition empty_carry_yields_manifest
    (distance : RoomPosition.t → RoomPosition.t → Z)
    (this : Overlord) (queen : Zerg.t) : Prop :=
  queenCarry (supplyFill this queen) = [] → storeStructures this ≠ [] →
  ∃ manifest,
    buildSupplyTaskManifest distance this queen = (Some manifest, [])
    ∧ Forall (λ t, isWithdraw t = false ∧ isTransfer t = false) manifest.

(** ** A small colony, used to exercise the statements below *)

Module Sample.
Definition at_ (x y : Z) : RoomPosition.t := RoomPosition.mk x y "W1N1".

Definition storage : Structure.t :=
Structure.mk "storage" STRUCTURE_STORAGE (at_ 5 5) {[ "energy" := 200%Z; "H" := 5%Z ]}.
Definition battery : Structure.t :=
Structure.mk "battery" STRUCTURE_CONTAINER (at_ 6 5) {[ "energy" := 40%Z; "H" := 20%Z ]}.
Definition rampart : Structure.t :=
Structure.mk "rampart" STRUCTURE_RAMPART (at_ 7 7) ∅.
Definition extension : Structure.t :=
Structure.mk "extension" STRUCTURE_EXTENSION (at_ 7 7) ∅.
Definition lab : Structure.t :=
Structure.mk "lab" STRUCTURE_LAB (at_ 3 3) ∅.
Definition tower : Structure.t :=
Structure.mk "tower" STRUCTURE_TOWER (at_ 3 7) ∅.
Definition spawn : Structure.t :=
Structure.mk "spawn" STRUCTURE_SPAWN (at_ 7 3) ∅.
Definition road : Structure.t :=
Structure.mk "road" STRUCTURE_ROAD (at_ 5 7) ∅.
(** A tower built outside the bunker. *)
Definition outpost : Structure.t :=
Structure.mk "outpost" STRUCTURE_TOWER (at_ 20 20) ∅.

Definition structures : list Structure.t :=
  [storage; battery; rampart; extension; lab; tower; spawn; road; outpost].

Definition getPos (c : Coord) : RoomPosition.t := at_ (coord_x c) (coord_y c).

Definition lookFor (tile : RoomPosition.t) : list Structure.t :=
  List.filter (λ s, bool_decide (Structure.pos s = tile)) structures.

Definition fillOrder : Quadrants Coord :=
  mkQuadrants [mkCoord 7 7; mkCoord 5 7] [mkCoord 3 3] [mkCoord 3 7] [mkCoord 7 3].
End Sample.

(** Two ways a bunker can differ from the sample: a tower built inside the
    bounds on a tile that no coordinate table names, and coordinate tables
    two of which name the tile of the extension. *)
Module Unlisted.
Import Sample.

Definition innerTower : Structure.t :=
Structure.mk "innerTower" STRUCTURE_TOWER (at_ 5 3) ∅.

Definition lookFor (tile : RoomPosition.t) : list Structure.t :=
  List.filter (λ s, bool_decide (Structure.pos s = tile)) (innerTower :: structures).

Definition overlapping : Quadrants Coord :=
  mkQuadrants [mkCoord 7 7; mkCoord 5 7] [mkCoord 7 7; mkCoord 3 3]
              [mkCoord 3 7] [mkCoord 7 3].
End Unlisted.

Module SampleColony.
Import Sample.

Definition requests : TransportRequestGroup.t :=
  TransportRequestGroup.mk
    {[ "extension" := [TransportRequest.mk extension "energy" 30%Z];
       "tower" := [TransportRequest.mk tower "energy" 100%Z];
       "lab" := [TransportRequest.mk lab "H" 10%Z];
       "spawn" := [TransportRequest.mk spawn "energy" 300%Z] ]}
    {[ "lab" := [TransportRequest.mk lab "OH" 15%Z] ]}.

Definition colony : Colony.t := Colony.mk None (Some storage) [battery] requests.

Definition queen_a : Zerg.t :=
  Zerg.mk "queen_a" (at_ 1 1) {[ "energy" := 10%Z ]} 100%Z false None.
Definition queen_b : Zerg.t :=
  Zerg.mk "queen_b" (at_ 2 2) ∅ 100%Z false None.
Definition queen_c : Zerg.t :=
  Zerg.mk "queen_c" (at_ 7 4) ∅ 100%Z true None.

Definition zerg : list Zerg.t := [queen_b; queen_c; queen_a].

Definition insideBounds (pos : RoomPosition.t) : bool :=
  bool_decide (0 ≤ RoomPosition.x pos ≤ 10 ∧ 0 ≤ RoomPosition.y pos ≤ 10)%Z.

(** Travel distance, here the number of steps on an open floor. *)
Definition distance (a b : RoomPosition.t) : Z :=
  Z.max (Z.abs (RoomPosition.x a - RoomPosition.x b))
        (Z.abs (RoomPosition.y a - RoomPosition.y b)).

Definition chargingSpots : list Coord := [mkCoord 4 6; mkCoord 6 4].

Definition this : Overlord := constructor getPos lookFor insideBounds fillOrder colony zerg.
End SampleColony.

(** The scenarios of the specification: one queen of capacity 50 serving
    every zone. *)
Module Scenario.
Import Sample.

Definition queen : Zerg.t := Zerg.mk "queen" (at_ 1 1) ∅ 50%Z false None.

(** One request for 80 energy, one store with 200 energy. *)
Definition bigRequest : Colony.t :=
  Colony.mk None
    (Some (Structure.mk "store" STRUCTURE_STORAGE (at_ 5 5) {[ "energy" := 200%Z ]}))
    []
    (TransportRequestGroup.mk
       {[ "extension" := [TransportRequest.mk extension "energy" 80%Z] ]} ∅).

(** Needs of 30 energy and 10 of a mineral; store A holds 40 and 5, store B
    holds 40 and 20. *)
Definition storeA : Structure.t :=
Structure.mk "A" STRUCTURE_STORAGE (at_ 5 5) {[ "energy" := 40%Z; "H" := 5%Z ]}.
Definition storeB : Structure.t :=
Structure.mk "B" STRUCTURE_CONTAINER (at_ 9 9) {[ "energy" := 40%Z; "H" := 20%Z ]}.
Definition twoStores : Colony.t :=
  Colony.mk None (Some storeA) [storeB]
    (TransportRequestGroup.mk
       {[ "extension" := [TransportRequest.mk extension "energy" 30%Z];
          "lab" := [TransportRequest.mk lab "H" 10%Z] ]} ∅).

(** No store at all, and a queen carrying 10 energy. *)
Definition loaded : Zerg.t :=
  Zerg.mk "queen" (at_ 1 1) {[ "energy" := 10%Z ]} 50%Z false None.
Definition noStore : Colony.t :=
  Colony.mk None None []
    (TransportRequestGroup.mk
       {[ "extension" := [TransportRequest.mk extension "energy" 30%Z] ]} ∅).

(** Energy split over two stores, 20 in the storage and 20 in a battery,
    and one request for 30. *)
Definition halfA : Structure.t :=
Structure.mk "A" STRUCTURE_STORAGE (at_ 5 5) {[ "energy" := 20%Z ]}.
Definition halfB : Structure.t :=
Structure.mk "B" STRUCTURE_CONTAINER (at_ 6 5) {[ "energy" := 20%Z ]}.
Definition splitStock : Colony.t :=
  Colony.mk None (Some halfA) [halfB]
    (TransportRequestGroup.mk
       {[ "extension" := [TransportRequest.mk extension "energy" 30%Z] ]} ∅).

(** A lab asking for a mineral that no store holds. *)
Definition energyStore : Structure.t :=
Structure.mk "store" STRUCTURE_STORAGE (at_ 5 5) {[ "energy" := 200%Z ]}.
Definition noMineral : Colony.t :=
  Colony.mk None (Some energyStore) []
    (TransportRequestGroup.mk
       {[ "lab" := [TransportRequest.mk lab "H" 10%Z] ]} ∅).

Definition overlord (colony : Colony.t) (queen : Zerg.t) : Overlord :=
  constructor getPos lookFor SampleColony.insideBounds fillOrder colony [queen].
End Scenario.

(** ** Further measures of manifests and effects *)

(** What a list of operations withdraws, and what it delivers, of one
    resource. *)
Definition withdrawnOf (resource : string) (tasks : list Task) : Z :=
  foldr (λ t acc,
           match t with
           | Withdraw _ r amount => if decide (r = resource) then (amount + acc)%Z else acc
           | _ => acc
           end) 0%Z tasks.

Definition deliveredOf (resource : string) (tasks : list Task) : Z :=
  foldr (λ t acc,
           match t with
           | Transfer _ r amount => if decide (r = resource) then (amount + acc)%Z else acc
           | _ => acc
           end) 0%Z tasks.

(** The amounts of a list of requests, summed. *)
Definition requestedTotal (requests : list TransportRequest.t) : Z :=
  foldr (λ request acc, (TransportRequest.amount request + acc)%Z) 0%Z requests.

(** The names of the queens that ran their task, and of those sent
    somewhere, in the order of the effects. *)
Definition ranTask (e : Effect) : option string :=
  match e with RunTask queenName _ => Some queenName | _ => None end.

Definition sentTo (e : Effect) : option string :=
  match e with GoTo queenName _ _ => Some queenName | _ => None end.

(** The store an operation takes from or flushes into, if it does. *)
Definition storeOf (t : Task) : option Structure.t :=
  match t with
  | TransferAll target => Some target
  | Withdraw target _ _ => Some target
  | Transfer _ _ _ => None
  end.

(** An operation serves a request: it moves a nonzero amount, not more than
    was requested, of the requested resource to (or from) the target of the
    request; a delivery moreover stays within what is available. *)
Definition servesSupply (available : string → Z)
    (request : TransportRequest.t) (op : Task) : Prop :=
  ∃ amount,
    op = Transfer (TransportRequest.target request)
                  (TransportRequest.resourceType request) amount
    ∧ amount ≠ 0%Z
    ∧ (amount ≤ TransportRequest.amount request)%Z
    ∧ (amount ≤ available (TransportRequest.resourceType request))%Z.

Definition servesWithdraw (request : TransportRequest.t) (op : Task) : Prop :=
  ∃ amount,
    op = Withdraw (TransportRequest.target request)
                  (TransportRequest.resourceType request) amount
    ∧ amount ≠ 0%Z
    ∧ (amount ≤ TransportRequest.amount request)%Z.

(** A request served in full. *)
Definition deliverInFull (request : TransportRequest.t) : Task :=
  Transfer (TransportRequest.target request) (TransportRequest.resourceType request)
           (TransportRequest.amount request).

Definition withdrawInFull (request : TransportRequest.t) : Task :=
  Withdraw (TransportRequest.target request) (TransportRequest.resourceType request)
           (TransportRequest.amount request).

(** The amount an operation moves, when it names one. *)
Definition amountOf (t : Task) : option Z :=
  match t with
  | TransferAll _ => None
  | Transfer _ _ amount => Some amount
  | Withdraw _ _ amount => Some amount
  end.

(** The resources of a list of operations, and the distinct entries of a list
    in the order of their first occurrence. *)
Definition resourceOf (t : Task) : option string :=
  match t with
  | TransferAll _ => None
  | Transfer _ r _ => Some r
  | Withdraw _ r _ => Some r
  end.

Definition firstOccurrences (seen : list string) (l : list string) : list string :=
  foldl (λ acc r, if decide (r ∈ acc) then acc else acc ++ [r]) seen l.

(** * Properties *)

(** ** Sorting by name *)

Section SortBy.
Context {A : Type} (key : A → string).

Lemma insertBy_Permutation (a : A) (l : list A) : insertBy key a l ≡ₚ a :: l.
Proof.
  induction l as [|b l IH]; simpl; [done|].
  destruct (String.leb (key a) (key b)); [done|].
  rewrite IH. apply Permutation_swap.
Qed.

Lemma sortBy_Permutation (l : list A) : sortBy key l ≡ₚ l.
Proof.
  induction l as [|a l IH]; simpl; [done|].
  unfold sortBy in *. simpl. by rewrite insertBy_Permutation, IH.
Qed.

Lemma insertBy_HdRel (a b : A) (l : list A) :
  String.le (key b) (key a) →
  HdRel String.le (key b) (key <$> l) →
  HdRel String.le (key b) (key <$> insertBy key a l).
Proof.
  intros Hba Hl. destruct l as [|c l]; simpl; [by constructor|].
  destruct (String.leb (key a) (key c)); simpl; constructor; [done|].
  by inversion Hl.
Qed.

Lemma insertBy_Sorted (a : A) (l : list A) :
  Sorted String.le (key <$> l) → Sorted String.le (key <$> insertBy key a l).
Proof.
  induction l as [|b l IH]; simpl; intros Hs.
  - repeat constructor.
  - destruct (String.leb (key a) (key b)) eqn:Hab; simpl.
    + constructor; [done|]. constructor. unfold String.le. by rewrite Hab.
    + inversion Hs as [|? ? Hs' Hhd]; subst.
      constructor; [by apply IH|].
      apply insertBy_HdRel; [|done].
      destruct (total String.le (key a) (key b)) as [Hle|Hle]; [|done].
      unfold String.le in Hle. by rewrite Hab in Hle.
Qed.

Lemma sortBy_Sorted (l : list A) : Sorted String.le (key <$> sortBy key l).
Proof.
  induction l as [|a l IH]; [constructor|].
  unfold sortBy in *. simpl. by apply insertBy_Sorted.
Qed.
End SortBy.

(** ** Zone assignment *)

Section Assignment.
Implicit Types (m : gmap string (list Structure.t)) (queen : Zerg.t).

Lemma initial_assignments_lookup (queens : list Zerg.t) m (agent : string) :
  foldl (λ m queen, <[Zerg.name queen := []]> m) m queens !! agent
  = if decide (agent ∈ Zerg.name <$> queens) then Some [] else m !! agent.
Proof.
  revert m. induction queens as [|q queens IH]; intros m.
  - cbn [foldl]. destruct (decide (agent ∈ Zerg.name <$> [])) as [H|H]; [|done].
    by apply elem_of_nil in H.
  - cbn [foldl]. rewrite IH, fmap_cons.
    destruct (decide (agent ∈ Zerg.name <$> queens)) as [Hin|Hnin].
    + rewrite decide_True; [done|]. apply elem_of_cons. by right.
    + destruct (decide (agent = Zerg.name q)) as [->|Hne].
      * rewrite lookup_insert_eq, decide_True; [done|]. apply elem_of_cons. by left.
      * rewrite lookup_insert_ne by done. rewrite decide_False; [done|].
        intros H. apply elem_of_cons in H as [?|?]; done.
Qed.

Lemma nth_name_lookup (active : list Zerg.t) (queen0 : Zerg.t) (k : nat) :
  (k < length active)%nat →
  (Zerg.name <$> active) !! k = Some (Zerg.name (nth k active queen0)).
Proof.
  intros Hk. rewrite list_lookup_fmap.
  destruct (nth_lookup_or_length active k queen0) as [->|?]; [done|lia].
Qed.

Lemma assign_fold (active : list Zerg.t) (queen0 : Zerg.t)
    (zones : list (list Structure.t)) :
  active ≠ [] →
  ∀ m (i : nat) (agent : string) (l : list Structure.t),
    m !! agent = Some l →
    (foldl (assignStep active queen0) (m, i) zones).1 !! agent
    = Some (l ++ zonesOf (Zerg.name <$> active) i zones agent).
Proof.
  intros Hne. induction zones as [|zone zones IH]; intros m i agent l Hl; simpl.
  - by rewrite app_nil_r.
  - assert (Hlt : (i mod length active < length active)%nat).
    { apply Nat.mod_upper_bound. by destruct active. }
    rewrite length_fmap, (nth_name_lookup active queen0 _ Hlt).
    set (queen := nth (i mod length active) active queen0).
    case_decide as Hd.
    + injection Hd as Hd.
      rewrite (IH _ _ agent (l ++ zone)).
      * by rewrite app_assoc.
      * rewrite Hd, lookup_insert_eq, Hl. done.
    + rewrite (IH _ _ agent l); [done|].
      rewrite lookup_insert_ne; [done|]. congruence.
Qed.

Lemma zonesOf_absent {A} (names : list string) (agent : string)
    (zones : list (list A)) (i : nat) :
  agent ∉ names → zonesOf names i zones agent = [].
Proof.
  intros Hnot. revert i. induction zones as [|zone zones IH]; intros i; simpl; [done|].
  rewrite IH. case_decide as Hd; [|done].
  exfalso. apply Hnot. by eapply list_elem_of_lookup_2.
Qed.

Lemma assignQuadrants_lookup (queens : list Zerg.t) (quadrants : Quadrants Structure.t)
    (agent : string) :
  agent ∈ Zerg.name <$> queens →
  assignQuadrants queens quadrants !! agent
  = Some (zonesOf (Zerg.name <$> List.filter (λ queen, negb (Zerg.spawning queen)) queens) 0
                  [lowerRight quadrants; upperLeft quadrants;
                   lowerLeft quadrants; upperRight quadrants] agent).
Proof.
  intros Hin. unfold assignQuadrants.
  assert (Hinit : foldl (λ m queen, <[Zerg.name queen := []]> m) ∅ queens !! agent
                  = Some []).
  { rewrite initial_assignments_lookup. by case_decide. }
  destruct (List.filter _ queens) as [|queen0 rest] eqn:Hact.
  - rewrite Hinit, zonesOf_absent; [done|]. apply not_elem_of_nil.
  - by rewrite (assign_fold (queen0 :: rest) queen0 _ ltac:(done) _ _ _ _ Hinit).
Qed.

Lemma inactive_not_active (queens : list Zerg.t) queen :
  NoDup (Zerg.name <$> queens) → queen ∈ queens → Zerg.spawning queen = true →
  Zerg.name queen ∉ Zerg.name <$> List.filter (λ queen, negb (Zerg.spawning queen)) queens.
Proof.
  induction queens as [|q queens IH]; intros Hnd Hin Hsp; simpl.
  - by apply elem_of_nil in Hin.
  - apply NoDup_cons in Hnd as [Hq Hnd].
    assert (Hsub : ∀ n, n ∈ Zerg.name <$>
                    List.filter (λ queen, negb (Zerg.spawning queen)) queens →
                    n ∈ Zerg.name <$> queens).
    { intros n Hn. apply list_elem_of_fmap_1 in Hn as (q' & -> & Hq').
      apply list_elem_of_fmap_2.
      apply list_elem_of_In. apply list_elem_of_In, filter_In in Hq'. tauto. }
    apply elem_of_cons in Hin as [->|Hin].
    + rewrite Hsp. simpl. intros H. by apply Hq, Hsub.
    + destruct (negb (Zerg.spawning q)); simpl; [|by apply IH].
      intros H. apply elem_of_cons in H as [Heq|H]; [|by eapply IH].
      apply Hq. rewrite <- Heq. by apply list_elem_of_fmap_2.
Qed.
End Assignment.

Lemma active_names_NoDup (queens : list Zerg.t) :
  NoDup (Zerg.name <$> queens) →
  NoDup (Zerg.name <$> List.filter (λ queen, negb (Zerg.spawning queen)) queens).
Proof.
  induction queens as [|q queens IH]; simpl; intros Hnd; [constructor|].
  apply NoDup_cons in Hnd as [Hq Hnd].
  destruct (negb (Zerg.spawning q)); simpl; [|by apply IH].
  apply NoDup_cons. split; [|by apply IH].
  intros Hin. apply Hq.
  apply list_elem_of_fmap_1 in Hin as (q' & -> & Hq').
  apply list_elem_of_fmap_2, list_elem_of_In.
  apply list_elem_of_In, filter_In in Hq'. tauto.
Qed.

(** C4.  The queens are the creeps sorted by name; zone [i] of the fixed
    order lowerRight, upperLeft, lowerLeft, upperRight goes to the active
    (not spawning) queen at index [i mod activeCount]; without active queens
    every assignment is empty, a spawning queen's assignment is always
    empty, and two active queens get lowerRight with lowerLeft, and
    upperLeft with upperRight. *)
Theorem zone_assignment_round_robin
    (getPosFromBunkerCoord : Coord → RoomPosition.t)
    (lookForStructures : RoomPosition.t → list Structure.t)
    (insideBunkerBounds : RoomPosition.t → bool)
    (quadrantFillOrder : Quadrants Coord)
    (colony : Colony.t) (zerg : list Zerg.t) :
  NoDup (Zerg.name <$> zerg) →
  let this := constructor getPosFromBunkerCoord lookForStructures insideBunkerBounds
                          quadrantFillOrder colony zerg in
  let active := List.filter (λ queen, negb (Zerg.spawning queen)) (queens this) in
  let zones := [lowerRight (quadrants this); upperLeft (quadrants this);
                lowerLeft (quadrants this); upperRight (quadrants this)] in
  queens this ≡ₚ zerg
  ∧ Sorted String.le (Zerg.name <$> queens this)
  ∧ (∀ queen, queen ∈ queens this →
       assignments this !! Zerg.name queen
       = Some (zonesOf (Zerg.name <$> active) 0 zones (Zerg.name queen)))
  ∧ (active = [] →
       ∀ queen, queen ∈ queens this → assignments this !! Zerg.name queen = Some [])
  ∧ (∀ queen, queen ∈ queens this → Zerg.spawning queen = true →
       assignments this !! Zerg.name queen = Some [])
  ∧ (∀ a b, active = [a; b] →
       assignments this !! Zerg.name a
       = Some (lowerRight (quadrants this) ++ lowerLeft (quadrants this))
       ∧ assignments this !! Zerg.name b
         = Some (upperLeft (quadrants this) ++ upperRight (quadrants this))).
Proof.
  intros Hnd this active zones.
  assert (Hperm : queens this ≡ₚ zerg) by apply sortBy_Permutation.
  assert (Hnd' : NoDup (Zerg.name <$> queens this)) by by rewrite Hperm.
  assert (Hlookup : ∀ agent, agent ∈ Zerg.name <$> queens this →
            assignments this !! agent
            = Some (zonesOf (Zerg.name <$> active) 0 zones agent)).
  { intros agent Hin. by apply assignQuadrants_lookup. }
  split; [done|]. split; [apply sortBy_Sorted|].
  split; [|split; [|split]].
  - intros queen Hin. by apply Hlookup, list_elem_of_fmap_2.
  - intros Hact queen Hin.
    rewrite Hlookup by by apply list_elem_of_fmap_2.
    rewrite zonesOf_absent; [done|]. rewrite Hact. apply not_elem_of_nil.
  - intros queen Hin Hsp.
    rewrite Hlookup by by apply list_elem_of_fmap_2.
    rewrite zonesOf_absent; [done|]. by apply inactive_not_active.
  - intros a b Hact.
    assert (Hab : Zerg.name a ≠ Zerg.name b).
    { pose proof (active_names_NoDup _ Hnd') as H. fold active in H.
      rewrite Hact in H. simpl in H. apply NoDup_cons in H as [H _].
      intros Heq. apply H. rewrite Heq. set_solver. }
    assert (Hina : a ∈ queens this ∧ b ∈ queens this).
    { split; apply list_elem_of_In;
        eapply proj1, (filter_In (λ queen, negb (Zerg.spawning queen)));
        fold active; rewrite Hact; simpl; auto. }
    destruct Hina as [Hina Hinb].
    rewrite !Hlookup by by apply list_elem_of_fmap_2.
    rewrite Hact. unfold zones. simpl.
    repeat (case_decide; simplify_eq); by rewrite ?app_nil_r.
Qed.

(** ** Zone partition *)

Lemma isSupplyStructure_roles (s : Structure.t) :
  isSupplyStructure s = true ↔
Structure.structureType s = STRUCTURE_EXTENSION
  ∨ Structure.structureType s = STRUCTURE_SPAWN
  ∨ Structure.structureType s = STRUCTURE_TOWER
  ∨ Structure.structureType s = STRUCTURE_LAB.
Proof.
  unfold isSupplyStructure.
  rewrite !orb_true_iff, !bool_decide_eq_true. tauto.
Qed.

Section Partition.
Variable getPosFromBunkerCoord : Coord → RoomPosition.t.
Variable lookForStructures : RoomPosition.t → list Structure.t.

Lemma computeQuadrant_omap (quadrant : list Coord) :
  computeQuadrant getPosFromBunkerCoord lookForStructures quadrant = omap (λ c, supplyStructureAt lookForStructures (getPosFromBunkerCoord c)) quadrant.
Proof.
  unfold computeQuadrant.
  enough (H : ∀ acc, foldl (λ structures pos,
             match supplyStructureAt lookForStructures pos with
             | Some structure => structures ++ [structure]
             | None => structures
             end) acc (map getPosFromBunkerCoord quadrant) = acc ++ omap (λ c, supplyStructureAt lookForStructures (getPosFromBunkerCoord c)) quadrant)
    by apply (H []).
  induction quadrant as [|c quadrant IH]; intros acc; simpl.
  - by rewrite app_nil_r.
  - rewrite IH.
    destruct (supplyStructureAt _ _); [by rewrite <- app_assoc|done].
Qed.

Lemma found_supply (tile : RoomPosition.t) (s : Structure.t) :
  supplyStructureAt lookForStructures tile = Some s →
  isSupplyStructure s = true ∧ s ∈ lookForStructures tile.
Proof.
  intros H. apply find_some in H as [H1 H2]. split; [done|by apply list_elem_of_In].
Qed.

Lemma found_none (tile : RoomPosition.t) :
  (∀ s, s ∈ lookForStructures tile → isSupplyStructure s = false) →
  supplyStructureAt lookForStructures tile = None.
Proof.
  intros H. destruct (supplyStructureAt _ tile) as [s|] eqn:Hf; [|done].
  apply found_supply in Hf as [Hs Hin]. rewrite (H s Hin) in Hs. done.
Qed.

Lemma omap_found_NoDup (coords : list Coord) :
  NoDup (getPosFromBunkerCoord <$> coords) →
  (∀ tile s, s ∈ lookForStructures tile → Structure.pos s = tile) →
  NoDup (omap (λ c, supplyStructureAt lookForStructures (getPosFromBunkerCoord c)) coords).
Proof.
  intros Hnd Htile. induction coords as [|c coords IH]; simpl; [constructor|].
  rewrite fmap_cons in Hnd. apply NoDup_cons in Hnd as [Hc Hnd].
  destruct (supplyStructureAt _ _) as [s|] eqn:Hf; [|by apply IH].
  apply NoDup_cons. split; [|by apply IH].
  intros Hin. apply list_elem_of_omap in Hin as (c' & Hc' & Hf').
  apply Hc.
  apply found_supply in Hf as [_ Hs]. apply found_supply in Hf' as [_ Hs'].
  rewrite <- (Htile _ _ Hs), (Htile _ _ Hs'). by apply list_elem_of_fmap_2.
Qed.

Lemma zones_omap (tables : Quadrants Coord) :
  computeQuadrant getPosFromBunkerCoord lookForStructures (lowerRight tables) ++ computeQuadrant getPosFromBunkerCoord lookForStructures (upperLeft tables)
  ++ computeQuadrant getPosFromBunkerCoord lookForStructures (lowerLeft tables) ++ computeQuadrant getPosFromBunkerCoord lookForStructures (upperRight tables)
  = omap (λ c, supplyStructureAt lookForStructures (getPosFromBunkerCoord c)) (lowerRight tables ++ upperLeft tables
                ++ lowerLeft tables ++ upperRight tables).
Proof. by rewrite !computeQuadrant_omap, !omap_app. Qed.
End Partition.

Lemma once_in_list (l before after : list Structure.t) (s : Structure.t) :
  l = before ++ s :: after → s ∉ before → s ∉ after →
  length (List.filter (λ x, bool_decide (x = s)) l) = 1.
Proof.
  intros -> Hb Ha.
  assert (Hnone : ∀ l' : list Structure.t,
            s ∉ l' → List.filter (λ x, bool_decide (x = s)) l' = []).
  { induction l' as [|x l' IH]; intros Hx; simpl; [done|].
    apply not_elem_of_cons in Hx as [Hne Hx].
    rewrite bool_decide_eq_false_2 by done. by apply IH. }
  rewrite List.filter_app. simpl. rewrite bool_decide_eq_true_2 by done.
  by rewrite (Hnone before), (Hnone after).
Qed.

(** C9 (amended).  Every structure of a quadrant list has one of the four
    roles extension, spawn, tower, lab; a coordinate whose tile holds no
    structure with such a role adds nothing to a quadrant; the four zones
    hold exactly the first supply structures of the tiles that the
    coordinate tables name.  Given that a tile lookup returns only structures
    standing on that tile: when the tables name pairwise distinct tiles the
    zones hold each of their structures once, and a supply structure standing
    on a tile that no table names is in no zone.  A tile that holds a supply
    structure and is named twice puts that structure into the zones twice. *)
Theorem zone_partition_of_listed_tiles
    (getPosFromBunkerCoord : Coord → RoomPosition.t)
    (lookForStructures : RoomPosition.t → list Structure.t)
    (quadrantFillOrder : Quadrants Coord) :
  let zone := computeQuadrant getPosFromBunkerCoord lookForStructures in
  let coords := lowerRight quadrantFillOrder ++ upperLeft quadrantFillOrder
                ++ lowerLeft quadrantFillOrder ++ upperRight quadrantFillOrder in
  let zones := zone (lowerRight quadrantFillOrder) ++ zone (upperLeft quadrantFillOrder)
               ++ zone (lowerLeft quadrantFillOrder) ++ zone (upperRight quadrantFillOrder) in
  (∀ quadrant s, s ∈ zone quadrant →
Structure.structureType s = STRUCTURE_EXTENSION
     ∨ Structure.structureType s = STRUCTURE_SPAWN
     ∨ Structure.structureType s = STRUCTURE_TOWER
     ∨ Structure.structureType s = STRUCTURE_LAB)
  ∧ (∀ c, (∀ s, s ∈ lookForStructures (getPosFromBunkerCoord c) →
             isSupplyStructure s = false) →
       ∀ before after, zone (before ++ c :: after) = zone (before ++ after))
  ∧ (∀ s, s ∈ zones ↔
       ∃ c, c ∈ coords
            ∧ supplyStructureAt lookForStructures (getPosFromBunkerCoord c) = Some s)
  ∧ ((∀ tile s, s ∈ lookForStructures tile → Structure.pos s = tile) →
     (NoDup (getPosFromBunkerCoord <$> coords) → NoDup zones)
     ∧ (∀ s, (∀ c, c ∈ coords → getPosFromBunkerCoord c ≠ Structure.pos s) →
          s ∉ zones))
  ∧ (∀ c1 c2 before between after s,
       coords = before ++ c1 :: between ++ c2 :: after →
       getPosFromBunkerCoord c1 = getPosFromBunkerCoord c2 →
       supplyStructureAt lookForStructures (getPosFromBunkerCoord c1) = Some s →
       ¬ NoDup zones).
Proof.
  intros zone coords zones. subst zone coords zones.
  rewrite zones_omap. split; [|split; [|split; [|split]]].
  - intros quadrant s Hin. rewrite computeQuadrant_omap in Hin.
    apply list_elem_of_omap in Hin as (c & _ & Hf).
    apply found_supply in Hf as [Hs _]. by apply isSupplyStructure_roles.
  - intros c Hc before after. rewrite !computeQuadrant_omap, !omap_app. simpl.
    by rewrite (found_none _ _ Hc).
  - intros s. split.
    + intros Hin. by apply list_elem_of_omap in Hin.
    + intros H. by apply list_elem_of_omap.
  - intros Htile. split.
    + intros Hnd. by apply omap_found_NoDup.
    + intros s Hunlisted Hin.
      apply list_elem_of_omap in Hin as (c & Hc & Hf).
      apply found_supply in Hf as [_ Hs].
      apply (Hunlisted c Hc). by rewrite (Htile _ _ Hs).
  - intros c1 c2 before between after s -> Htwice Hf Hnd.
    rewrite omap_app in Hnd. simpl in Hnd.
    rewrite Hf in Hnd. apply NoDup_app in Hnd as (_ & _ & Hnd).
    apply NoDup_cons in Hnd as [Hnotin _]. apply Hnotin.
    rewrite omap_app. simpl. rewrite <- Htwice, Hf.
    apply elem_of_app. right. apply elem_of_cons. by left.
Qed.

Lemma zone_partition_of_listed_tiles_witness :
  NoDup (computeQuadrant Sample.getPos Sample.lookFor (lowerRight Sample.fillOrder)
         ++ computeQuadrant Sample.getPos Sample.lookFor (upperLeft Sample.fillOrder)
         ++ computeQuadrant Sample.getPos Sample.lookFor (lowerLeft Sample.fillOrder)
         ++ computeQuadrant Sample.getPos Sample.lookFor (upperRight Sample.fillOrder))
  ∧ Sample.outpost
    ∉ computeQuadrant Sample.getPos Sample.lookFor (lowerRight Sample.fillOrder)
      ++ computeQuadrant Sample.getPos Sample.lookFor (upperLeft Sample.fillOrder)
      ++ computeQuadrant Sample.getPos Sample.lookFor (lowerLeft Sample.fillOrder)
      ++ computeQuadrant Sample.getPos Sample.lookFor (upperRight Sample.fillOrder).
Proof.
  assert (Htile : ∀ tile s, s ∈ Sample.lookFor tile → Structure.pos s = tile).
  { intros tile s Hin. unfold Sample.lookFor in Hin.
    apply list_elem_of_In, filter_In in Hin as [_ Hin].
    by apply bool_decide_eq_true in Hin. }
  destruct (proj1 (proj2 (proj2 (proj2
    (zone_partition_of_listed_tiles Sample.getPos Sample.lookFor Sample.fillOrder))))
    Htile) as [Hnd Hunlisted].
  split.
  - apply Hnd. apply (bool_decide_unpack _). vm_compute. reflexivity.
  - apply Hunlisted. intros c Hc. simpl in Hc.
    repeat (apply elem_of_cons in Hc as [->|Hc]; [vm_compute; discriminate|]).
    by apply elem_of_nil in Hc.
Defined.

(** C9, as stated, fails, in two ways.  A tower standing inside the bunker
    bounds on a tile that no coordinate table names is in none of the four
    zones; and when two tables name the tile of the extension, the extension
    is in two zones. *)
Lemma inner_tower_in_no_zone :
  (SampleColony.insideBounds (Structure.pos Unlisted.innerTower) = true
   ∧ isSupplyStructure Unlisted.innerTower = true
   ∧ Unlisted.lookFor (Structure.pos Unlisted.innerTower) = [Unlisted.innerTower]
   ∧ computeQuadrant Sample.getPos Unlisted.lookFor (lowerRight Sample.fillOrder)
     ++ computeQuadrant Sample.getPos Unlisted.lookFor (upperLeft Sample.fillOrder)
     ++ computeQuadrant Sample.getPos Unlisted.lookFor (lowerLeft Sample.fillOrder)
     ++ computeQuadrant Sample.getPos Unlisted.lookFor (upperRight Sample.fillOrder)
     = [Sample.extension; Sample.lab; Sample.tower; Sample.spawn]
   ∧ ¬ every_supply_structure_in_one_zone Sample.getPos Unlisted.lookFor
         SampleColony.insideBounds Sample.fillOrder)
  ∧ (SampleColony.insideBounds (Structure.pos Sample.extension) = true
     ∧ computeQuadrant Sample.getPos Sample.lookFor (lowerRight Unlisted.overlapping)
       = [Sample.extension]
     ∧ computeQuadrant Sample.getPos Sample.lookFor (upperLeft Unlisted.overlapping)
       = [Sample.extension; Sample.lab]
     ∧ ¬ every_supply_structure_in_one_zone Sample.getPos Sample.lookFor
           SampleColony.insideBounds Unlisted.overlapping).
Proof.
  split.
  - split; [vm_compute; reflexivity|]. split; [reflexivity|].
    split; [vm_compute; reflexivity|]. split; [vm_compute; reflexivity|].
    intros Hclaim.
    destruct (Hclaim (Structure.pos Unlisted.innerTower) Unlisted.innerTower)
      as (before & after & Heq & Hb & Ha).
    + apply (bool_decide_unpack _). vm_compute. reflexivity.
    + vm_compute. reflexivity.
    + reflexivity.
    + pose proof (once_in_list _ _ _ _ Heq Hb Ha) as Hone.
      vm_compute in Hone. discriminate.
  - split; [vm_compute; reflexivity|]. split; [vm_compute; reflexivity|].
    split; [vm_compute; reflexivity|].
    intros Hclaim.
    destruct (Hclaim (Structure.pos Sample.extension) Sample.extension)
      as (before & after & Heq & Hb & Ha).
    + apply (bool_decide_unpack _). vm_compute. reflexivity.
    + vm_compute. reflexivity.
    + reflexivity.
    + pose proof (once_in_list _ _ _ _ Heq Hb Ha) as Hone.
      vm_compute in Hone. discriminate.
Qed.

(** ** The simulated carry *)

Lemma sumCarry_carryAdd (r : string) (amount : Z) (c : CarryObj) :
  sumCarry (carryAdd r amount c) = (sumCarry c + amount)%Z.
Proof.
  induction c as [|[k v] c IH]; simpl; [lia|].
  case_decide; simpl; lia.
Qed.

Lemma mergeSum_lookup (stores : list Structure.t) (resource : string) :
  default 0%Z (mergeSum (Structure.store <$> stores) !! resource)
  = availability stores resource.
Proof.
  induction stores as [|s stores IH]; simpl; [done|].
  rewrite lookup_union_with, <- IH.
  destruct (Structure.store s !! resource), (mergeSum _ !! resource); simpl; lia.
Qed.

(** ** The greedy fill loops *)

Section Fill.
Variable carryCapacity : Z.

Lemma supplyStep_broken (store : gmap string Z) (requests : list TransportRequest.t)
    (st : FillState) :
  broken st = true → foldl (supplyStep carryCapacity store) st requests = st.
Proof.
  intros Hb. induction requests as [|request requests IH]; simpl; [done|].
  unfold supplyStep at 2. by rewrite Hb.
Qed.

Lemma withdrawStep_broken (requests : list TransportRequest.t) (st : FillState) :
  broken st = true → foldl (withdrawStep carryCapacity) st requests = st.
Proof.
  intros Hb. induction requests as [|request requests IH]; simpl; [done|].
  unfold withdrawStep at 2. by rewrite Hb.
Qed.

Lemma supplyStep_capacity (store : gmap string Z) (st : FillState)
    (request : TransportRequest.t) :
  (sumCarry (queenCarry st) ≤ carryCapacity)%Z →
  (sumCarry (queenCarry (supplyStep carryCapacity store st request)) ≤ carryCapacity)%Z.
Proof.
  intros Hst. unfold supplyStep.
  destruct (broken st); [done|].
  destruct (_ =? 0)%Z; [done|].
  destruct (_ =? 0)%Z; [done|]. simpl.
  rewrite sumCarry_carryAdd. lia.
Qed.

Lemma withdrawStep_capacity (st : FillState) (request : TransportRequest.t) :
  (sumCarry (queenCarry st) ≤ carryCapacity)%Z →
  (sumCarry (queenCarry (withdrawStep carryCapacity st request)) ≤ carryCapacity)%Z.
Proof.
  intros Hst. unfold withdrawStep.
  destruct (broken st); [done|].
  destruct (_ =? 0)%Z; [done|].
  destruct (_ =? 0)%Z; [done|]. simpl.
  rewrite sumCarry_carryAdd. lia.
Qed.

Lemma fold_capacity (step : FillState → TransportRequest.t → FillState)
    (requests : list TransportRequest.t) :
  (∀ st request, (sumCarry (queenCarry st) ≤ carryCapacity)%Z →
                 (sumCarry (queenCarry (step st request)) ≤ carryCapacity)%Z) →
  ∀ st, (sumCarry (queenCarry st) ≤ carryCapacity)%Z →
        (sumCarry (queenCarry (foldl step st requests)) ≤ carryCapacity)%Z.
Proof.
  intros Hstep. induction requests as [|request requests IH]; intros st Hst; simpl; [done|].
  by apply IH, Hstep.
Qed.

Lemma supply_fold_greedy (store : gmap string Z) (available : string → Z)
    (requests : list TransportRequest.t) :
  (∀ resource, default 0%Z (store !! resource) = available resource) →
  ∀ st, broken st = false →
    let result := foldl (supplyStep carryCapacity store) st requests in
    let spec := greedySupply carryCapacity available requests (queenCarry st) in
    queenCarry result = spec.1 ∧ pushed result = pushed st ++ spec.2.
Proof.
  intros Hav. induction requests as [|request requests IH]; intros st Hb; simpl.
  - by rewrite app_nil_r.
  - unfold supplyStep at 2 4. rewrite Hb, Hav.
    destruct (Z.eqb_spec (carryCapacity - sumCarry (queenCarry st)) 0) as [H0|H0].
    + rewrite decide_True by done. rewrite supplyStep_broken by done.
      simpl. by rewrite app_nil_r.
    + rewrite decide_False by done.
      rewrite <- Z.min_assoc.
      destruct (Z.eqb_spec (Z.min (TransportRequest.amount request)
                 (Z.min (carryCapacity - sumCarry (queenCarry st))
                    (available (TransportRequest.resourceType request)))) 0) as [Ha|Ha].
      * rewrite decide_True by done. by apply IH.
      * rewrite decide_False by done.
        match goal with
        | |- context [foldl _ ?st' requests] =>
            destruct (IH st' eq_refl) as [IH1 IH2]
        end.
        simpl in IH1, IH2. destruct (greedySupply _ _ _ _) as [carry deliveries].
        simpl in *. split; [done|]. by rewrite IH2, <- app_assoc.
Qed.

Lemma withdraw_fold_greedy (requests : list TransportRequest.t) :
  ∀ st, broken st = false →
    let result := foldl (withdrawStep carryCapacity) st requests in
    let spec := greedyWithdraw carryCapacity requests (queenCarry st) in
    queenCarry result = spec.1 ∧ pushed result = pushed st ++ spec.2.
Proof.
  induction requests as [|request requests IH]; intros st Hb; simpl.
  - by rewrite app_nil_r.
  - unfold withdrawStep at 2 4. rewrite Hb.
    destruct (Z.eqb_spec (carryCapacity - sumCarry (queenCarry st)) 0) as [H0|H0].
    + rewrite decide_True by done. rewrite withdrawStep_broken by done.
      simpl. by rewrite app_nil_r.
    + rewrite decide_False by done.
      destruct (Z.eqb_spec (Z.min (TransportRequest.amount request)
                 (carryCapacity - sumCarry (queenCarry st))) 0) as [Ha|Ha].
      * rewrite decide_True by done. by apply IH.
      * rewrite decide_False by done.
        match goal with
        | |- context [foldl _ ?st' requests] =>
            destruct (IH st' eq_refl) as [IH1 IH2]
        end.
        simpl in IH1, IH2. destruct (greedyWithdraw _ _ _) as [carry withdrawals].
        simpl in *. split; [done|]. by rewrite IH2, <- app_assoc.
Qed.
End Fill.

(** C5.  The loop of the supply path is the greedy fill of the
    specification, with the availability read from the summed stores of all
    store structures; the loop of the withdraw path is the same fill without
    the availability bound, started from [{energy: 0}] and pushing onto the
    tasks built so far. *)
Theorem greedy_fill_amounts (this : Overlord) (queen : Zerg.t) :
  (∀ resource,
     default 0%Z (allStore this !! resource) = availability (storeStructures this) resource)
  ∧ (queenCarry (supplyFill this queen), pushed (supplyFill this queen))
    = greedySupply (Zerg.carryCapacity queen) (availability (storeStructures this))
                   (supplyRequests this queen) []
  ∧ (∀ tasks,
       (queenCarry (withdrawFill tasks this queen), pushed (withdrawFill tasks this queen))
       = let spec := greedyWithdraw (Zerg.carryCapacity queen)
                                   (withdrawRequests this queen) [("energy", 0%Z)] in
         (spec.1, tasks ++ spec.2)).
Proof.
  split; [intros; apply mergeSum_lookup|]. split.
  - destruct (supply_fold_greedy (Zerg.carryCapacity queen) (allStore this)
                (availability (storeStructures this)) (supplyRequests this queen)
                (mergeSum_lookup _) (mkFill [] [] false) eq_refl) as [H1 H2].
    unfold supplyFill. rewrite H1, H2. simpl. by destruct (greedySupply _ _ _ _).
  - intros tasks.
    destruct (withdraw_fold_greedy (Zerg.carryCapacity queen) (withdrawRequests this queen)
                (mkFill [("energy", 0%Z)] tasks false) eq_refl) as [H1 H2].
    unfold withdrawFill. by rewrite H1, H2.
Qed.

(** ** Choosing the withdraw source *)

Lemma carryGet_nonzero_key (c : CarryObj) (r : string) :
  carryGet c r ≠ 0%Z → r ∈ carryKeys c.
Proof.
  induction c as [|[k v] c IH]; simpl; [done|].
  case_decide as Hk; [subst; set_solver|].
  intros H. apply elem_of_cons. right. by apply IH.
Qed.

Lemma coversCarry_spec (c : CarryObj) (s : Structure.t) :
  coversCarry c s = true ↔
  ∀ r, r ∈ carryKeys c → (carryGet c r ≤ default 0 (Structure.store s !! r))%Z.
Proof.
  unfold coversCarry. rewrite forallb_forall. split.
  - intros H r Hr. apply Z.leb_le, H. by apply list_elem_of_In.
  - intros H r Hr. apply Z.leb_le, H. by apply list_elem_of_In.
Qed.

Lemma withdrawTargets_spec (this : Overlord) (c : CarryObj) (s : Structure.t) :
  s ∈ withdrawTargets this c ↔
  s ∈ storeStructures this
  ∧ ∀ r, r ∈ carryKeys c → (carryGet c r ≤ default 0 (Structure.store s !! r))%Z.
Proof.
  unfold withdrawTargets.
  rewrite list_elem_of_In, filter_In, <- list_elem_of_In, coversCarry_spec. done.
Qed.

Lemma minBy_least {A} (objects : list A) (iteratee : A → Z) :
  objects ≠ [] →
  ∃ a, minBy objects iteratee = Some a ∧ a ∈ objects
       ∧ ∀ b, b ∈ objects → (iteratee a ≤ iteratee b)%Z.
Proof.
  induction objects as [|a rest IH]; [done|]. intros _. simpl.
  destruct rest as [|a' rest'].
  - exists a. simpl. split; [done|]. split; [apply elem_of_cons; by left|].
    intros b Hb. apply list_elem_of_singleton in Hb as ->. lia.
  - destruct IH as (m & -> & Hm & Hleast); [done|].
    destruct (Z.leb_spec (iteratee a) (iteratee m)) as [Hle|Hlt].
    + exists a. split; [done|]. split; [apply elem_of_cons; by left|].
      intros b Hb. apply elem_of_cons in Hb as [->|Hb]; [lia|].
      specialize (Hleast b Hb). lia.
    + exists m. split; [done|]. split; [apply elem_of_cons; by right|].
      intros b Hb. apply elem_of_cons in Hb as [->|Hb]; [lia|].
      by apply Hleast.
Qed.

Lemma pickWithdrawTarget_least (distance : RoomPosition.t → RoomPosition.t → Z)
    (queenPos : RoomPosition.t) (targets : list Structure.t) :
  targets ≠ [] →
  ∃ source,
    pickWithdrawTarget distance queenPos targets = Some source
    ∧ source ∈ targets
    ∧ (∀ s, s ∈ targets →
         (distance queenPos (Structure.pos source) ≤ distance queenPos (Structure.pos s))%Z)
    ∧ (∀ s, targets = [s] → source = s).
Proof.
  intros Hne. unfold pickWithdrawTarget.
  destruct targets as [|s1 [|s2 rest]]; [done| |].
  - exists s1. simpl. split; [done|]. split; [set_solver|]. split.
    + intros s Hs. apply list_elem_of_singleton in Hs as ->. lia.
    + intros s [= ->]. done.
  - change (1 <? length (s1 :: s2 :: rest))%nat with true. cbv iota.
    destruct (minBy_least (s1 :: s2 :: rest)
                (λ target, distance queenPos (Structure.pos target)) Hne)
      as (source & Hmin & Hin & Hleast).
    exists source. by repeat split.
Qed.

Lemma supplyFlush_cases (this : Overlord) (queen : Zerg.t) :
  (sumValues (Zerg.carry queen) ≤ 0)%Z
  ∧ supplyFlush this queen = inl ([], Zerg.pos queen)
  ∨ (0 < sumValues (Zerg.carry queen))%Z
    ∧ (∃ target, transferTarget this = Some target
                 ∧ supplyFlush this queen = inl ([TransferAll target], Structure.pos target))
  ∨ (0 < sumValues (Zerg.carry queen))%Z
    ∧ transferTarget this = None
    ∧ supplyFlush this queen = inr (NoTransferTargets (Zerg.name queen) (Zerg.pos queen)).
Proof.
  unfold supplyFlush.
  destruct (Z.ltb_spec 0 (sumValues (Zerg.carry queen))) as [Hpos|Hle].
  - right. destruct (transferTarget this) as [target|]; [left|right]; eauto.
  - left. done.
Qed.


(** ** Shape of the manifests *)

Lemma chain_Some (tasks manifest : list Task) :
  Tasks.chain tasks = Some manifest ↔ tasks ≠ [] ∧ manifest = tasks.
Proof.
  destruct tasks as [|t tasks]; simpl.
  - split; [done|]. by intros [? _].
  - split; [by intros [= <-]|by intros [_ ->]].
Qed.

Lemma chain_None (tasks : list Task) : Tasks.chain tasks = None ↔ tasks = [].
Proof. by destruct tasks. Qed.

Lemma chain_snoc (tasks : list Task) (t : Task) :
  Tasks.chain (tasks ++ [t]) = Some (tasks ++ [t]).
Proof. by destruct tasks. Qed.


Lemma greedySupply_deliveries (carryCapacity : Z) (available : string → Z)
    (requests : list TransportRequest.t) (c : CarryObj) :
  Forall (λ t, isTransfer t = true) (greedySupply carryCapacity available requests c).2.
Proof.
  revert c. induction requests as [|request requests IH]; intros c; simpl; [constructor|].
  case_decide; [constructor|]. case_decide; [apply IH|].
  specialize (IH (carryAdd (TransportRequest.resourceType request)
    (Z.min (TransportRequest.amount request)
       (Z.min (carryCapacity - sumCarry c)
          (available (TransportRequest.resourceType request)))) c)).
  destruct (greedySupply _ _ _ _) as [carry deliveries]. simpl in *.
  by constructor.
Qed.

Lemma greedyWithdraw_withdrawals (carryCapacity : Z)
    (requests : list TransportRequest.t) (c : CarryObj) :
  Forall (λ t, isWithdraw t = true) (greedyWithdraw carryCapacity requests c).2.
Proof.
  revert c. induction requests as [|request requests IH]; intros c; simpl; [constructor|].
  case_decide; [constructor|]. case_decide; [apply IH|].
  specialize (IH (carryAdd (TransportRequest.resourceType request)
    (Z.min (TransportRequest.amount request) (carryCapacity - sumCarry c)) c)).
  destruct (greedyWithdraw _ _ _) as [carry withdrawals]. simpl in *.
  by constructor.
Qed.

Lemma supplyFill_deliveries (this : Overlord) (queen : Zerg.t) :
  Forall (λ t, isTransfer t = true) (pushed (supplyFill this queen)).
Proof.
  destruct (supply_fold_greedy (Zerg.carryCapacity queen) (allStore this)
              (availability (storeStructures this)) (supplyRequests this queen)
              (mergeSum_lookup _) (mkFill [] [] false) eq_refl) as [_ H].
  unfold supplyFill. rewrite H. simpl. apply greedySupply_deliveries.
Qed.

Lemma withdrawFill_withdrawals (tasks : list Task) (this : Overlord) (queen : Zerg.t) :
  ∃ withdrawals,
    pushed (withdrawFill tasks this queen) = tasks ++ withdrawals
    ∧ Forall (λ t, isWithdraw t = true) withdrawals.
Proof.
  destruct (withdraw_fold_greedy (Zerg.carryCapacity queen) (withdrawRequests this queen)
              (mkFill [("energy", 0%Z)] tasks false) eq_refl) as [_ H].
  eexists. split; [exact H|]. apply greedyWithdraw_withdrawals.
Qed.

Lemma withdrawFlush_cases (this : Overlord) (queen : Zerg.t) :
  (sumValues (Zerg.carry queen) ≤ 0)%Z ∧ withdrawFlush this queen = inl []
  ∨ (0 < sumValues (Zerg.carry queen))%Z
    ∧ (∃ target, transferTarget this = Some target
                 ∧ withdrawFlush this queen = inl [TransferAll target])
  ∨ (0 < sumValues (Zerg.carry queen))%Z
    ∧ transferTarget this = None
    ∧ withdrawFlush this queen = inr (NoTransferTargets (Zerg.name queen) (Zerg.pos queen)).
Proof.
  unfold withdrawFlush.
  destruct (Z.ltb_spec 0 (sumValues (Zerg.carry queen))) as [Hpos|Hle].
  - right. destruct (transferTarget this) as [target|]; [left|right]; eauto.
  - left. done.
Qed.

Lemma supply_manifest_shape
    (distance : RoomPosition.t → RoomPosition.t → Z)
    (this : Overlord) (queen : Zerg.t) (manifest : list Task) (warnings : list Warning) :
  buildSupplyTaskManifest distance this queen = (Some manifest, warnings) →
  ∃ flush source,
    manifest
    = flush
      ++ map (λ r, Withdraw source r (carryGet (queenCarry (supplyFill this queen)) r))
             (carryKeys (queenCarry (supplyFill this queen)))
      ++ pushed (supplyFill this queen)
    ∧ (flush = [] ∨ ∃ target, flush = [TransferAll target])
    ∧ Forall (λ t, isTransfer t = true) (pushed (supplyFill this queen)).
Proof.
  intros Hb. unfold buildSupplyTaskManifest in Hb.
  destruct (supplyFlush_cases this queen)
    as [[_ Hf]|[[_ (target & _ & Hf)]|[_ [_ Hf]]]]; rewrite Hf in Hb; [| |done];
    (destruct (pickWithdrawTarget _ _ _) as [source|]; [|done]);
    unfold Tasks.withdraw in Hb;
    pose proof (f_equal fst Hb) as Hc; cbn [fst] in Hc;
    apply chain_Some in Hc as [_ ->];
    eexists _, source; (split; [reflexivity|]);
    (split; [eauto|apply supplyFill_deliveries]).
Qed.

Lemma withdraw_manifest_shape
    (this : Overlord) (queen : Zerg.t) (manifest : list Task) (warnings : list Warning) :
  buildWithdrawTaskManifest this queen = (Some manifest, warnings) →
  ∃ flush withdrawals target,
    manifest = flush ++ withdrawals ++ [TransferAll target]
    ∧ (flush = [] ∨ flush = [TransferAll target])
    ∧ transferTarget this = Some target
    ∧ Forall (λ t, isWithdraw t = true) withdrawals
    ∧ pushed (withdrawFill flush this queen) = flush ++ withdrawals.
Proof.
  intros Hb. unfold buildWithdrawTaskManifest in Hb.
  destruct (withdrawFlush_cases this queen)
    as [[_ Hf]|[[_ (target & Ht & Hf)]|[_ [_ Hf]]]]; rewrite Hf in Hb; [| |done].
  - destruct (transferTarget this) as [target|]; [|done].
    destruct (withdrawFill_withdrawals [] this queen) as (ws & Hp & Hws).
    rewrite Hp in Hb. unfold Tasks.transferAll in Hb.
    rewrite chain_snoc in Hb. simplify_eq.
    exists [], ws, target. eauto 10.
  - rewrite Ht in Hb.
    destruct (withdrawFill_withdrawals [TransferAll target] this queen)
      as (ws & Hp & Hws).
    rewrite Hp in Hb. unfold Tasks.transferAll in Hb.
    rewrite chain_snoc in Hb. simplify_eq.
    exists [TransferAll target], ws, target. rewrite <- app_assoc. eauto 10.
Qed.

(** C3.  A supply manifest is, in this order, at most one carry flush, the
    withdrawals (one per needed resource, all from one source), and the
    deliveries of the greedy fill; a withdraw manifest is at most one carry
    flush, the withdrawals of the greedy fill, and exactly one final flush,
    also when the fill produced no withdrawal. *)
Theorem manifest_chain_order
    (distance : RoomPosition.t → RoomPosition.t → Z)
    (this : Overlord) (queen : Zerg.t) :
  (∀ manifest warnings,
     buildSupplyTaskManifest distance this queen = (Some manifest, warnings) →
     ∃ flush source,
       manifest
       = flush
         ++ map (λ r, Withdraw source r (carryGet (queenCarry (supplyFill this queen)) r))
                (carryKeys (queenCarry (supplyFill this queen)))
         ++ pushed (supplyFill this queen)
       ∧ (flush = [] ∨ ∃ target, flush = [TransferAll target])
       ∧ Forall (λ t, isTransfer t = true) (pushed (supplyFill this queen)))
  ∧ (∀ manifest warnings,
     buildWithdrawTaskManifest this queen = (Some manifest, warnings) →
     ∃ flush withdrawals target,
       manifest = flush ++ withdrawals ++ [TransferAll target]
       ∧ (flush = [] ∨ flush = [TransferAll target])
       ∧ transferTarget this = Some target
       ∧ Forall (λ t, isWithdraw t = true) withdrawals)
  ∧ (∀ target,
     transferTarget this = Some target → withdrawRequests this queen = [] →
     ∃ flush,
       buildWithdrawTaskManifest this queen = (Some (flush ++ [TransferAll target]), [])
       ∧ (flush = [] ∨ flush = [TransferAll target])).
Proof.
  split; [|split].
  - intros manifest warnings. apply supply_manifest_shape.
  - intros manifest warnings Hb.
    destruct (withdraw_manifest_shape _ _ _ _ Hb) as (flush & ws & target & H).
    exists flush, ws, target. tauto.
  - intros target Ht Hreq. unfold buildWithdrawTaskManifest, withdrawFill.
    rewrite Hreq, Ht. simpl.
    destruct (withdrawFlush_cases this queen)
      as [[_ Hf]|[[_ (target' & Ht' & Hf)]|[_ [Hnone _]]]]; [| |congruence];
      rewrite Hf.
    + exists []. eauto.
    + simplify_eq. exists [TransferAll target]. eauto.
Qed.

(** ** What a manifest withdraws *)

Lemma withdrawnTotal_app (a b : list Task) :
  withdrawnTotal (a ++ b) = (withdrawnTotal a + withdrawnTotal b)%Z.
Proof. induction a as [|t a IH]; simpl; [done|]. destruct t; lia. Qed.

Lemma withdrawnTotal_deliveries (tasks : list Task) :
  Forall (λ t, isTransfer t = true) tasks → withdrawnTotal tasks = 0%Z.
Proof. induction 1 as [|t tasks Ht _ IH]; simpl; [done|]. by destruct t. Qed.

Lemma carryKeys_carryAdd (r : string) (amount : Z) (c : CarryObj) :
  carryKeys (carryAdd r amount c)
  = if decide (r ∈ carryKeys c) then carryKeys c else carryKeys c ++ [r].
Proof.
  unfold carryKeys. induction c as [|[k v] c IH]; cbn [carryAdd].
  - destruct (decide (r ∈ [].*1)) as [H|H]; [|done]. by apply elem_of_nil in H.
  - rewrite (fmap_cons fst (k, v) c). cbn [fst].
    destruct (decide (k = r)) as [->|Hne].
    + rewrite fmap_cons. cbn [fst].
      rewrite decide_True; [done|]. apply elem_of_cons. by left.
    + rewrite fmap_cons, IH. cbn [fst].
      destruct (decide (r ∈ c.*1)) as [Hin|Hnin].
      * rewrite decide_True; [done|]. apply elem_of_cons. by right.
      * rewrite decide_False; [done|].
        intros H. apply elem_of_cons in H as [?|?]; done.
Qed.

Lemma carryAdd_NoDup (r : string) (amount : Z) (c : CarryObj) :
  NoDup (carryKeys c) → NoDup (carryKeys (carryAdd r amount c)).
Proof.
  intros Hnd. rewrite carryKeys_carryAdd. case_decide; [done|].
  apply NoDup_app. split; [done|]. split; [|apply NoDup_singleton].
  intros x Hx Hr. apply list_elem_of_singleton in Hr as ->. done.
Qed.

Lemma greedySupply_NoDup (carryCapacity : Z) (available : string → Z)
    (requests : list TransportRequest.t) (c : CarryObj) :
  NoDup (carryKeys c) →
  NoDup (carryKeys (greedySupply carryCapacity available requests c).1).
Proof.
  revert c. induction requests as [|request requests IH]; intros c Hnd; simpl; [done|].
  case_decide; [done|]. case_decide; [by apply IH|].
  specialize (IH _ (carryAdd_NoDup (TransportRequest.resourceType request)
    (Z.min (TransportRequest.amount request)
       (Z.min (carryCapacity - sumCarry c)
          (available (TransportRequest.resourceType request)))) c Hnd)).
  by destruct (greedySupply _ _ _ _).
Qed.

Lemma withdrawals_of_carry (source : Structure.t) (c : CarryObj) :
  NoDup (carryKeys c) →
  withdrawnTotal (map (λ r, Withdraw source r (carryGet c r)) (carryKeys c)) = sumCarry c.
Proof.
  unfold carryKeys. induction c as [|[k v] c IH]; simpl; [done|].
  intros Hnd. apply NoDup_cons in Hnd as [Hk Hnd].
  rewrite decide_True by done. rewrite <- (IH Hnd). f_equal. f_equal.
  apply map_ext_in. intros r Hr. rewrite decide_False; [done|].
  intros ->. by apply Hk, list_elem_of_In.
Qed.

Lemma greedyWithdraw_total (carryCapacity : Z)
    (requests : list TransportRequest.t) (c : CarryObj) :
  withdrawnTotal (greedyWithdraw carryCapacity requests c).2
  = (sumCarry (greedyWithdraw carryCapacity requests c).1 - sumCarry c)%Z.
Proof.
  revert c. induction requests as [|request requests IH]; intros c; simpl; [lia|].
  case_decide; [simpl; lia|]. case_decide; [apply IH|].
  specialize (IH (carryAdd (TransportRequest.resourceType request)
    (Z.min (TransportRequest.amount request) (carryCapacity - sumCarry c)) c)).
  destruct (greedyWithdraw _ _ _) as [carry withdrawals]. simpl in *.
  rewrite IH, sumCarry_carryAdd. lia.
Qed.

(** C2.  With a carry capacity that is not negative, the simulated carry
    never sums to more than the capacity: after any number of requests of
    either greedy fill, and at its end; and what a built manifest withdraws
    in total is the sum of the final simulated carry, hence within the
    capacity. *)
Theorem capacity_respected (this : Overlord) (queen : Zerg.t) :
  (0 ≤ Zerg.carryCapacity queen)%Z →
  (∀ n, (sumCarry (queenCarry
           (foldl (supplyStep (Zerg.carryCapacity queen) (allStore this))
                  (mkFill [] [] false) (take n (supplyRequests this queen))))
         ≤ Zerg.carryCapacity queen)%Z)
  ∧ (sumCarry (queenCarry (supplyFill this queen)) ≤ Zerg.carryCapacity queen)%Z
  ∧ (∀ tasks n, (sumCarry (queenCarry
           (foldl (withdrawStep (Zerg.carryCapacity queen))
                  (mkFill [("energy", 0%Z)] tasks false) (take n (withdrawRequests this queen))))
         ≤ Zerg.carryCapacity queen)%Z)
  ∧ (∀ tasks, (sumCarry (queenCarry (withdrawFill tasks this queen))
               ≤ Zerg.carryCapacity queen)%Z)
  ∧ (∀ distance manifest warnings,
       buildSupplyTaskManifest distance this queen = (Some manifest, warnings) →
       withdrawnTotal manifest = sumCarry (queenCarry (supplyFill this queen))
       ∧ (withdrawnTotal manifest ≤ Zerg.carryCapacity queen)%Z)
  ∧ (∀ manifest warnings,
       buildWithdrawTaskManifest this queen = (Some manifest, warnings) →
       (∃ tasks, withdrawnTotal manifest
                 = sumCarry (queenCarry (withdrawFill tasks this queen)))
       ∧ (withdrawnTotal manifest ≤ Zerg.carryCapacity queen)%Z).
Proof.
  intros Hcap.
  assert (Hsupply : (sumCarry (queenCarry (supplyFill this queen))
                     ≤ Zerg.carryCapacity queen)%Z).
  { apply fold_capacity; [intros; by apply supplyStep_capacity|simpl; lia]. }
  assert (Hwithdraw : ∀ tasks, (sumCarry (queenCarry (withdrawFill tasks this queen))
                                ≤ Zerg.carryCapacity queen)%Z).
  { intros tasks.
    apply fold_capacity; [intros; by apply withdrawStep_capacity|simpl; lia]. }
  split; [|split; [done|split; [|split; [done|split]]]].
  - intros n. apply fold_capacity; [intros; by apply supplyStep_capacity|simpl; lia].
  - intros tasks n.
    apply fold_capacity; [intros; by apply withdrawStep_capacity|simpl; lia].
  - intros distance manifest warnings Hb.
    destruct (supply_manifest_shape _ _ _ _ _ Hb) as (flush & source & -> & Hflush & Hdel).
    assert (Htotal : withdrawnTotal
              (flush
               ++ map (λ r, Withdraw source r (carryGet (queenCarry (supplyFill this queen)) r))
                      (carryKeys (queenCarry (supplyFill this queen)))
               ++ pushed (supplyFill this queen))
              = sumCarry (queenCarry (supplyFill this queen))).
    { rewrite !withdrawnTotal_app, (withdrawnTotal_deliveries _ Hdel).
      rewrite withdrawals_of_carry.
      - destruct Hflush as [->|[target ->]]; simpl; lia.
      - destruct (supply_fold_greedy (Zerg.carryCapacity queen) (allStore this)
                    (availability (storeStructures this)) (supplyRequests this queen)
                    (mergeSum_lookup _) (mkFill [] [] false) eq_refl) as [H1 _].
        unfold supplyFill. rewrite H1. apply greedySupply_NoDup. constructor. }
    rewrite Htotal. done.
  - intros manifest warnings Hb.
    destruct (withdraw_manifest_shape _ _ _ _ Hb)
      as (flush & ws & target & -> & Hflush & _ & _ & Hp).
    assert (Htotal : withdrawnTotal (flush ++ ws ++ [TransferAll target])
                     = sumCarry (queenCarry (withdrawFill flush this queen))).
    { destruct (withdraw_fold_greedy (Zerg.carryCapacity queen) (withdrawRequests this queen)
                  (mkFill [("energy", 0%Z)] flush false) eq_refl) as [H1 H2].
      fold (withdrawFill flush this queen) in H1, H2. simpl in H1, H2.
      rewrite Hp in H2. apply app_inv_head in H2.
      rewrite !withdrawnTotal_app, H1, H2, greedyWithdraw_total.
      destruct Hflush as [->| ->]; simpl; lia. }
    split; [eauto|]. rewrite Htotal. apply Hwithdraw.
Qed.

Lemma capacity_respected_witness :
  (sumCarry (queenCarry (supplyFill SampleColony.this SampleColony.queen_a)) ≤ 100)%Z.
Proof.
  refine (proj1 (proj2 (capacity_respected SampleColony.this SampleColony.queen_a _))).
  vm_compute. discriminate.
Defined.

(** ** Dispatch of one queen *)

Section Dispatch.
Variable getPosFromBunkerCoord : Coord → RoomPosition.t.
Variable distance : RoomPosition.t → RoomPosition.t → Z.
Variable bunkerChargingSpots : list Coord.
Variable isValid : list Task → bool.

Lemma anyRequest_spec (byID : gmap string (list TransportRequest.t))
    (structures : list Structure.t) :
  anyRequest byID structures = true ↔
  ∃ struc, struc ∈ structures ∧ is_Some (byID !! Structure.id struc).
Proof.
  unfold anyRequest. rewrite existsb_exists. split.
  - intros (struc & Hin & Ht). exists struc. split; [by apply list_elem_of_In|].
    destruct (byID !! Structure.id struc); [eauto|done].
  - intros (struc & Hin & [reqs Hsome]). exists struc.
    split; [by apply list_elem_of_In|]. by rewrite Hsome.
Qed.

Lemma isIdle_no_task (queen : Zerg.t) : Zerg.task queen = None → isIdle isValid queen = true.
Proof. unfold isIdle. by intros ->. Qed.

(** [handleQueen], with the choice of the builder made explicit. *)
Lemma handleQueen_built (this : Overlord) (queen : Zerg.t)
    (built : option (list Task) * list Warning) :
  let requests := Colony.transportRequests (colony this) in
  (anyRequest (TransportRequestGroup.withdrawByID requests) (assigned this queen) = true
   ∧ built = buildWithdrawTaskManifest this queen)
  ∨ (anyRequest (TransportRequestGroup.withdrawByID requests) (assigned this queen) = false
     ∧ anyRequest (TransportRequestGroup.supplyByID requests) (assigned this queen) = true
     ∧ built = buildSupplyTaskManifest distance this queen) →
  handleQueen getPosFromBunkerCoord distance bunkerChargingSpots isValid this queen
  = (Zerg.setTask queen built.1,
     map LogWarning built.2
     ++ (if isIdle isValid (Zerg.setTask queen built.1)
         then idleActions getPosFromBunkerCoord bunkerChargingSpots this (Zerg.setTask queen built.1) else [])).
Proof.
  intros requests H. unfold handleQueen. fold requests.
  destruct H as [[-> ->]|(-> & -> & ->)]; unfold assignTask;
    destruct (isIdle isValid _); by rewrite ?app_nil_r.
Qed.

Lemma handleQueen_no_request (this : Overlord) (queen : Zerg.t) :
  let requests := Colony.transportRequests (colony this) in
  anyRequest (TransportRequestGroup.withdrawByID requests) (assigned this queen) = false →
  anyRequest (TransportRequestGroup.supplyByID requests) (assigned this queen) = false →
  handleQueen getPosFromBunkerCoord distance bunkerChargingSpots isValid this queen
  = (queen, if isIdle isValid queen then idleActions getPosFromBunkerCoord bunkerChargingSpots this queen else []).
Proof.
  intros requests Hw Hs. unfold handleQueen. fold requests.
  rewrite Hw, Hs. by destruct (isIdle isValid queen).
Qed.

Lemma idleActions_goTo (this : Overlord) (queen : Zerg.t) :
  ∃ warnings spot,
    idleActions getPosFromBunkerCoord bunkerChargingSpots this queen = map LogWarning warnings ++ [GoTo (Zerg.name queen) spot 0].
Proof.
  unfold idleActions. destruct (getChargingSpot _ _ _ _) as [spot warnings].
  eauto.
Qed.
End Dispatch.

(** ** Fallback store and aborted builds *)

Lemma buildSupply_flush_abort (distance : RoomPosition.t → RoomPosition.t → Z)
    (this : Overlord) (queen : Zerg.t) :
  buildSupplyTaskManifest distance this queen
  = (None, [NoTransferTargets (Zerg.name queen) (Zerg.pos queen)])
  ↔ (0 < sumValues (Zerg.carry queen))%Z ∧ transferTarget this = None.
Proof.
  unfold buildSupplyTaskManifest.
  destruct (supplyFlush_cases this queen)
    as [[Hle Hf]|[[Hpos (target & Ht & Hf)]|(Hpos & Ht & Hf)]]; rewrite Hf.
  - split; [|lia]. by destruct (pickWithdrawTarget _ _ _).
  - split; [|intros [_ ?]; congruence]. by destruct (pickWithdrawTarget _ _ _).
  - done.
Qed.

Lemma buildWithdraw_abort (this : Overlord) (queen : Zerg.t) :
  (transferTarget this = None →
   buildWithdrawTaskManifest this queen
   = (None, [NoTransferTargets (Zerg.name queen) (Zerg.pos queen)]))
  ∧ (∀ target, transferTarget this = Some target →
     ∃ manifest, buildWithdrawTaskManifest this queen = (Some manifest, [])).
Proof.
  unfold buildWithdrawTaskManifest, withdrawFlush. split.
  - intros ->. by destruct (0 <? _)%Z.
  - intros target ->. destruct (0 <? _)%Z; rewrite chain_snoc; eauto.
Qed.

(** The three ways the supply build can end: at the carry flush, at the
    choice of the source, or with the chain of the planned operations. *)
Lemma buildSupply_cases (distance : RoomPosition.t → RoomPosition.t → Z)
    (this : Overlord) (queen : Zerg.t) :
  let carry := queenCarry (supplyFill this queen) in
  ((0 < sumValues (Zerg.carry queen))%Z ∧ transferTarget this = None
   ∧ buildSupplyTaskManifest distance this queen
     = (None, [NoTransferTargets (Zerg.name queen) (Zerg.pos queen)]))
  ∨ (((sumValues (Zerg.carry queen) ≤ 0)%Z ∨ is_Some (transferTarget this))
     ∧ withdrawTargets this carry = []
     ∧ buildSupplyTaskManifest distance this queen
       = (None, [NoWithdrawTarget (Zerg.name queen) (Zerg.pos queen)]))
  ∨ (∃ flush source,
       ((sumValues (Zerg.carry queen) ≤ 0)%Z ∧ flush = []
        ∨ (0 < sumValues (Zerg.carry queen))%Z
          ∧ ∃ target, transferTarget this = Some target ∧ flush = [TransferAll target])
       ∧ source ∈ withdrawTargets this carry
       ∧ buildSupplyTaskManifest distance this queen
         = (Tasks.chain
              (flush ++ map (λ r, Withdraw source r (carryGet carry r)) (carryKeys carry)
               ++ pushed (supplyFill this queen)), [])).
Proof.
  intros carry. unfold buildSupplyTaskManifest. fold carry.
  destruct (supplyFlush_cases this queen)
    as [[Hle Hf]|[[Hpos (target & Ht & Hf)]|(Hpos & Ht & Hf)]]; rewrite Hf.
  - destruct (withdrawTargets this carry) as [|s0 rest] eqn:Hc.
    + right. left. split; [by left|]. done.
    + destruct (pickWithdrawTarget_least distance (Zerg.pos queen) (s0 :: rest)
                  ltac:(done)) as (source & -> & Hin & _).
      right. right. exists [], source. split; [by left|]. done.
  - destruct (withdrawTargets this carry) as [|s0 rest] eqn:Hc.
    + right. left. split; [right; by rewrite Ht|]. done.
    + destruct (pickWithdrawTarget_least distance (Structure.pos target) (s0 :: rest)
                  ltac:(done)) as (source & -> & Hin & _).
      right. right. exists [TransferAll target], source. split; [right; eauto|]. done.
  - left. done.
Qed.

(** The two ways the withdraw build can end. *)
Lemma buildWithdraw_cases (this : Overlord) (queen : Zerg.t) :
  (transferTarget this = None
   ∧ buildWithdrawTaskManifest this queen
     = (None, [NoTransferTargets (Zerg.name queen) (Zerg.pos queen)]))
  ∨ (∃ target withdrawals,
       transferTarget this = Some target
       ∧ Forall (λ t, isWithdraw t = true) withdrawals
       ∧ buildWithdrawTaskManifest this queen
         = (Some ((if (0 <? sumValues (Zerg.carry queen))%Z
                   then [TransferAll target] else [])
                  ++ withdrawals ++ [TransferAll target]), [])).
Proof.
  destruct (transferTarget this) as [target|] eqn:Ht.
  - right. unfold buildWithdrawTaskManifest, withdrawFlush. rewrite Ht.
    destruct (0 <? sumValues (Zerg.carry queen))%Z.
    + destruct (withdrawFill_withdrawals [Tasks.transferAll target] this queen)
        as (ws & Hp & Hws).
      exists target, ws. rewrite Hp, chain_snoc, <- app_assoc. done.
    + destruct (withdrawFill_withdrawals [] this queen) as (ws & Hp & Hws).
      exists target, ws. rewrite Hp, chain_snoc. done.
  - left. split; [done|]. by apply buildWithdraw_abort.
Qed.

Lemma flushTargets_app (a b : list Task) :
  flushTargets (a ++ b) = flushTargets a ++ flushTargets b.
Proof. apply omap_app. Qed.

Lemma flushTargets_deliveries (tasks : list Task) :
  Forall (λ t, isTransfer t = true) tasks → flushTargets tasks = [].
Proof. induction 1 as [|t tasks Ht _ IH]; [done|]. by destruct t. Qed.

Lemma flushTargets_withdrawals (tasks : list Task) :
  Forall (λ t, isWithdraw t = true) tasks → flushTargets tasks = [].
Proof. induction 1 as [|t tasks Ht _ IH]; [done|]. by destruct t. Qed.

Lemma flushTargets_of_carry (source : Structure.t) (amount : string → Z)
    (keys : list string) :
  flushTargets (map (λ r, Withdraw source r (amount r)) keys) = [].
Proof. by induction keys. Qed.

(** C6 (amended).  The fallback store is the terminal, else the storage,
    else the first battery, and every carry flush of a manifest goes to it:
    a supply manifest starts with one flush exactly when the queen carries
    something, a withdraw manifest moreover ends with one.  The supply build
    stops with no manifest and the no-transfer-target warning exactly when
    the queen carries something and there is no fallback store; it stops
    with the no-withdraw-target warning exactly when the flush goes through
    and no store structure covers the simulated carry; it logs no other
    warning.  The withdraw build stops with no manifest and the
    no-transfer-target warning exactly when there is no fallback store, at
    the first flush when the queen carries something and at the final one
    otherwise.  A queen whose build returned no manifest has no task, is
    idle, and is sent to its charging spot in the same cycle. *)
Theorem carry_flush_fallback
    (getPosFromBunkerCoord : Coord → RoomPosition.t)
    (distance : RoomPosition.t → RoomPosition.t → Z)
    (bunkerChargingSpots : list Coord) (isValid : list Task → bool)
    (this : Overlord) (queen : Zerg.t) :
  let carrying := (0 < sumValues (Zerg.carry queen))%Z in
  let noTransfer := NoTransferTargets (Zerg.name queen) (Zerg.pos queen) in
  let noWithdraw := NoWithdrawTarget (Zerg.name queen) (Zerg.pos queen) in
  let supply := buildSupplyTaskManifest distance this queen in
  let withdraw := buildWithdrawTaskManifest this queen in
  let requests := Colony.transportRequests (colony this) in
  transferTarget this
  = match Colony.terminal (colony this), Colony.storage (colony this) with
    | Some terminal, _ => Some terminal
    | None, Some storage => Some storage
    | None, None => head (batteries this)
    end
  ∧ (∀ manifest, supply.1 = Some manifest →
       (carrying →
        ∃ target rest,
          transferTarget this = Some target
          ∧ manifest = TransferAll target :: rest ∧ flushTargets rest = [])
       ∧ (¬ carrying → flushTargets manifest = []))
  ∧ (∀ manifest, withdraw.1 = Some manifest →
       ∃ target,
         transferTarget this = Some target
         ∧ last manifest = Some (TransferAll target)
         ∧ (carrying →
            head manifest = Some (TransferAll target)
            ∧ flushTargets manifest = [target; target])
         ∧ (¬ carrying → flushTargets manifest = [target]))
  ∧ (supply = (None, [noTransfer]) ↔ carrying ∧ transferTarget this = None)
  ∧ (supply = (None, [noWithdraw])
     ↔ (¬ carrying ∨ is_Some (transferTarget this))
       ∧ withdrawTargets this (queenCarry (supplyFill this queen)) = [])
  ∧ (supply.2 ≠ [] → supply = (None, [noTransfer]) ∨ supply = (None, [noWithdraw]))
  ∧ (withdraw = (None, [noTransfer]) ↔ transferTarget this = None)
  ∧ (withdraw.1 = None ∨ withdraw.2 ≠ [] → withdraw = (None, [noTransfer]))
  ∧ (withdrawFlush this queen = inr noTransfer
     ↔ carrying ∧ transferTarget this = None)
  ∧ (∀ built,
       (anyRequest (TransportRequestGroup.withdrawByID requests) (assigned this queen) = true
        ∧ built = withdraw)
       ∨ (anyRequest (TransportRequestGroup.withdrawByID requests) (assigned this queen) = false
          ∧ anyRequest (TransportRequestGroup.supplyByID requests) (assigned this queen) = true
          ∧ built = supply) →
       built.1 = None →
       ∃ queen' warnings spot,
         handleQueen getPosFromBunkerCoord distance bunkerChargingSpots isValid this queen
         = (queen', map LogWarning warnings ++ [GoTo (Zerg.name queen) spot 0])
         ∧ Zerg.task queen' = None
         ∧ isIdle isValid queen' = true).
Proof.
  intros carrying noTransfer noWithdraw supply withdraw requests.
  split; [|split; [|split; [|split; [|split; [|split; [|split; [|split; [|split]]]]]]]].
  - unfold transferTarget.
    by destruct (Colony.terminal (colony this)), (Colony.storage (colony this)).
  - intros manifest Hm. unfold carrying.
    destruct (buildSupply_cases distance this queen)
      as [(_ & _ & Hb)|[(_ & _ & Hb)|(flush & source & Hflush & _ & Hb)]];
      fold supply in Hb; rewrite Hb in Hm; [done|done|].
    cbn [fst] in Hm. apply chain_Some in Hm as [_ ->].
    assert (Hrest : flushTargets
              (map (λ r, Withdraw source r
                           (carryGet (queenCarry (supplyFill this queen)) r))
                   (carryKeys (queenCarry (supplyFill this queen)))
               ++ pushed (supplyFill this queen)) = []).
    { rewrite flushTargets_app, flushTargets_of_carry.
      apply flushTargets_deliveries, supplyFill_deliveries. }
    destruct Hflush as [[Hle ->]|(Hpos & target & Ht & ->)].
    + split; [lia|]. intros _. exact Hrest.
    + split; [|intros Hn; by destruct Hn]. intros _. eauto.
  - intros manifest Hm. unfold carrying.
    destruct (buildWithdraw_cases this queen)
      as [[_ Hb]|(target & ws & Ht & Hws & Hb)];
      fold withdraw in Hb; rewrite Hb in Hm; [done|].
    cbn [fst] in Hm. injection Hm as <-.
    exists target. split; [done|]. split.
    { by rewrite !app_assoc, last_snoc. }
    rewrite !flushTargets_app, (flushTargets_withdrawals ws) by done.
    destruct (Z.ltb_spec 0 (sumValues (Zerg.carry queen))) as [Hpos|Hle].
    + split; [done|]. intros Hn. by destruct Hn.
    + split; [lia|done].
  - apply buildSupply_flush_abort.
  - unfold carrying.
    destruct (buildSupply_cases distance this queen)
      as [(Hpos & Hnone & Hb)|[(Hgo & Hnil & Hb)|(flush & source & _ & Hin & Hb)]];
      fold supply in Hb; rewrite Hb.
    + split; [done|]. intros [[Hn|[t Ht]] _]; [lia|congruence].
    + split; [|done]. intros _. split; [|done].
      destruct Hgo as [Hle|Hsome]; [left; lia|by right].
    + split; [by destruct (Tasks.chain _)|].
      intros [_ Hnil]. rewrite Hnil in Hin. by apply elem_of_nil in Hin.
  - destruct (buildSupply_cases distance this queen)
      as [(_ & _ & Hb)|[(_ & _ & Hb)|(flush & source & _ & _ & Hb)]];
      fold supply in Hb; rewrite Hb; [by left|by right|done].
  - destruct (buildWithdraw_abort this queen) as [Hnone Hsome]. split; [|done].
    intros Hb. destruct (transferTarget this) as [target|]; [|done].
    destruct (Hsome target eq_refl) as [manifest Hm]. unfold withdraw in Hb. congruence.
  - destruct (buildWithdraw_abort this queen) as [Hnone Hsome].
    destruct (transferTarget this) as [target|]; [|by intros _; apply Hnone].
    destruct (Hsome target eq_refl) as [manifest Hm]. unfold withdraw. rewrite Hm.
    by intros [?|?].
  - unfold carrying.
    destruct (withdrawFlush_cases this queen)
      as [[Hle Hf]|[[Hpos (target & Ht & Hf)]|(Hpos & Hnone & Hf)]]; rewrite Hf.
    + split; [done|lia].
    + split; [done|]. intros [_ ?]. congruence.
    + done.
  - intros built Hbuilt Hnone.
    rewrite (handleQueen_built _ _ _ _ _ _ built Hbuilt). rewrite Hnone.
    rewrite isIdle_no_task by done.
    destruct (idleActions_goTo getPosFromBunkerCoord bunkerChargingSpots this
                (Zerg.setTask queen None)) as (ws & spot & ->).
    exists (Zerg.setTask queen None), (built.2 ++ ws), spot.
    rewrite map_app, <- app_assoc. done.
Qed.

(** ** A supply build that needs nothing *)

Lemma carryAdd_nonempty (r : string) (amount : Z) (c : CarryObj) :
  carryAdd r amount c ≠ [].
Proof. destruct c as [|[k v] c]; simpl; [done|]. by case_decide. Qed.

Lemma greedySupply_empty_carry (carryCapacity : Z) (available : string → Z)
    (requests : list TransportRequest.t) (c : CarryObj) :
  (greedySupply carryCapacity available requests c).1 = [] →
  (greedySupply carryCapacity available requests c).2 = [].
Proof.
  revert c. induction requests as [|request requests IH]; intros c; simpl; [done|].
  case_decide; [done|]. case_decide; [apply IH|].
  destruct (greedySupply _ _ _ _) as [carry deliveries] eqn:Hg. simpl. intros ->.
  pose proof (f_equal fst Hg) as Hc. simpl in Hc.
  exfalso. clear -Hc.
  revert Hc. generalize (carryAdd (TransportRequest.resourceType request)
    (Z.min (TransportRequest.amount request)
       (Z.min (carryCapacity - sumCarry c)
          (available (TransportRequest.resourceType request)))) c)
    (carryAdd_nonempty (TransportRequest.resourceType request)
    (Z.min (TransportRequest.amount request)
       (Z.min (carryCapacity - sumCarry c)
          (available (TransportRequest.resourceType request)))) c).
  clear. intros c'. revert c'.
  induction requests as [|request requests IH]; intros c' Hne; simpl; [done|].
  case_decide; [done|]. case_decide; [by apply IH|].
  destruct (greedySupply _ _ _ (carryAdd _ _ c')) as [carry deliveries] eqn:Hg.
  simpl. intros ->.
  eapply (IH _ (carryAdd_nonempty _ _ c')). by rewrite Hg.
Qed.

Lemma supplyFill_empty_carry (this : Overlord) (queen : Zerg.t) :
  queenCarry (supplyFill this queen) = [] → pushed (supplyFill this queen) = [].
Proof.
  destruct (supply_fold_greedy (Zerg.carryCapacity queen) (allStore this)
              (availability (storeStructures this)) (supplyRequests this queen)
              (mergeSum_lookup _) (mkFill [] [] false) eq_refl) as [H1 H2].
  unfold supplyFill. rewrite H1, H2. simpl. apply greedySupply_empty_carry.
Qed.

Lemma withdrawTargets_empty_carry (this : Overlord) :
  withdrawTargets this [] = storeStructures this.
Proof.
  unfold withdrawTargets, coversCarry. simpl.
  induction (storeStructures this) as [|s l IH]; simpl; [done|]. by rewrite IH.
Qed.

Lemma constructor_transferTarget
    (getPosFromBunkerCoord : Coord → RoomPosition.t)
    (lookForStructures : RoomPosition.t → list Structure.t)
    (insideBunkerBounds : RoomPosition.t → bool)
    (quadrantFillOrder : Quadrants Coord)
    (colony : Colony.t) (zerg : list Zerg.t) :
  let this := constructor getPosFromBunkerCoord lookForStructures insideBunkerBounds
                          quadrantFillOrder colony zerg in
  transferTarget this = head (storeStructures this).
Proof.
  unfold transferTarget, constructor, compact. simpl.
  destruct (Colony.terminal colony), (Colony.storage colony); simpl; try done.
  by destruct (List.filter _ _).
Qed.

Lemma planned_nothing (this : Overlord) (queen : Zerg.t)
    (flush : list Task) (source : Structure.t) :
  let carry := queenCarry (supplyFill this queen) in
  flush ++ map (λ r, Withdraw source r (carryGet carry r)) (carryKeys carry)
  ++ pushed (supplyFill this queen) = []
  ↔ flush = [] ∧ carry = [].
Proof.
  intros carry. split.
  - intros H. apply app_eq_nil in H as [-> H]. apply app_eq_nil in H as [H _].
    split; [done|]. subst carry. by destruct (queenCarry (supplyFill this queen)).
  - intros [-> Hc]. rewrite (supplyFill_empty_carry _ _ Hc). subst carry.
    by rewrite Hc.
Qed.

(** C10 (amended).  When the greedy fill of the supply path leaves the
    simulated carry empty, every store structure passes the check of the
    source.  With at least one store structure (terminal, storage or a
    container inside the bunker) the operations planned are the carry flush
    alone, no withdrawal and no delivery: a queen that carries something gets
    the manifest made of that one flush, and a queen that carries nothing
    gets no manifest, there being no operation to chain, and no warning.
    The build stops with the no-withdraw-target warning exactly when there is
    no store structure and the queen carries nothing; without a store
    structure a queen that carries something is stopped at the flush, with
    the no-transfer-target warning. *)
Theorem supply_without_needs
    (getPosFromBunkerCoord : Coord → RoomPosition.t)
    (lookForStructures : RoomPosition.t → list Structure.t)
    (insideBunkerBounds : RoomPosition.t → bool)
    (distance : RoomPosition.t → RoomPosition.t → Z)
    (quadrantFillOrder : Quadrants Coord)
    (colony : Colony.t) (zerg : list Zerg.t) (queen : Zerg.t) :
  let this := constructor getPosFromBunkerCoord lookForStructures insideBunkerBounds
                          quadrantFillOrder colony zerg in
  let built := buildSupplyTaskManifest distance this queen in
  queenCarry (supplyFill this queen) = [] →
  storeStructures this
  = compact ([Colony.terminal colony; Colony.storage colony]
             ++ map Some (List.filter (λ container, insideBunkerBounds (Structure.pos container))
                                      (Colony.containers colony)))
  ∧ withdrawTargets this (queenCarry (supplyFill this queen)) = storeStructures this
  ∧ (storeStructures this ≠ [] →
     ((0 < sumValues (Zerg.carry queen))%Z →
      ∃ target,
        transferTarget this = Some target ∧ built = (Some [TransferAll target], []))
     ∧ ((sumValues (Zerg.carry queen) ≤ 0)%Z → built = (None, [])))
  ∧ (built = (None, [NoWithdrawTarget (Zerg.name queen) (Zerg.pos queen)])
     ↔ storeStructures this = [] ∧ (sumValues (Zerg.carry queen) ≤ 0)%Z)
  ∧ (storeStructures this = [] → (0 < sumValues (Zerg.carry queen))%Z →
     built = (None, [NoTransferTargets (Zerg.name queen) (Zerg.pos queen)])).
Proof.
  intros this built Hcarry.
  assert (Htargets : withdrawTargets this (queenCarry (supplyFill this queen))
                     = storeStructures this).
  { rewrite Hcarry. apply withdrawTargets_empty_carry. }
  assert (Hhead : transferTarget this = head (storeStructures this))
    by apply constructor_transferTarget.
  split; [done|]. split; [done|].
  destruct (buildSupply_cases distance this queen)
    as [(Hpos & Hnone & Hb)|[(Hgo & Hnil & Hb)|(flush & source & Hflush & Hin & Hb)]];
    fold built in Hb; rewrite Hb.
  - rewrite Hhead in Hnone.
    assert (Hno : storeStructures this = [])
      by (by destruct (storeStructures this)).
    split; [done|]. split; [|done]. split; [done|]. intros [_ ?]. lia.
  - rewrite Htargets in Hnil.
    assert (Hle : (sumValues (Zerg.carry queen) ≤ 0)%Z).
    { destruct Hgo as [?|[t Ht]]; [done|]. by rewrite Hhead, Hnil in Ht. }
    split; [done|]. split; [done|]. intros _ ?. lia.
  - rewrite Htargets in Hin.
    assert (Hne : storeStructures this ≠ [])
      by (intros Hnil; rewrite Hnil in Hin; by apply elem_of_nil in Hin).
    rewrite (supplyFill_empty_carry _ _ Hcarry), Hcarry. cbn [carryKeys map fmap list_fmap].
    rewrite !app_nil_r.
    destruct Hflush as [[Hle ->]|(Hpos & target & Ht & ->)].
    + split; [|split; [|done]].
      * intros _. split; [lia|done].
      * split; [done|]. by intros [? _].
    + split; [|split; [|done]].
      * intros _. split; [|lia]. intros _. exists target. done.
      * split; [done|]. by intros [? _].
Qed.

(** ** The closest charging spot *)

Lemma closer_fold (from : RoomPosition.t) (candidates : list RoomPosition.t) :
  ∀ acc : option (RoomPosition.t * Z),
    (∀ a ra, acc = Some (a, ra) → RoomPosition.getRangeTo from a = Some ra) →
    match foldl (RoomPosition.closer from) acc candidates with
    | Some (c, r) =>
        (acc = Some (c, r) ∨ c ∈ candidates)
        ∧ RoomPosition.getRangeTo from c = Some r
        ∧ (∀ a ra, acc = Some (a, ra) → (r ≤ ra)%Z)
        ∧ (∀ c' r', c' ∈ candidates → RoomPosition.getRangeTo from c' = Some r' → (r ≤ r')%Z)
    | None =>
        acc = None ∧ ∀ c', c' ∈ candidates → RoomPosition.getRangeTo from c' = None
    end.
Proof.
  induction candidates as [|c0 candidates IH]; intros acc Hacc.
  - simpl. destruct acc as [[a ra]|].
    + split; [by left|]. split; [by apply Hacc|]. split.
      * intros ? ? [= <- <-]. lia.
      * intros c' r' Hin. by apply elem_of_nil in Hin.
    + split; [done|]. intros c' Hin. by apply elem_of_nil in Hin.
  - cbn [foldl].
    assert (Hacc' : ∀ a ra, RoomPosition.closer from acc c0 = Some (a, ra) →
                            RoomPosition.getRangeTo from a = Some ra).
    { intros a ra. unfold RoomPosition.closer.
      destruct (RoomPosition.getRangeTo from c0) as [r0|] eqn:Hr0; [|by apply Hacc].
      destruct acc as [[b rb]|]; [|by intros [= <- <-]].
      destruct (r0 <? rb)%Z; [by intros [= <- <-]|by apply Hacc]. }
    specialize (IH _ Hacc').
    destruct (foldl _ _ candidates) as [[c r]|].
    + destruct IH as (Hfrom & Hr & Hle & Hall). split; [|split; [done|split]].
      * destruct Hfrom as [Hstep|Hin]; [|right; set_solver].
        unfold RoomPosition.closer in Hstep.
        destruct (RoomPosition.getRangeTo from c0) as [r0|]; [|by left].
        destruct acc as [[b rb]|]; [|simplify_eq; right; set_solver].
        destruct (r0 <? rb)%Z; [simplify_eq; right; set_solver|by left].
      * intros a ra ->. unfold RoomPosition.closer in Hle.
        destruct (RoomPosition.getRangeTo from c0) as [r0|]; [|by eapply Hle].
        destruct (Z.ltb_spec r0 ra) as [Hlt|Hge]; [|by eapply Hle].
        specialize (Hle _ _ eq_refl). lia.
      * intros c' r' Hin Hr'. apply elem_of_cons in Hin as [->|Hin]; [|by eapply Hall].
        unfold RoomPosition.closer in Hle. rewrite Hr' in Hle.
        destruct acc as [[b rb]|]; [|by eapply Hle].
        destruct (Z.ltb_spec r' rb) as [Hlt|Hge]; [by eapply Hle|].
        specialize (Hle _ _ eq_refl). lia.
    + destruct IH as [Hnone Hall].
      unfold RoomPosition.closer in Hnone.
      destruct (RoomPosition.getRangeTo from c0) as [r0|] eqn:Hr0.
      * destruct acc as [[b rb]|]; [|done]. by destruct (r0 <? rb)%Z.
      * split; [done|]. intros c' Hin.
        apply elem_of_cons in Hin as [->|Hin]; [done|by apply Hall].
Qed.

Lemma findClosestByRange_spec (from : RoomPosition.t) (candidates : list RoomPosition.t) :
  match RoomPosition.findClosestByRange from candidates with
  | Some c =>
      c ∈ candidates
      ∧ ∃ r, RoomPosition.getRangeTo from c = Some r
             ∧ ∀ c' r', c' ∈ candidates →
                        RoomPosition.getRangeTo from c' = Some r' → (r ≤ r')%Z
  | None => ∀ c', c' ∈ candidates → RoomPosition.getRangeTo from c' = None
  end.
Proof.
  unfold RoomPosition.findClosestByRange.
  pose proof (closer_fold from candidates None ltac:(done)) as H.
  destruct (foldl _ _ candidates) as [[c r]|]; simpl.
  - destruct H as ([?|Hin] & Hr & _ & Hall); [done|]. split; [done|]. eauto.
  - by destruct H.
Qed.

(** C8.  The idle handler only sends the queen somewhere: besides warnings
    it produces one move, with range 0.  The destination is the charging
    spot closest by range to the first structure of the queen's assignment
    (to the queen itself when the assignment is empty); when no charging
    spot can be found the destination is the queen's own position and a
    warning is logged, the move being made all the same. *)
Theorem idle_routes_to_charging_spot
    (getPosFromBunkerCoord : Coord → RoomPosition.t)
    (bunkerChargingSpots : list Coord)
    (this : Overlord) (queen : Zerg.t) :
  let chargeSpots := map getPosFromBunkerCoord bunkerChargingSpots in
  let from := match head (assigned this queen) with
              | Some structure => Structure.pos structure
              | None => Zerg.pos queen
              end in
  let spot := (getChargingSpot getPosFromBunkerCoord bunkerChargingSpots this queen).1 in
  let warnings := (getChargingSpot getPosFromBunkerCoord bunkerChargingSpots this queen).2 in
  idleActions getPosFromBunkerCoord bunkerChargingSpots this queen
  = map LogWarning warnings ++ [GoTo (Zerg.name queen) spot 0]
  ∧ ((∃ r, spot ∈ chargeSpots ∧ warnings = []
           ∧ RoomPosition.getRangeTo from spot = Some r
           ∧ ∀ c' r', c' ∈ chargeSpots →
                      RoomPosition.getRangeTo from c' = Some r' → (r ≤ r')%Z)
     ∨ (spot = Zerg.pos queen
        ∧ warnings = [NoChargingSpot (Zerg.pos queen)]
        ∧ ∀ c', c' ∈ chargeSpots → RoomPosition.getRangeTo from c' = None)).
Proof.
  intros chargeSpots from spot warnings. split.
  - unfold idleActions. subst spot warnings.
    by destruct (getChargingSpot _ _ _ _).
  - subst spot warnings. unfold getChargingSpot. fold chargeSpots from.
    pose proof (findClosestByRange_spec from chargeSpots) as H.
    destruct (RoomPosition.findClosestByRange from chargeSpots) as [c|]; simpl.
    + left. destruct H as (Hin & r & Hr & Hall). eauto 10.
    + right. done.
Qed.

(** ** The cycle loop *)

Section Run.
Variable getPosFromBunkerCoord : Coord → RoomPosition.t.
Variable distance : RoomPosition.t → RoomPosition.t → Z.
Variable bunkerChargingSpots : list Coord.
Variable isValid : list Task → bool.

Lemma run_fold (this : Overlord) (queens : list Zerg.t) :
  ∀ acc : list Zerg.t * list Effect,
    foldl (λ acc queen,
             let '(queen', log) := runQueen getPosFromBunkerCoord distance bunkerChargingSpots isValid this queen in
             (acc.1 ++ [queen'], acc.2 ++ log)) acc queens
    = (acc.1 ++ map (λ queen, (runQueen getPosFromBunkerCoord distance bunkerChargingSpots isValid this queen).1) queens,
       acc.2 ++ concat (map (λ queen, (runQueen getPosFromBunkerCoord distance bunkerChargingSpots isValid this queen).2) queens)).
Proof.
  induction queens as [|queen queens IH]; intros [done log]; simpl.
  - by rewrite !app_nil_r.
  - rewrite IH. destruct (runQueen getPosFromBunkerCoord distance bunkerChargingSpots isValid this queen) as [queen' log'].
    simpl. by rewrite <- !app_assoc.
Qed.

Lemma run_in_order (this : Overlord) :
  run getPosFromBunkerCoord distance bunkerChargingSpots isValid this = (map (λ queen, (runQueen getPosFromBunkerCoord distance bunkerChargingSpots isValid this queen).1) (queens this),
              concat (map (λ queen, (runQueen getPosFromBunkerCoord distance bunkerChargingSpots isValid this queen).2) (queens this))).
Proof. unfold run. by rewrite run_fold. Qed.
End Run.

(** C7.  The cycle handles the queens one after the other in the order of
    their names.  A queen that is not idle only runs its task.  An idle queen
    gets the withdraw manifest when a structure of its assignment has an
    entry of removal requests, else the supply manifest when one has an entry
    of delivery requests, else keeps what it has; if it is idle after that
    (always so when the build returned no manifest) the idle handler runs;
    then the queen runs its task. *)
Theorem dispatcher_cycle
    (getPosFromBunkerCoord : Coord → RoomPosition.t)
    (lookForStructures : RoomPosition.t → list Structure.t)
    (insideBunkerBounds : RoomPosition.t → bool)
    (distance : RoomPosition.t → RoomPosition.t → Z)
    (quadrantFillOrder : Quadrants Coord)
    (bunkerChargingSpots : list Coord) (isValid : list Task → bool)
    (colony : Colony.t) (zerg : list Zerg.t) :
  let this := constructor getPosFromBunkerCoord lookForStructures insideBunkerBounds
                          quadrantFillOrder colony zerg in
  let handle := runQueen getPosFromBunkerCoord distance bunkerChargingSpots isValid this in
  let routeIdle := idleActions getPosFromBunkerCoord bunkerChargingSpots this in
  let requests := Colony.transportRequests colony in
  let pending (byID : gmap string (list TransportRequest.t)) (queen : Zerg.t) :=
    ∃ struc, struc ∈ assigned this queen ∧ is_Some (byID !! Structure.id struc) in
  Sorted String.le (Zerg.name <$> queens this)
  ∧ run getPosFromBunkerCoord distance bunkerChargingSpots isValid this
    = (map (λ queen, (handle queen).1) (queens this),
       concat (map (λ queen, (handle queen).2) (queens this)))
  ∧ ∀ queen,
      (isIdle isValid queen = false →
       handle queen = (queen, [RunTask (Zerg.name queen) (Zerg.task queen)]))
      ∧ (isIdle isValid queen = true →
         ∃ queen' warnings,
           handle queen
           = (queen',
              map LogWarning warnings
              ++ (if isIdle isValid queen' then routeIdle queen' else [])
              ++ [RunTask (Zerg.name queen) (Zerg.task queen')])
           ∧ (Zerg.task queen' = None → isIdle isValid queen' = true)
           ∧ (pending (TransportRequestGroup.withdrawByID requests) queen →
              queen' = Zerg.setTask queen (buildWithdrawTaskManifest this queen).1
              ∧ warnings = (buildWithdrawTaskManifest this queen).2)
           ∧ (¬ pending (TransportRequestGroup.withdrawByID requests) queen →
              pending (TransportRequestGroup.supplyByID requests) queen →
              queen' = Zerg.setTask queen (buildSupplyTaskManifest distance this queen).1
              ∧ warnings = (buildSupplyTaskManifest distance this queen).2)
           ∧ (¬ pending (TransportRequestGroup.withdrawByID requests) queen →
              ¬ pending (TransportRequestGroup.supplyByID requests) queen →
              queen' = queen ∧ warnings = [])).
Proof.
  intros this handle routeIdle requests pending.
  split; [apply sortBy_Sorted|]. split; [apply run_in_order|].
  intros queen. split.
  - intros Hidle. unfold handle, runQueen. by rewrite Hidle.
  - intros Hidle. unfold handle, runQueen. rewrite Hidle.
    destruct (anyRequest (TransportRequestGroup.withdrawByID requests)
                (assigned this queen)) eqn:Hw;
      [|destruct (anyRequest (TransportRequestGroup.supplyByID requests)
                    (assigned this queen)) eqn:Hs].
    + rewrite (handleQueen_built _ _ _ _ this queen (buildWithdrawTaskManifest this queen))
        by (left; done).
      eexists _, _. split; [by rewrite <- app_assoc|].
      split; [apply isIdle_no_task|]. split; [done|].
      apply anyRequest_spec in Hw. split; [tauto|]. intros Hnw. by destruct Hnw.
    + rewrite (handleQueen_built _ _ _ _ this queen
                 (buildSupplyTaskManifest distance this queen)) by (right; done).
      eexists _, _. split; [by rewrite <- app_assoc|].
      split; [apply isIdle_no_task|].
      apply anyRequest_spec in Hs.
      assert (Hnw : ¬ pending (TransportRequestGroup.withdrawByID requests) queen).
      { intros H. apply anyRequest_spec in H. congruence. }
      split; [tauto|]. split; [done|]. tauto.
    + rewrite handleQueen_no_request by done.
      exists queen, []. split; [done|].
      split; [apply isIdle_no_task|].
      assert (Hnw : ¬ pending (TransportRequestGroup.withdrawByID requests) queen).
      { intros H. apply anyRequest_spec in H. congruence. }
      assert (Hns : ¬ pending (TransportRequestGroup.supplyByID requests) queen).
      { intros H. apply anyRequest_spec in H. congruence. }
      split; [tauto|]. split; [tauto|]. done.
Qed.

(** ** The statements on the sample colony *)

Lemma zone_assignment_round_robin_witness :
  assignments SampleColony.this !! "queen_a" = Some [Sample.extension; Sample.tower]
  ∧ assignments SampleColony.this !! "queen_b" = Some [Sample.lab; Sample.spawn]
  ∧ assignments SampleColony.this !! "queen_c" = Some [].
Proof.
  assert (Hnd : NoDup (Zerg.name <$> SampleColony.zerg)).
  { apply (bool_decide_unpack _). vm_compute. reflexivity. }
  destruct (zone_assignment_round_robin Sample.getPos Sample.lookFor
              SampleColony.insideBounds Sample.fillOrder SampleColony.colony
              SampleColony.zerg Hnd) as (_ & _ & _ & _ & Hspawning & Htwo).
  destruct (Htwo SampleColony.queen_a SampleColony.queen_b eq_refl) as [Ha Hb].
  split; [exact Ha|]. split; [exact Hb|].
  apply (Hspawning SampleColony.queen_c); [|reflexivity].
  apply (bool_decide_unpack _). vm_compute. reflexivity.
Defined.


Lemma manifest_chain_order_witness :
  ∃ flush withdrawals target,
    [Withdraw Sample.lab "OH" 15%Z; TransferAll Sample.storage]
    = flush ++ withdrawals ++ [TransferAll target]
    ∧ (flush = [] ∨ flush = [TransferAll target])
    ∧ transferTarget SampleColony.this = Some target
    ∧ Forall (λ t, isWithdraw t = true) withdrawals.
Proof.
  exact (proj1 (proj2 (manifest_chain_order SampleColony.distance SampleColony.this
                         SampleColony.queen_b))
               [Withdraw Sample.lab "OH" 15%Z; TransferAll Sample.storage] [] eq_refl).
Defined.

Lemma carry_flush_fallback_witness :
  (∃ target rest,
     transferTarget SampleColony.this = Some target
     ∧ [TransferAll Sample.storage; Withdraw Sample.storage "energy" 100%Z;
        Transfer Sample.extension "energy" 30%Z; Transfer Sample.tower "energy" 70%Z]
       = TransferAll target :: rest
     ∧ flushTargets rest = [])
  ∧ buildSupplyTaskManifest SampleColony.distance
      (Scenario.overlord Scenario.noStore Scenario.loaded) Scenario.loaded
    = (None, [NoTransferTargets "queen" (Sample.at_ 1 1)]).
Proof.
  split.
  - refine (proj1 (proj1 (proj2
      (carry_flush_fallback Sample.getPos SampleColony.distance SampleColony.chargingSpots
         (λ _, true) SampleColony.this SampleColony.queen_a)) _ _) _).
    + vm_compute. reflexivity.
    + vm_compute. reflexivity.
  - refine (proj2 (proj1 (proj2 (proj2 (proj2
      (carry_flush_fallback Sample.getPos SampleColony.distance SampleColony.chargingSpots
         (λ _, true) (Scenario.overlord Scenario.noStore Scenario.loaded)
         Scenario.loaded))))) _).
    split; [vm_compute; reflexivity|reflexivity].
Defined.

(** C6, as stated, fails: with its energy split over two stores the supply
    build stops at the choice of the source, with no manifest and a warning,
    for a queen that carries nothing and has a fallback store. *)
Lemma split_stock_aborts_supply :
  sumValues (Zerg.carry Scenario.queen) = 0%Z
  ∧ transferTarget (Scenario.overlord Scenario.splitStock Scenario.queen)
    = Some Scenario.halfA
  ∧ buildSupplyTaskManifest SampleColony.distance
      (Scenario.overlord Scenario.splitStock Scenario.queen) Scenario.queen
    = (None, [NoWithdrawTarget "queen" (Sample.at_ 1 1)])
  ∧ ¬ supply_aborts_only_at_flush SampleColony.distance
        (Scenario.overlord Scenario.splitStock Scenario.queen) Scenario.queen.
Proof.
  split; [vm_compute; reflexivity|]. split; [vm_compute; reflexivity|].
  split; [vm_compute; reflexivity|].
  intros [Habort _]. destruct Habort as [_ Hnone].
  - eexists. vm_compute. reflexivity.
  - vm_compute in Hnone. discriminate.
Qed.

Lemma dispatcher_cycle_witness :
  ∃ queen' warnings,
    runQueen Sample.getPos SampleColony.distance SampleColony.chargingSpots (λ _, true)
             SampleColony.this SampleColony.queen_b
    = (queen',
       map LogWarning warnings
       ++ (if isIdle (λ _, true) queen'
           then idleActions Sample.getPos SampleColony.chargingSpots SampleColony.this queen'
           else [])
       ++ [RunTask "queen_b" (Zerg.task queen')])
    ∧ queen' = Zerg.setTask SampleColony.queen_b
                 (buildWithdrawTaskManifest SampleColony.this SampleColony.queen_b).1.
Proof.
  destruct (dispatcher_cycle Sample.getPos Sample.lookFor SampleColony.insideBounds
              SampleColony.distance Sample.fillOrder SampleColony.chargingSpots
              (λ _, true) SampleColony.colony SampleColony.zerg) as (_ & _ & H).
  destruct (proj2 (H SampleColony.queen_b) eq_refl)
    as (queen' & warnings & Hrun & _ & Hwithdraw & _).
  exists queen', warnings. split; [exact Hrun|].
  apply Hwithdraw. exists Sample.lab. split.
  - apply (bool_decide_unpack _). vm_compute. reflexivity.
  - vm_compute. eauto.
Defined.

Lemma supply_without_needs_witness :
  anyRequest (TransportRequestGroup.supplyByID (Colony.transportRequests Scenario.noMineral))
             (assigned (Scenario.overlord Scenario.noMineral Scenario.loaded) Scenario.loaded)
  = true
  ∧ ∃ target,
      transferTarget (Scenario.overlord Scenario.noMineral Scenario.loaded) = Some target
      ∧ buildSupplyTaskManifest SampleColony.distance
          (Scenario.overlord Scenario.noMineral Scenario.loaded) Scenario.loaded
        = (Some [TransferAll target], []).
Proof.
  split; [vm_compute; reflexivity|].
  destruct (supply_without_needs Sample.getPos Sample.lookFor SampleColony.insideBounds
              SampleColony.distance Sample.fillOrder Scenario.noMineral [Scenario.loaded]
              Scenario.loaded eq_refl) as (_ & _ & H & _).
  apply H.
  - vm_compute. discriminate.
  - vm_compute. reflexivity.
Defined.

(** C10, as stated, fails: a lab asks for a mineral that the one store does
    not hold, so the dispatcher calls the supply build and the simulated
    carry stays empty; the queen carries nothing, no operation is planned,
    and the build returns no manifest, without a warning. *)
Lemma missing_mineral_yields_no_manifest :
  anyRequest (TransportRequestGroup.supplyByID (Colony.transportRequests Scenario.noMineral))
             (assigned (Scenario.overlord Scenario.noMineral Scenario.queen) Scenario.queen)
  = true
  ∧ queenCarry (supplyFill (Scenario.overlord Scenario.noMineral Scenario.queen)
                           Scenario.queen) = []
  ∧ storeStructures (Scenario.overlord Scenario.noMineral Scenario.queen)
    = [Scenario.energyStore]
  ∧ buildSupplyTaskManifest SampleColony.distance
      (Scenario.overlord Scenario.noMineral Scenario.queen) Scenario.queen
    = (None, [])
  ∧ ¬ empty_carry_yields_manifest SampleColony.distance
        (Scenario.overlord Scenario.noMineral Scenario.queen) Scenario.queen.
Proof.
  split; [vm_compute; reflexivity|]. split; [vm_compute; reflexivity|].
  split; [vm_compute; reflexivity|]. split; [vm_compute; reflexivity|].
  intros Hclaim. destruct Hclaim as (manifest & Hb & _).
  - vm_compute. reflexivity.
  - vm_compute. discriminate.
  - vm_compute in Hb. discriminate.
Qed.

(** ** The scenarios of the specification *)

Example scenario_capped_at_capacity :
  buildSupplyTaskManifest SampleColony.distance
    (Scenario.overlord Scenario.bigRequest Scenario.queen) Scenario.queen
  = (Some [Withdraw (Structure.mk "store" STRUCTURE_STORAGE (Sample.at_ 5 5)
                                  {[ "energy" := 200%Z ]}) "energy" 50%Z;
           Transfer Sample.extension "energy" 50%Z], []).
Proof. vm_compute. reflexivity. Qed.

Example scenario_all_or_nothing :
  buildSupplyTaskManifest SampleColony.distance
    (Scenario.overlord Scenario.twoStores Scenario.queen) Scenario.queen
  = (Some [Withdraw Scenario.storeB "energy" 30%Z; Withdraw Scenario.storeB "H" 10%Z;
           Transfer Sample.extension "energy" 30%Z; Transfer Sample.lab "H" 10%Z], []).
Proof. vm_compute. reflexivity. Qed.

Example scenario_no_store :
  runQueen Sample.getPos SampleColony.distance SampleColony.chargingSpots (λ _, true)
    (Scenario.overlord Scenario.noStore Scenario.loaded) Scenario.loaded
  = (Scenario.loaded,
     [LogWarning (NoTransferTargets "queen" (Sample.at_ 1 1));
      GoTo "queen" (Sample.at_ 4 6) 0%Z;
      RunTask "queen" None]).
Proof. vm_compute. reflexivity. Qed.

Example scenario_two_queens :
  (assignments SampleColony.this !! "queen_a", assignments SampleColony.this !! "queen_b")
  = (Some [Sample.extension; Sample.tower], Some [Sample.lab; Sample.spawn]).
Proof. vm_compute. reflexivity. Qed.

(** * Further properties of the overlord *)

(** ** Quadrants follow the fill order *)

Lemma omap_found_sublist
    (getPosFromBunkerCoord : Coord → RoomPosition.t)
    (lookForStructures : RoomPosition.t → list Structure.t)
    (quadrant : list Coord) :
  (∀ tile s, s ∈ lookForStructures tile → Structure.pos s = tile) →
Structure.pos <$> omap (λ c, supplyStructureAt lookForStructures (getPosFromBunkerCoord c))
                         quadrant
  `sublist_of` getPosFromBunkerCoord <$> quadrant.
Proof.
  intros Htile. induction quadrant as [|c quadrant IH]; simpl; [constructor|].
  destruct (supplyStructureAt _ _) as [s|] eqn:Hf; simpl.
  - apply found_supply in Hf as [_ Hin]. rewrite (Htile _ _ Hin).
    by apply sublist_skip.
  - by apply sublist_cons.
Qed.

(** X1.  A quadrant's structure list follows the fill order of its
    coordinates: the tiles of its structures are a subsequence of the tiles
    of the coordinates, so it holds at most one structure per coordinate;
    and the list of a concatenation of coordinate lists is the concatenation
    of the lists. *)
Theorem computeQuadrant_follows_fill_order
    (getPosFromBunkerCoord : Coord → RoomPosition.t)
    (lookForStructures : RoomPosition.t → list Structure.t) :
  (∀ tile s, s ∈ lookForStructures tile → Structure.pos s = tile) →
  ∀ quadrant more,
Structure.pos <$> computeQuadrant getPosFromBunkerCoord lookForStructures quadrant
    `sublist_of` getPosFromBunkerCoord <$> quadrant
    ∧ length (computeQuadrant getPosFromBunkerCoord lookForStructures quadrant)
      ≤ length quadrant
    ∧ computeQuadrant getPosFromBunkerCoord lookForStructures (quadrant ++ more)
      = computeQuadrant getPosFromBunkerCoord lookForStructures quadrant
        ++ computeQuadrant getPosFromBunkerCoord lookForStructures more.
Proof.
  intros Htile quadrant more.
  pose proof (omap_found_sublist getPosFromBunkerCoord lookForStructures quadrant Htile)
    as Hsub.
  rewrite !computeQuadrant_omap. split; [done|]. split.
  - apply sublist_length in Hsub. by rewrite !length_fmap in Hsub.
  - apply omap_app.
Qed.

Lemma computeQuadrant_follows_fill_order_witness :
  length (computeQuadrant Sample.getPos Sample.lookFor (lowerRight Sample.fillOrder)) ≤ 2.
Proof.
  refine (proj1 (proj2 (computeQuadrant_follows_fill_order Sample.getPos Sample.lookFor _
                          (lowerRight Sample.fillOrder) []))).
  intros tile s Hin. unfold Sample.lookFor in Hin.
  apply list_elem_of_In, filter_In in Hin as [_ Hin].
  by apply bool_decide_eq_true in Hin.
Defined.

(** ** More on the assignment of zones *)

Lemma active_names_subset (queens : list Zerg.t) (agent : string) :
  agent ∈ Zerg.name <$> List.filter (λ queen, negb (Zerg.spawning queen)) queens →
  agent ∈ Zerg.name <$> queens.
Proof.
  intros Hin. apply list_elem_of_fmap_1 in Hin as (q & -> & Hq).
  apply list_elem_of_fmap_2, list_elem_of_In.
  apply list_elem_of_In, filter_In in Hq. tauto.
Qed.

Lemma assign_fold_absent (active : list Zerg.t) (queen0 : Zerg.t)
    (zones : list (list Structure.t)) (agent : string) :
  active ≠ [] → agent ∉ Zerg.name <$> active →
  ∀ (m : gmap string (list Structure.t)) (i : nat),
    m !! agent = None →
    (foldl (assignStep active queen0) (m, i) zones).1 !! agent = None.
Proof.
  intros Hne Hnot. induction zones as [|zone zones IH]; intros m i Hm; simpl; [done|].
  apply IH. rewrite lookup_insert_ne; [done|].
  intros Heq. apply Hnot. rewrite <- Heq.
  eapply list_elem_of_lookup_2, nth_name_lookup.
  apply Nat.mod_upper_bound. by destruct active.
Qed.

Lemma assignQuadrants_lookup_None (queens : list Zerg.t)
    (quadrants : Quadrants Structure.t) (agent : string) :
  agent ∉ Zerg.name <$> queens → assignQuadrants queens quadrants !! agent = None.
Proof.
  intros Hnot. unfold assignQuadrants.
  assert (Hinit : foldl (λ m queen, <[Zerg.name queen := []]> m)
                        (∅ : gmap string (list Structure.t)) queens !! agent = None).
  { rewrite initial_assignments_lookup. by rewrite decide_False. }
  destruct (List.filter _ queens) as [|queen0 rest] eqn:Hact; [done|].
  apply assign_fold_absent; [done| |done].
  intros Hin. apply Hnot, active_names_subset. by rewrite Hact.
Qed.

Lemma concat_pick_none {A} (names : list string) (chosen : string) (zone : list A) :
  chosen ∉ names →
  concat ((λ agent, if decide (Some chosen = Some agent) then zone else []) <$> names) = [].
Proof.
  induction names as [|a names IH]; intros Hnot; [done|].
  rewrite fmap_cons. cbn [concat].
  rewrite IH by (intros H; apply Hnot; apply elem_of_cons; by right).
  destruct (decide (Some chosen = Some a)) as [Heq|Hne]; [|done].
  exfalso. apply Hnot. injection Heq as ->. apply elem_of_cons. by left.
Qed.

Lemma concat_pick {A} (names : list string) (chosen : string) (zone : list A) :
  NoDup names → chosen ∈ names →
  concat ((λ agent, if decide (Some chosen = Some agent) then zone else []) <$> names)
  = zone.
Proof.
  induction names as [|a names IH]; intros Hnd Hin; [by apply elem_of_nil in Hin|].
  apply NoDup_cons in Hnd as [Ha Hnd]. rewrite fmap_cons. cbn [concat].
  destruct (decide (Some chosen = Some a)) as [Heq|Hne].
  - injection Heq as ->. by rewrite concat_pick_none, app_nil_r.
  - apply elem_of_cons in Hin as [->|Hin]; [done|]. by apply IH.
Qed.

Lemma concat_fmap_app_Permutation {A B} (f g : B → list A) (l : list B) :
  concat ((λ b, f b ++ g b) <$> l) ≡ₚ concat (f <$> l) ++ concat (g <$> l).
Proof.
  induction l as [|b l IH]; simpl; [done|].
  rewrite IH, <- !app_assoc. f_equiv.
  rewrite !app_assoc. apply Permutation_app_tail, Permutation_app_comm.
Qed.

Lemma zonesOf_concat {A} (names : list string) (zones : list (list A)) :
  NoDup names → names ≠ [] →
  ∀ i, concat ((λ agent, zonesOf names i zones agent) <$> names) ≡ₚ concat zones.
Proof.
  intros Hnd Hne. induction zones as [|zone zones IH]; intros i.
  - simpl. induction names as [|a names IHn]; [done|]. simpl.
    destruct names as [|a' names']; [done|].
    apply IHn; [by apply NoDup_cons in Hnd as [_ ?]|done].
  - cbn [zonesOf concat].
    rewrite (concat_fmap_app_Permutation
               (λ agent, if decide (names !! (i mod length names) = Some agent)
                         then zone else [])
               (λ agent, zonesOf names (S i) zones agent)).
    rewrite IH.
    destruct (lookup_lt_is_Some_2 names (i mod length names)) as [chosen Hchosen].
    { apply Nat.mod_upper_bound. by destruct names. }
    rewrite Hchosen, concat_pick; [done|done|].
    by eapply list_elem_of_lookup_2.
Qed.

Lemma assigned_constructor
    (getPosFromBunkerCoord : Coord → RoomPosition.t)
    (lookForStructures : RoomPosition.t → list Structure.t)
    (insideBunkerBounds : RoomPosition.t → bool)
    (quadrantFillOrder : Quadrants Coord)
    (colony : Colony.t) (zerg : list Zerg.t) (queen : Zerg.t) :
  let this := constructor getPosFromBunkerCoord lookForStructures insideBunkerBounds
                          quadrantFillOrder colony zerg in
  assigned this queen
  = if decide (Zerg.name queen ∈ Zerg.name <$> queens this)
    then zonesOf (Zerg.name <$> List.filter (λ queen, negb (Zerg.spawning queen))
                                            (queens this)) 0
                 [lowerRight (quadrants this); upperLeft (quadrants this);
                  lowerLeft (quadrants this); upperRight (quadrants this)]
                 (Zerg.name queen)
    else [].
Proof.
  intros this. unfold assigned. case_decide as Hin.
  - unfold this, constructor. cbn [assignments queens quadrants].
    by rewrite assignQuadrants_lookup.
  - unfold this, constructor. cbn [assignments].
    by rewrite assignQuadrants_lookup_None.
Qed.

(** X2.  With at least one active queen, and creeps of distinct names, the
    assignments of the active queens taken together hold the structures of
    the four zones, each as often as the zones do: no zone is dropped and
    none is handed out twice. *)
Theorem zones_all_assigned
    (getPosFromBunkerCoord : Coord → RoomPosition.t)
    (lookForStructures : RoomPosition.t → list Structure.t)
    (insideBunkerBounds : RoomPosition.t → bool)
    (quadrantFillOrder : Quadrants Coord)
    (colony : Colony.t) (zerg : list Zerg.t) :
  let this := constructor getPosFromBunkerCoord lookForStructures insideBunkerBounds
                          quadrantFillOrder colony zerg in
  let active := List.filter (λ queen, negb (Zerg.spawning queen)) (queens this) in
  NoDup (Zerg.name <$> zerg) → active ≠ [] →
  concat (assigned this <$> active)
  ≡ₚ lowerRight (quadrants this) ++ upperLeft (quadrants this)
     ++ lowerLeft (quadrants this) ++ upperRight (quadrants this).
Proof.
  intros this active Hnd Hne.
  assert (Hnd' : NoDup (Zerg.name <$> queens this)).
  { unfold this, constructor. cbn [queens]. by rewrite sortBy_Permutation. }
  pose proof (active_names_NoDup _ Hnd') as Hact. fold active in Hact.
  transitivity (concat ((λ agent, zonesOf (Zerg.name <$> active) 0
                  [lowerRight (quadrants this); upperLeft (quadrants this);
                   lowerLeft (quadrants this); upperRight (quadrants this)] agent)
                  <$> (Zerg.name <$> active))).
  - rewrite <- list_fmap_compose.
    assert (Heq : assigned this <$> active
                  = (λ agent, zonesOf (Zerg.name <$> active) 0
                       [lowerRight (quadrants this); upperLeft (quadrants this);
                        lowerLeft (quadrants this); upperRight (quadrants this)] agent)
                    ∘ Zerg.name <$> active).
    { apply list_eq_Forall2, Forall2_fmap, Forall_Forall2_diag, Forall_forall.
      intros queen Hin. unfold compose.
      etrans; [apply assigned_constructor|].
      fold this active. rewrite decide_True; [done|].
      apply active_names_subset. fold active. by apply list_elem_of_fmap_2. }
    by rewrite Heq.
  - rewrite zonesOf_concat; [|done|by destruct active].
    simpl. by rewrite app_nil_r.
Qed.

Lemma zones_all_assigned_witness :
  [Sample.extension; Sample.tower; Sample.lab; Sample.spawn]
  ≡ₚ lowerRight (quadrants SampleColony.this) ++ upperLeft (quadrants SampleColony.this)
     ++ lowerLeft (quadrants SampleColony.this) ++ upperRight (quadrants SampleColony.this).
Proof.
  refine (zones_all_assigned Sample.getPos Sample.lookFor SampleColony.insideBounds
            Sample.fillOrder SampleColony.colony SampleColony.zerg _ _).
  - apply (bool_decide_unpack _). vm_compute. reflexivity.
  - vm_compute. discriminate.
Defined.

(** X3.  The assignment object has an entry for exactly the names of the
    overlord's creeps, spawning or not; a creep of any other name is read as
    having nothing assigned. *)
Theorem assignments_keyed_by_creeps
    (getPosFromBunkerCoord : Coord → RoomPosition.t)
    (lookForStructures : RoomPosition.t → list Structure.t)
    (insideBunkerBounds : RoomPosition.t → bool)
    (quadrantFillOrder : Quadrants Coord)
    (colony : Colony.t) (zerg : list Zerg.t) :
  let this := constructor getPosFromBunkerCoord lookForStructures insideBunkerBounds
                          quadrantFillOrder colony zerg in
  (∀ agent, is_Some (assignments this !! agent) ↔ agent ∈ Zerg.name <$> zerg)
  ∧ (∀ queen, Zerg.name queen ∉ Zerg.name <$> zerg → assigned this queen = []).
Proof.
  intros this.
  assert (Hnames : ∀ agent, agent ∈ Zerg.name <$> queens this ↔ agent ∈ Zerg.name <$> zerg).
  { intros agent. unfold this, constructor. cbn [queens].
    by rewrite sortBy_Permutation. }
  split.
  - intros agent. rewrite <- Hnames. unfold this, constructor. cbn [assignments queens].
    destruct (decide (agent ∈ Zerg.name <$> sortBy Zerg.name zerg)) as [Hin|Hnot].
    + rewrite assignQuadrants_lookup by done. split; [done|eauto].
    + rewrite assignQuadrants_lookup_None by done. split; [|done].
      by intros [? ?].
  - intros queen Hnot. etrans; [apply assigned_constructor|].
    fold this. rewrite decide_False; [done|]. by rewrite Hnames.
Qed.

Lemma zonesOf_by_index {A} (names : list string) (zones : list (list A))
    (k : nat) (agent : string) :
  NoDup names → names !! k = Some agent →
  ∀ i, (i + length zones ≤ length names)%nat →
       zonesOf names i zones agent
       = if decide (i ≤ k)%nat then default [] (zones !! (k - i)%nat) else [].
Proof.
  intros Hnd Hk. induction zones as [|zone zones IH]; intros i Hlen.
  - simpl. by destruct (decide (i ≤ k)%nat).
  - simpl in Hlen. cbn [zonesOf]. rewrite Nat.mod_small by lia.
    rewrite IH by lia.
    destruct (decide (names !! i = Some agent)) as [Hi|Hi].
    + assert (i = k) as -> by (by eapply NoDup_lookup).
      rewrite decide_False by lia. rewrite decide_True by lia.
      rewrite Nat.sub_diag. simpl. by rewrite app_nil_r.
    + assert (k ≠ i) by congruence.
      destruct (decide (i ≤ k)%nat) as [Hle|Hgt].
      * rewrite decide_True by lia.
        replace (k - i)%nat with (S (k - S i)) by lia. done.
      * rewrite decide_False by lia. done.
Qed.

(** X4.  A single active queen is assigned all four zones, in the order
    lowerRight, upperLeft, lowerLeft, upperRight; of three active queens the
    first gets lowerRight and upperRight, the second upperLeft, the third
    lowerLeft; of four or more, the first four get one zone each, in that
    order, and every further active queen gets nothing. *)
Theorem assignment_by_head_count
    (getPosFromBunkerCoord : Coord → RoomPosition.t)
    (lookForStructures : RoomPosition.t → list Structure.t)
    (insideBunkerBounds : RoomPosition.t → bool)
    (quadrantFillOrder : Quadrants Coord)
    (colony : Colony.t) (zerg : list Zerg.t) :
  let this := constructor getPosFromBunkerCoord lookForStructures insideBunkerBounds
                          quadrantFillOrder colony zerg in
  let active := List.filter (λ queen, negb (Zerg.spawning queen)) (queens this) in
  let zones := [lowerRight (quadrants this); upperLeft (quadrants this);
                lowerLeft (quadrants this); upperRight (quadrants this)] in
  NoDup (Zerg.name <$> zerg) →
  (∀ a, active = [a] →
        assigned this a
        = lowerRight (quadrants this) ++ upperLeft (quadrants this)
          ++ lowerLeft (quadrants this) ++ upperRight (quadrants this))
  ∧ (∀ a b c, active = [a; b; c] →
        assigned this a = lowerRight (quadrants this) ++ upperRight (quadrants this)
        ∧ assigned this b = upperLeft (quadrants this)
        ∧ assigned this c = lowerLeft (quadrants this))
  ∧ (4 ≤ length active →
     ∀ k queen, active !! k = Some queen →
                assigned this queen = default [] (zones !! k)).
Proof.
  intros this active zones Hnd.
  assert (Hnd' : NoDup (Zerg.name <$> queens this)).
  { unfold this, constructor. cbn [queens]. by rewrite sortBy_Permutation. }
  pose proof (active_names_NoDup _ Hnd') as Hact. fold active in Hact.
  assert (Hassigned : ∀ queen, queen ∈ active →
            assigned this queen = zonesOf (Zerg.name <$> active) 0 zones (Zerg.name queen)).
  { intros queen Hin. etrans; [apply assigned_constructor|].
    fold this active zones. rewrite decide_True; [done|].
    apply active_names_subset. fold active. by apply list_elem_of_fmap_2. }
  split; [|split].
  - intros a Ha. rewrite Hassigned by (rewrite Ha; apply elem_of_cons; by left).
    rewrite Ha. unfold zones. simpl.
    rewrite !decide_True by done. by rewrite app_nil_r.
  - intros a b c Habc.
    rewrite Habc in Hact. simpl in Hact.
    apply NoDup_cons in Hact as [Ha Hact]. apply NoDup_cons in Hact as [Hb _].
    assert (Zerg.name a ≠ Zerg.name b ∧ Zerg.name a ≠ Zerg.name c
            ∧ Zerg.name b ≠ Zerg.name c) as (Hab & Hac & Hbc).
    { repeat split; intros Heq.
      - apply Ha. rewrite Heq. apply elem_of_cons. by left.
      - apply Ha. rewrite Heq. apply elem_of_cons. right. apply elem_of_cons. by left.
      - apply Hb. rewrite Heq. apply elem_of_cons. by left. }
    rewrite !Hassigned
      by (rewrite Habc; repeat first [apply elem_of_cons; by left | apply elem_of_cons; right]).
    rewrite Habc. unfold zones. simpl.
    repeat (case_decide; simplify_eq); by rewrite ?app_nil_r.
  - intros Hfour k queen Hk.
    rewrite Hassigned by by eapply list_elem_of_lookup_2.
    rewrite (zonesOf_by_index _ _ k (Zerg.name queen) Hact).
    + rewrite decide_True by lia. by rewrite Nat.sub_0_r.
    + rewrite list_lookup_fmap, Hk. done.
    + rewrite length_fmap. simpl. lia.
Qed.

Lemma assignment_by_head_count_witness :
  assigned (Scenario.overlord Scenario.twoStores Scenario.queen) Scenario.queen
  = [Sample.extension; Sample.lab; Sample.tower; Sample.spawn].
Proof.
  refine (proj1 (assignment_by_head_count Sample.getPos Sample.lookFor
                   SampleColony.insideBounds Sample.fillOrder Scenario.twoStores
                   [Scenario.queen] _) Scenario.queen eq_refl).
  apply (bool_decide_unpack _). vm_compute. reflexivity.
Defined.

(** ** Results of the builders *)

Lemma supply_manifest_source
    (distance : RoomPosition.t → RoomPosition.t → Z)
    (this : Overlord) (queen : Zerg.t) (manifest : list Task) (warnings : list Warning) :
  buildSupplyTaskManifest distance this queen = (Some manifest, warnings) →
  warnings = []
  ∧ ∃ flush source,
      manifest
      = flush
        ++ map (λ r, Withdraw source r (carryGet (queenCarry (supplyFill this queen)) r))
               (carryKeys (queenCarry (supplyFill this queen)))
        ++ pushed (supplyFill this queen)
      ∧ (flush = []
         ∨ ∃ target, transferTarget this = Some target ∧ flush = [TransferAll target])
      ∧ source ∈ withdrawTargets this (queenCarry (supplyFill this queen)).
Proof.
  intros Hb. unfold buildSupplyTaskManifest in Hb.
  destruct (supplyFlush this queen) as [[tasks queenPos]|warning] eqn:Hf; [|done].
  destruct (withdrawTargets this (queenCarry (supplyFill this queen)))
    as [|s0 rest] eqn:Ht; [done|].
  destruct (pickWithdrawTarget_least distance queenPos (s0 :: rest) ltac:(done))
    as (source & Hpick & Hin & _).
  rewrite Hpick in Hb. unfold Tasks.withdraw in Hb.
  pose proof (f_equal fst Hb) as Hc. cbn [fst] in Hc.
  apply chain_Some in Hc as [_ ->].
  assert (warnings = []) as -> by (by injection Hb).
  split; [done|]. exists tasks, source. split; [done|]. split; [|done].
  destruct (supplyFlush_cases this queen)
    as [[_ H]|[[_ (target & Htt & H)]|[_ [_ H]]]]; rewrite Hf in H; simplify_eq; eauto.
Qed.

(** X5.  The withdraw builder either returns a manifest and logs nothing,
    or returns no manifest and logs exactly one warning.  So does the supply
    builder, but for one case: it returns no manifest and logs nothing when,
    and only when, the queen carries nothing, the greedy fill leaves the
    simulated carry empty and there is a store structure, so that no
    operation is left to chain.  A manifest is never empty and never comes
    with a warning. *)
Theorem build_manifest_or_one_warning
    (distance : RoomPosition.t → RoomPosition.t → Z)
    (this : Overlord) (queen : Zerg.t) :
  let supply := buildSupplyTaskManifest distance this queen in
  let withdraw := buildWithdrawTaskManifest this queen in
  ((∃ manifest, supply = (Some manifest, []) ∧ manifest ≠ [])
   ∨ (∃ warning, supply = (None, [warning]))
   ∨ supply = (None, []))
  ∧ (supply = (None, [])
     ↔ (sumValues (Zerg.carry queen) ≤ 0)%Z
       ∧ queenCarry (supplyFill this queen) = []
       ∧ storeStructures this ≠ [])
  ∧ ((∃ manifest, withdraw = (Some manifest, []) ∧ manifest ≠ [])
     ∨ (∃ warning, withdraw = (None, [warning]))).
Proof.
  intros supply withdraw. split; [|split].
  - destruct (buildSupply_cases distance this queen)
      as [(_ & _ & Hb)|[(_ & _ & Hb)|(flush & source & _ & _ & Hb)]];
      fold supply in Hb; rewrite Hb; [eauto|eauto|].
    destruct (Tasks.chain _) as [manifest|] eqn:Hc; [|by right; right].
    left. exists manifest. split; [done|].
    apply chain_Some in Hc as [Hne ->]. done.
  - destruct (buildSupply_cases distance this queen)
      as [(Hpos & _ & Hb)|[(_ & Hnil & Hb)|(flush & source & Hflush & Hin & Hb)]];
      fold supply in Hb; rewrite Hb.
    + split; [done|]. intros [? _]. lia.
    + split; [done|]. intros (_ & Hc & Hne). exfalso. apply Hne.
      by rewrite <- (withdrawTargets_empty_carry this), <- Hc.
    + split.
      * intros Hnone. pose proof (f_equal fst Hnone) as Hc. cbn [fst] in Hc.
        apply chain_None, planned_nothing in Hc as [-> Hc].
        split; [|split; [done|]].
        -- destruct Hflush as [[? _]|(_ & t & _ & ?)]; [done|done].
        -- apply withdrawTargets_spec in Hin as [Hin _].
           intros Hnil. rewrite Hnil in Hin. by apply elem_of_nil in Hin.
      * intros (Hle & Hc & _).
        destruct Hflush as [[_ ->]|(Hpos & _)]; [|lia].
        assert (Hnil : Tasks.chain
                  ([] ++ map (λ r, Withdraw source r
                                     (carryGet (queenCarry (supplyFill this queen)) r))
                             (carryKeys (queenCarry (supplyFill this queen)))
                   ++ pushed (supplyFill this queen)) = None).
        { apply chain_None, planned_nothing. done. }
        by rewrite Hnil.
  - destruct (buildWithdraw_cases this queen)
      as [[_ Hb]|(target & ws & _ & _ & Hb)]; fold withdraw in Hb; rewrite Hb.
    + right. eauto.
    + left. eexists. split; [done|].
      intros Hnil. apply app_eq_nil in Hnil as [_ Hnil].
      apply app_eq_nil in Hnil as [_ Hnil]. done.
Qed.

Lemma build_manifest_or_one_warning_witness :
  buildSupplyTaskManifest SampleColony.distance
    (Scenario.overlord Scenario.noMineral Scenario.queen) Scenario.queen
  = (None, []).
Proof.
  apply (proj2 (proj1 (proj2
    (build_manifest_or_one_warning SampleColony.distance
       (Scenario.overlord Scenario.noMineral Scenario.queen) Scenario.queen)))).
  split; [vm_compute; discriminate|]. split; [vm_compute; reflexivity|].
  vm_compute. discriminate.
Defined.

(** ** What goes in comes out *)

Lemma withdrawnOf_app (r : string) (a b : list Task) :
  withdrawnOf r (a ++ b) = (withdrawnOf r a + withdrawnOf r b)%Z.
Proof.
  induction a as [|t a IH]; simpl; [done|].
  destruct t; try done. case_decide; lia.
Qed.

Lemma deliveredOf_app (r : string) (a b : list Task) :
  deliveredOf r (a ++ b) = (deliveredOf r a + deliveredOf r b)%Z.
Proof.
  induction a as [|t a IH]; simpl; [done|].
  destruct t; try done. case_decide; lia.
Qed.

Lemma withdrawnOf_deliveries (r : string) (tasks : list Task) :
  Forall (λ t, isTransfer t = true) tasks → withdrawnOf r tasks = 0%Z.
Proof. induction 1 as [|t tasks Ht _ IH]; simpl; [done|]. by destruct t. Qed.

Lemma carryGet_carryAdd (k r : string) (amount : Z) (c : CarryObj) :
  carryGet (carryAdd k amount c) r
  = (carryGet c r + if decide (k = r) then amount else 0)%Z.
Proof.
  induction c as [|[k' v] c IH]; simpl.
  - repeat case_decide; lia.
  - destruct (decide (k' = k)) as [->|Hne]; simpl.
    + repeat case_decide; try lia; congruence.
    + rewrite IH. repeat case_decide; try lia; congruence.
Qed.

Lemma carryGet_absent (c : CarryObj) (r : string) :
  r ∉ carryKeys c → carryGet c r = 0%Z.
Proof.
  intros Hnot. destruct (decide (carryGet c r = 0%Z)) as [|Hnz]; [done|].
  by apply carryGet_nonzero_key in Hnz.
Qed.

Lemma greedySupply_delivered (carryCapacity : Z) (available : string → Z)
    (requests : list TransportRequest.t) (c : CarryObj) (r : string) :
  carryGet (greedySupply carryCapacity available requests c).1 r
  = (carryGet c r + deliveredOf r (greedySupply carryCapacity available requests c).2)%Z.
Proof.
  revert c. induction requests as [|request requests IH]; intros c; simpl; [lia|].
  case_decide; [simpl; lia|]. case_decide; [apply IH|].
  specialize (IH (carryAdd (TransportRequest.resourceType request)
    (Z.min (TransportRequest.amount request)
       (Z.min (carryCapacity - sumCarry c)
          (available (TransportRequest.resourceType request)))) c)).
  destruct (greedySupply _ _ _ _) as [carry deliveries]. simpl in *.
  rewrite IH, carryGet_carryAdd. case_decide; lia.
Qed.

Lemma withdrawals_of_carry_resource (source : Structure.t) (c : CarryObj) (r : string) :
  NoDup (carryKeys c) →
  withdrawnOf r (map (λ k, Withdraw source k (carryGet c k)) (carryKeys c)) = carryGet c r
  ∧ deliveredOf r (map (λ k, Withdraw source k (carryGet c k)) (carryKeys c)) = 0%Z.
Proof.
  intros Hnd.
  assert (Hgen : ∀ keys, NoDup keys →
            withdrawnOf r (map (λ k, Withdraw source k (carryGet c k)) keys)
            = (if decide (r ∈ keys) then carryGet c r else 0%Z)
            ∧ deliveredOf r (map (λ k, Withdraw source k (carryGet c k)) keys) = 0%Z).
  { clear Hnd. intros keys Hk. induction keys as [|k keys IH]; simpl.
    - split; [|done].
      destruct (decide (r ∈ [])) as [H|?]; [by apply elem_of_nil in H|done].
    - apply NoDup_cons in Hk as [Hk Hnd]. destruct (IH Hnd) as [IHw IHd].
      split; [|done]. rewrite IHw.
      destruct (decide (k = r)) as [->|Hne].
      + rewrite decide_False by done.
        rewrite decide_True by (apply elem_of_cons; by left). lia.
      + destruct (decide (r ∈ keys)) as [Hin|Hnin].
        * by rewrite decide_True by (apply elem_of_cons; by right).
        * rewrite decide_False; [done|].
          intros H. apply elem_of_cons in H as [?|?]; congruence. }
  destruct (Hgen (carryKeys c) Hnd) as [Hw Hd]. split; [|done].
  rewrite Hw. case_decide; [done|]. by rewrite carryGet_absent.
Qed.

Lemma supplyFill_greedy (this : Overlord) (queen : Zerg.t) :
  queenCarry (supplyFill this queen)
  = (greedySupply (Zerg.carryCapacity queen) (availability (storeStructures this))
                  (supplyRequests this queen) []).1
  ∧ pushed (supplyFill this queen)
    = (greedySupply (Zerg.carryCapacity queen) (availability (storeStructures this))
                    (supplyRequests this queen) []).2.
Proof.
  destruct (supply_fold_greedy (Zerg.carryCapacity queen) (allStore this)
              (availability (storeStructures this)) (supplyRequests this queen)
              (mergeSum_lookup _) (mkFill [] [] false) eq_refl) as [H1 H2].
  by split.
Qed.

(** X6.  A supply manifest takes from the source, of every resource, exactly
    what it delivers of it: after the last delivery nothing of what was
    withdrawn is left over, and nothing is delivered that was not
    withdrawn. *)
Theorem supply_withdraws_what_it_delivers
    (distance : RoomPosition.t → RoomPosition.t → Z)
    (this : Overlord) (queen : Zerg.t) (manifest : list Task) (warnings : list Warning) :
  buildSupplyTaskManifest distance this queen = (Some manifest, warnings) →
  ∀ resource, withdrawnOf resource manifest = deliveredOf resource manifest.
Proof.
  intros Hb resource.
  destruct (supply_manifest_source _ _ _ _ _ Hb)
    as (_ & flush & source & -> & Hflush & _).
  destruct (supplyFill_greedy this queen) as [Hcarry Hpushed].
  assert (Hnd : NoDup (carryKeys (queenCarry (supplyFill this queen)))).
  { rewrite Hcarry. apply greedySupply_NoDup. constructor. }
  destruct (withdrawals_of_carry_resource source _ resource Hnd) as [Hw Hd].
  rewrite !withdrawnOf_app, !deliveredOf_app, Hw, Hd.
  rewrite (withdrawnOf_deliveries _ _ (supplyFill_deliveries this queen)).
  assert (Hkey : carryGet (queenCarry (supplyFill this queen)) resource
                 = deliveredOf resource (pushed (supplyFill this queen))).
  { rewrite Hcarry, Hpushed, greedySupply_delivered. simpl. lia. }
  rewrite Hkey.
  destruct Hflush as [->|(target & _ & ->)]; simpl; lia.
Qed.

Lemma supply_withdraws_what_it_delivers_witness :
  withdrawnOf "energy"
    [TransferAll Sample.storage; Withdraw Sample.storage "energy" 100%Z;
     Transfer Sample.extension "energy" 30%Z; Transfer Sample.tower "energy" 70%Z]
  = deliveredOf "energy"
      [TransferAll Sample.storage; Withdraw Sample.storage "energy" 100%Z;
       Transfer Sample.extension "energy" 30%Z; Transfer Sample.tower "energy" 70%Z].
Proof.
  exact (supply_withdraws_what_it_delivers SampleColony.distance SampleColony.this
           SampleColony.queen_a _ [] eq_refl "energy").
Defined.

(** ** Operations and the requests they serve *)

Lemma filter_all {A} (f : A → bool) (l : list A) :
  Forall (λ a, f a = true) l → List.filter f l = l.
Proof. induction 1 as [|a l Ha _ IH]; simpl; [done|]. by rewrite Ha, IH. Qed.

Lemma filter_none {A} (f : A → bool) (l : list A) :
  Forall (λ a, f a = false) l → List.filter f l = [].
Proof. induction 1 as [|a l Ha _ IH]; simpl; [done|]. by rewrite Ha. Qed.

Lemma greedySupply_served (carryCapacity : Z) (available : string → Z)
    (requests : list TransportRequest.t) (c : CarryObj) :
  ∃ served,
    served `sublist_of` requests
    ∧ Forall2 (servesSupply available) served
              (greedySupply carryCapacity available requests c).2.
Proof.
  revert c. induction requests as [|request requests IH]; intros c; simpl.
  - exists []. split; constructor.
  - case_decide as Hrem; [exists []; split; [apply sublist_nil_l|constructor]|].
    case_decide as Hamount.
    + destruct (IH c) as (served & Hsub & Hall).
      exists served. split; [by apply sublist_cons|done].
    + destruct (IH (carryAdd (TransportRequest.resourceType request)
        (Z.min (TransportRequest.amount request)
           (Z.min (carryCapacity - sumCarry c)
              (available (TransportRequest.resourceType request)))) c))
        as (served & Hsub & Hall).
      destruct (greedySupply _ _ _ _) as [carry deliveries]. simpl in *.
      exists (request :: served). split; [by apply sublist_skip|].
      constructor; [|done]. eexists. split; [done|]. split; [done|]. lia.
Qed.

Lemma greedyWithdraw_served (carryCapacity : Z)
    (requests : list TransportRequest.t) (c : CarryObj) :
  ∃ served,
    served `sublist_of` requests
    ∧ Forall2 servesWithdraw served (greedyWithdraw carryCapacity requests c).2.
Proof.
  revert c. induction requests as [|request requests IH]; intros c; simpl.
  - exists []. split; constructor.
  - case_decide as Hrem; [exists []; split; [apply sublist_nil_l|constructor]|].
    case_decide as Hamount.
    + destruct (IH c) as (served & Hsub & Hall).
      exists served. split; [by apply sublist_cons|done].
    + destruct (IH (carryAdd (TransportRequest.resourceType request)
        (Z.min (TransportRequest.amount request) (carryCapacity - sumCarry c)) c))
        as (served & Hsub & Hall).
      destruct (greedyWithdraw _ _ _) as [carry withdrawals]. simpl in *.
      exists (request :: served). split; [by apply sublist_skip|].
      constructor; [|done]. eexists. split; [done|]. split; [done|]. lia.
Qed.

Lemma supply_manifest_deliveries
    (distance : RoomPosition.t → RoomPosition.t → Z)
    (this : Overlord) (queen : Zerg.t) (manifest : list Task) (warnings : list Warning) :
  buildSupplyTaskManifest distance this queen = (Some manifest, warnings) →
  List.filter isTransfer manifest = pushed (supplyFill this queen).
Proof.
  intros Hb.
  destruct (supply_manifest_source _ _ _ _ _ Hb)
    as (_ & flush & source & -> & Hflush & _).
  rewrite !List.filter_app.
  rewrite (filter_all _ _ (supplyFill_deliveries this queen)).
  rewrite (filter_none isTransfer (map _ _)).
  - by destruct Hflush as [->|(target & _ & ->)].
  - apply Forall_forall. intros t Ht.
    apply list_elem_of_In, in_map_iff in Ht as (r & <- & _). done.
Qed.

Lemma withdraw_manifest_withdrawals
    (this : Overlord) (queen : Zerg.t) (manifest : list Task) (warnings : list Warning) :
  buildWithdrawTaskManifest this queen = (Some manifest, warnings) →
  List.filter isWithdraw manifest
  = (greedyWithdraw (Zerg.carryCapacity queen) (withdrawRequests this queen)
                    [("energy", 0%Z)]).2.
Proof.
  intros Hb.
  destruct (withdraw_manifest_shape _ _ _ _ Hb)
    as (flush & ws & target & -> & Hflush & _ & Hws & Hp).
  destruct (withdraw_fold_greedy (Zerg.carryCapacity queen) (withdrawRequests this queen)
              (mkFill [("energy", 0%Z)] flush false) eq_refl) as [_ H2].
  fold (withdrawFill flush this queen) in H2. simpl in H2.
  rewrite Hp in H2. apply app_inv_head in H2. subst ws.
  rewrite !List.filter_app, (filter_all _ _ Hws).
  destruct Hflush as [->| ->]; simpl; by rewrite app_nil_r.
Qed.

(** X7.  The deliveries of a supply manifest serve requests of the queen's
    assigned structures, in the order of the requests and each request at
    most once: every delivery goes to its request's target, of its request's
    resource, in a nonzero amount that exceeds neither the requested amount
    nor what the store structures hold of the resource in total. *)
Theorem supply_deliveries_serve_requests
    (distance : RoomPosition.t → RoomPosition.t → Z)
    (this : Overlord) (queen : Zerg.t) (manifest : list Task) (warnings : list Warning) :
  buildSupplyTaskManifest distance this queen = (Some manifest, warnings) →
  ∃ served,
    served `sublist_of` supplyRequests this queen
    ∧ Forall2 (servesSupply (availability (storeStructures this))) served
              (List.filter isTransfer manifest).
Proof.
  intros Hb. rewrite (supply_manifest_deliveries _ _ _ _ _ Hb).
  destruct (supplyFill_greedy this queen) as [_ ->].
  apply greedySupply_served.
Qed.

Lemma supply_deliveries_serve_requests_witness :
  ∃ served,
    served `sublist_of` supplyRequests SampleColony.this SampleColony.queen_a
    ∧ Forall2 (servesSupply (availability (storeStructures SampleColony.this))) served
              [Transfer Sample.extension "energy" 30%Z; Transfer Sample.tower "energy" 70%Z].
Proof.
  exact (supply_deliveries_serve_requests SampleColony.distance SampleColony.this
           SampleColony.queen_a _ [] eq_refl).
Defined.

(** X8.  The withdrawals of a withdraw manifest serve removal requests of the
    queen's assigned structures, in the order of the requests and each
    request at most once: every withdrawal is from its request's target, of
    its request's resource, in a nonzero amount not above the requested
    one. *)
Theorem withdrawals_serve_requests
    (this : Overlord) (queen : Zerg.t) (manifest : list Task) (warnings : list Warning) :
  buildWithdrawTaskManifest this queen = (Some manifest, warnings) →
  ∃ served,
    served `sublist_of` withdrawRequests this queen
    ∧ Forall2 servesWithdraw served (List.filter isWithdraw manifest).
Proof.
  intros Hb. rewrite (withdraw_manifest_withdrawals _ _ _ _ Hb).
  apply greedyWithdraw_served.
Qed.

Lemma withdrawals_serve_requests_witness :
  ∃ served,
    served `sublist_of` withdrawRequests SampleColony.this SampleColony.queen_b
    ∧ Forall2 servesWithdraw served [Withdraw Sample.lab "OH" 15%Z].
Proof.
  exact (withdrawals_serve_requests SampleColony.this SampleColony.queen_b _ [] eq_refl).
Defined.

(** ** Requests that fit are served in full *)

Lemma requestedTotal_nonneg (requests : list TransportRequest.t) :
  (∀ request, request ∈ requests → (0 < TransportRequest.amount request)%Z) →
  (0 ≤ requestedTotal requests)%Z.
Proof.
  induction requests as [|request requests IH]; intros Hpos; simpl; [lia|].
  pose proof (Hpos request ltac:(apply elem_of_cons; by left)).
  assert (0 ≤ requestedTotal requests)%Z; [|lia].
  apply IH. intros r Hr. apply Hpos, elem_of_cons. by right.
Qed.

Lemma greedyWithdraw_in_full (carryCapacity : Z)
    (requests : list TransportRequest.t) (c : CarryObj) :
  (∀ request, request ∈ requests → (0 < TransportRequest.amount request)%Z) →
  (sumCarry c + requestedTotal requests ≤ carryCapacity)%Z →
  (greedyWithdraw carryCapacity requests c).2 = withdrawInFull <$> requests.
Proof.
  revert c. induction requests as [|request requests IH]; intros c Hpos Hfit; [done|].
  pose proof (Hpos request ltac:(apply elem_of_cons; by left)) as Hreq.
  assert (Hrest : ∀ r, r ∈ requests → (0 < TransportRequest.amount r)%Z).
  { intros r Hr. apply Hpos, elem_of_cons. by right. }
  pose proof (requestedTotal_nonneg _ Hrest) as Hnonneg.
  cbn [requestedTotal foldr] in Hfit. fold (requestedTotal requests) in Hfit.
  cbn [greedyWithdraw]. rewrite decide_False by lia.
  rewrite Z.min_l by lia. rewrite decide_False by lia.
  specialize (IH (carryAdd (TransportRequest.resourceType request)
                           (TransportRequest.amount request) c) Hrest).
  rewrite sumCarry_carryAdd in IH.
  destruct (greedyWithdraw _ _ _) as [carry withdrawals]. simpl in *.
  rewrite IH by lia. done.
Qed.

Lemma greedySupply_in_full (carryCapacity : Z) (available : string → Z)
    (requests : list TransportRequest.t) (c : CarryObj) :
  (∀ request, request ∈ requests →
     (0 < TransportRequest.amount request
      ≤ available (TransportRequest.resourceType request))%Z) →
  (sumCarry c + requestedTotal requests ≤ carryCapacity)%Z →
  (greedySupply carryCapacity available requests c).2 = deliverInFull <$> requests.
Proof.
  revert c. induction requests as [|request requests IH]; intros c Hpos Hfit; [done|].
  pose proof (Hpos request ltac:(apply elem_of_cons; by left)) as Hreq.
  assert (Hrest : ∀ r, r ∈ requests →
            (0 < TransportRequest.amount r ≤ available (TransportRequest.resourceType r))%Z).
  { intros r Hr. apply Hpos, elem_of_cons. by right. }
  assert (Hnonneg : (0 ≤ requestedTotal requests)%Z).
  { apply requestedTotal_nonneg. intros r Hr. by apply Hrest. }
  cbn [requestedTotal foldr] in Hfit. fold (requestedTotal requests) in Hfit.
  cbn [greedySupply]. rewrite decide_False by lia.
  rewrite Z.min_l by lia. rewrite decide_False by lia.
  specialize (IH (carryAdd (TransportRequest.resourceType request)
                           (TransportRequest.amount request) c) Hrest).
  rewrite sumCarry_carryAdd in IH.
  destruct (greedySupply _ _ _ _) as [carry deliveries]. simpl in *.
  rewrite IH by lia. done.
Qed.

(** X9.  When the removal requests of a queen's structures all ask for a
    positive amount and together for no more than the queen can carry, its
    withdraw manifest withdraws every request in full, in the order of the
    requests. *)
Theorem withdraw_requests_that_fit
    (this : Overlord) (queen : Zerg.t) (manifest : list Task) (warnings : list Warning) :
  (∀ request, request ∈ withdrawRequests this queen →
     (0 < TransportRequest.amount request)%Z) →
  (requestedTotal (withdrawRequests this queen) ≤ Zerg.carryCapacity queen)%Z →
  buildWithdrawTaskManifest this queen = (Some manifest, warnings) →
  List.filter isWithdraw manifest = withdrawInFull <$> withdrawRequests this queen.
Proof.
  intros Hpos Hfit Hb. rewrite (withdraw_manifest_withdrawals _ _ _ _ Hb).
  apply greedyWithdraw_in_full; [done|]. simpl. lia.
Qed.

Lemma withdraw_requests_that_fit_witness :
  [Withdraw Sample.lab "OH" 15%Z]
  = withdrawInFull <$> withdrawRequests SampleColony.this SampleColony.queen_b.
Proof.
  refine (withdraw_requests_that_fit SampleColony.this SampleColony.queen_b
            [Withdraw Sample.lab "OH" 15%Z; TransferAll Sample.storage] [] _ _ eq_refl).
  - intros request Hin. vm_compute in Hin.
    apply elem_of_cons in Hin as [->|Hin]; [reflexivity|by apply elem_of_nil in Hin].
  - vm_compute. discriminate.
Defined.

(** X10.  When the delivery requests of a queen's structures all ask for a
    positive amount, none for more than the store structures hold of its
    resource in total, and all together for no more than the queen can
    carry, a supply manifest delivers every request in full, in the order of
    the requests. *)
Theorem supply_requests_that_fit
    (distance : RoomPosition.t → RoomPosition.t → Z)
    (this : Overlord) (queen : Zerg.t) (manifest : list Task) (warnings : list Warning) :
  (∀ request, request ∈ supplyRequests this queen →
     (0 < TransportRequest.amount request
      ≤ availability (storeStructures this) (TransportRequest.resourceType request))%Z) →
  (requestedTotal (supplyRequests this queen) ≤ Zerg.carryCapacity queen)%Z →
  buildSupplyTaskManifest distance this queen = (Some manifest, warnings) →
  List.filter isTransfer manifest = deliverInFull <$> supplyRequests this queen.
Proof.
  intros Hpos Hfit Hb. rewrite (supply_manifest_deliveries _ _ _ _ _ Hb).
  destruct (supplyFill_greedy this queen) as [_ ->].
  apply greedySupply_in_full; [done|]. simpl. lia.
Qed.

Lemma supply_requests_that_fit_witness :
  [Transfer Sample.extension "energy" 30%Z; Transfer Sample.lab "H" 10%Z]
  = deliverInFull
    <$> supplyRequests (Scenario.overlord Scenario.twoStores Scenario.queen) Scenario.queen.
Proof.
  refine (supply_requests_that_fit SampleColony.distance
            (Scenario.overlord Scenario.twoStores Scenario.queen) Scenario.queen
            [Withdraw Scenario.storeB "energy" 30%Z; Withdraw Scenario.storeB "H" 10%Z;
             Transfer Sample.extension "energy" 30%Z; Transfer Sample.lab "H" 10%Z]
            [] _ _ eq_refl).
  - intros request Hin. vm_compute in Hin.
    repeat (apply elem_of_cons in Hin as [->|Hin];
            [vm_compute; split; [reflexivity|discriminate]|]).
    by apply elem_of_nil in Hin.
  - vm_compute. discriminate.
Defined.

(** ** How much a withdraw manifest takes *)

Lemma greedyWithdraw_sum (carryCapacity : Z)
    (requests : list TransportRequest.t) (c : CarryObj) :
  (∀ request, request ∈ requests → (0 < TransportRequest.amount request)%Z) →
  (sumCarry c ≤ carryCapacity)%Z →
  sumCarry (greedyWithdraw carryCapacity requests c).1
  = Z.min carryCapacity (sumCarry c + requestedTotal requests).
Proof.
  revert c. induction requests as [|request requests IH]; intros c Hpos Hcap.
  - simpl. lia.
  - pose proof (Hpos request ltac:(apply elem_of_cons; by left)) as Hreq.
    assert (Hrest : ∀ r, r ∈ requests → (0 < TransportRequest.amount r)%Z).
    { intros r Hr. apply Hpos, elem_of_cons. by right. }
    pose proof (requestedTotal_nonneg _ Hrest) as Hnonneg.
    cbn [requestedTotal foldr]. fold (requestedTotal requests).
    cbn [greedyWithdraw]. case_decide as Hrem; [simpl; lia|].
    rewrite decide_False by lia.
    specialize (IH (carryAdd (TransportRequest.resourceType request)
      (Z.min (TransportRequest.amount request) (carryCapacity - sumCarry c)) c) Hrest).
    rewrite sumCarry_carryAdd in IH.
    destruct (greedyWithdraw _ _ _) as [carry withdrawals]. simpl in *.
    rewrite IH by lia. lia.
Qed.

(** X11.  With a carry capacity that is not negative and removal requests of
    positive amounts, a withdraw manifest withdraws in total the lesser of
    the carry capacity and the sum of the requested amounts: the queen fills
    up whenever the requests suffice for it, and otherwise takes all. *)
Theorem withdraw_fills_up
    (this : Overlord) (queen : Zerg.t) (manifest : list Task) (warnings : list Warning) :
  (0 ≤ Zerg.carryCapacity queen)%Z →
  (∀ request, request ∈ withdrawRequests this queen →
     (0 < TransportRequest.amount request)%Z) →
  buildWithdrawTaskManifest this queen = (Some manifest, warnings) →
  withdrawnTotal manifest
  = Z.min (Zerg.carryCapacity queen) (requestedTotal (withdrawRequests this queen)).
Proof.
  intros Hcap Hpos Hb.
  destruct (withdraw_manifest_shape _ _ _ _ Hb)
    as (flush & ws & target & -> & Hflush & _ & _ & Hp).
  destruct (withdraw_fold_greedy (Zerg.carryCapacity queen) (withdrawRequests this queen)
              (mkFill [("energy", 0%Z)] flush false) eq_refl) as [_ H2].
  fold (withdrawFill flush this queen) in H2. simpl in H2.
  rewrite Hp in H2. apply app_inv_head in H2. subst ws.
  rewrite !withdrawnTotal_app, greedyWithdraw_total, greedyWithdraw_sum by (simpl; done || lia).
  destruct Hflush as [->| ->]; simpl; lia.
Qed.

Lemma withdraw_fills_up_witness :
  withdrawnTotal [Withdraw Sample.lab "OH" 15%Z; TransferAll Sample.storage]
  = Z.min 100 (requestedTotal (withdrawRequests SampleColony.this SampleColony.queen_b)).
Proof.
  refine (withdraw_fills_up SampleColony.this SampleColony.queen_b _ [] _ _ eq_refl).
  - vm_compute. discriminate.
  - intros request Hin. vm_compute in Hin.
    apply elem_of_cons in Hin as [->|Hin]; [reflexivity|by apply elem_of_nil in Hin].
Defined.

(** ** Amounts are positive *)

Lemma availability_nonneg (stores : list Structure.t) (resource : string) :
  (∀ s, s ∈ stores → (0 ≤ default 0 (Structure.store s !! resource))%Z) →
  (0 ≤ availability stores resource)%Z.
Proof.
  induction stores as [|s stores IH]; intros Hs; simpl; [lia|].
  pose proof (Hs s ltac:(apply elem_of_cons; by left)).
  assert (0 ≤ availability stores resource)%Z; [|unfold availability in *; lia].
  apply IH. intros s' Hin. apply Hs, elem_of_cons. by right.
Qed.

Lemma carryAdd_positive (r : string) (amount : Z) (c : CarryObj) :
  (0 < amount)%Z → Forall (λ kv, (0 < kv.2)%Z) c →
  Forall (λ kv, (0 < kv.2)%Z) (carryAdd r amount c).
Proof.
  intros Ha. induction 1 as [|[k v] c Hkv Hc IH]; simpl.
  - constructor; [simpl; lia|constructor].
  - case_decide; constructor; simpl in *; try done. lia.
Qed.

Lemma carryGet_positive (c : CarryObj) (r : string) :
  Forall (λ kv, (0 < kv.2)%Z) c → r ∈ carryKeys c → (0 < carryGet c r)%Z.
Proof.
  unfold carryKeys. induction 1 as [|[k v] c Hkv Hc IH]; intros Hin; simpl.
  - by apply elem_of_nil in Hin.
  - case_decide as Hk; [done|].
    rewrite fmap_cons in Hin. apply elem_of_cons in Hin as [Heq|Hin]; [done|].
    by apply IH.
Qed.

Lemma greedySupply_positive (carryCapacity : Z) (available : string → Z)
    (requests : list TransportRequest.t) (c : CarryObj) :
  (∀ request, request ∈ requests → (0 ≤ TransportRequest.amount request)%Z) →
  (∀ resource, (0 ≤ available resource)%Z) →
  (sumCarry c ≤ carryCapacity)%Z →
  Forall (λ kv, (0 < kv.2)%Z) c →
  Forall (λ kv, (0 < kv.2)%Z) (greedySupply carryCapacity available requests c).1
  ∧ Forall (λ op, ∀ amount, amountOf op = Some amount → (0 < amount)%Z)
           (greedySupply carryCapacity available requests c).2.
Proof.
  intros Hreq Hav. revert c Hreq.
  induction requests as [|request requests IH]; intros c Hreq Hcap Hc; simpl.
  - split; [done|constructor].
  - pose proof (Hreq request ltac:(apply elem_of_cons; by left)) as Hamount.
    pose proof (Hav (TransportRequest.resourceType request)) as Havr.
    assert (Hrest : ∀ r, r ∈ requests → (0 ≤ TransportRequest.amount r)%Z).
    { intros r Hr. apply Hreq, elem_of_cons. by right. }
    case_decide; [split; [done|constructor]|].
    case_decide; [by apply IH|].
    destruct (IH (carryAdd (TransportRequest.resourceType request)
      (Z.min (TransportRequest.amount request)
         (Z.min (carryCapacity - sumCarry c)
            (available (TransportRequest.resourceType request)))) c) Hrest)
      as [IH1 IH2].
    + rewrite sumCarry_carryAdd. lia.
    + apply carryAdd_positive; [lia|done].
    + destruct (greedySupply _ _ _ _) as [carry deliveries]. simpl in *.
      split; [done|]. constructor; [|done]. intros amount [= <-]. lia.
Qed.

Lemma greedyWithdraw_positive (carryCapacity : Z)
    (requests : list TransportRequest.t) (c : CarryObj) :
  (∀ request, request ∈ requests → (0 ≤ TransportRequest.amount request)%Z) →
  (sumCarry c ≤ carryCapacity)%Z →
  Forall (λ op, ∀ amount, amountOf op = Some amount → (0 < amount)%Z)
         (greedyWithdraw carryCapacity requests c).2.
Proof.
  revert c. induction requests as [|request requests IH]; intros c Hreq Hcap; simpl.
  - constructor.
  - pose proof (Hreq request ltac:(apply elem_of_cons; by left)) as Hamount.
    assert (Hrest : ∀ r, r ∈ requests → (0 ≤ TransportRequest.amount r)%Z).
    { intros r Hr. apply Hreq, elem_of_cons. by right. }
    case_decide; [constructor|].
    case_decide; [by apply IH|].
    specialize (IH (carryAdd (TransportRequest.resourceType request)
      (Z.min (TransportRequest.amount request) (carryCapacity - sumCarry c)) c) Hrest).
    rewrite sumCarry_carryAdd in IH.
    destruct (greedyWithdraw _ _ _) as [carry withdrawals]. simpl in *.
    constructor; [|apply IH; lia]. intros amount [= <-]. lia.
Qed.

(** X12.  With a carry capacity, requested amounts and stocks that are not
    negative, every withdrawal and every delivery of a manifest, of either
    builder, moves a positive amount. *)
Theorem manifest_amounts_positive
    (distance : RoomPosition.t → RoomPosition.t → Z)
    (this : Overlord) (queen : Zerg.t) :
  (0 ≤ Zerg.carryCapacity queen)%Z →
  (∀ request, request ∈ supplyRequests this queen ++ withdrawRequests this queen →
     (0 ≤ TransportRequest.amount request)%Z) →
  (∀ s resource, s ∈ storeStructures this →
     (0 ≤ default 0 (Structure.store s !! resource))%Z) →
  ∀ manifest warnings,
    buildSupplyTaskManifest distance this queen = (Some manifest, warnings)
    ∨ buildWithdrawTaskManifest this queen = (Some manifest, warnings) →
    ∀ op amount, op ∈ manifest → amountOf op = Some amount → (0 < amount)%Z.
Proof.
  intros Hcap Hreq Hstock manifest warnings [Hb|Hb] op amount Hin Hop.
  - destruct (supply_manifest_source _ _ _ _ _ Hb)
      as (_ & flush & source & -> & Hflush & _).
    destruct (supplyFill_greedy this queen) as [Hcarry Hpushed].
    destruct (greedySupply_positive (Zerg.carryCapacity queen)
                (availability (storeStructures this)) (supplyRequests this queen) [])
      as [Hc Hops].
    { intros request Hr. apply Hreq, elem_of_app. by left. }
    { intros resource. apply availability_nonneg. intros s Hs. by apply Hstock. }
    { simpl. lia. }
    { constructor. }
    rewrite <- Hcarry in Hc. rewrite <- Hpushed in Hops.
    apply elem_of_app in Hin as [Hin|Hin];
      [|apply elem_of_app in Hin as [Hin|Hin]].
    + destruct Hflush as [->|(target & _ & ->)]; [by apply elem_of_nil in Hin|].
      apply list_elem_of_singleton in Hin as ->. done.
    + apply list_elem_of_In, in_map_iff in Hin as (r & <- & Hr).
      injection Hop as <-. apply carryGet_positive; [done|by apply list_elem_of_In].
    + eapply Forall_forall in Hops; [|done]. by apply Hops.
  - destruct (withdraw_manifest_shape _ _ _ _ Hb)
      as (flush & ws & target & -> & Hflush & _ & _ & Hp).
    destruct (withdraw_fold_greedy (Zerg.carryCapacity queen) (withdrawRequests this queen)
                (mkFill [("energy", 0%Z)] flush false) eq_refl) as [_ H2].
    fold (withdrawFill flush this queen) in H2. simpl in H2.
    rewrite Hp in H2. apply app_inv_head in H2. subst ws.
    pose proof (greedyWithdraw_positive (Zerg.carryCapacity queen)
                  (withdrawRequests this queen) [("energy", 0%Z)]) as Hops.
    apply elem_of_app in Hin as [Hin|Hin];
      [|apply elem_of_app in Hin as [Hin|Hin]].
    + destruct Hflush as [->| ->]; [by apply elem_of_nil in Hin|].
      apply list_elem_of_singleton in Hin as ->. done.
    + eapply Forall_forall in Hops; [by apply Hops|..|done].
      * intros request Hr. apply Hreq, elem_of_app. by right.
      * simpl. lia.
    + apply list_elem_of_singleton in Hin as ->. done.
Qed.

Lemma stock_nonneg (store : gmap string Z) (resource : string) :
  map_Forall (λ _ v, (0 ≤ v)%Z) store → (0 ≤ default 0 (store !! resource))%Z.
Proof.
  intros Hall. destruct (store !! resource) as [v|] eqn:Hv; simpl; [|lia].
  by apply (Hall resource v).
Qed.

Lemma manifest_amounts_positive_witness : (0 < 100)%Z.
Proof.
  refine (manifest_amounts_positive SampleColony.distance SampleColony.this
            SampleColony.queen_a _ _ _
            [TransferAll Sample.storage; Withdraw Sample.storage "energy" 100%Z;
             Transfer Sample.extension "energy" 30%Z; Transfer Sample.tower "energy" 70%Z]
            [] (or_introl eq_refl)
            (Withdraw Sample.storage "energy" 100%Z) 100%Z _ eq_refl).
  - vm_compute. discriminate.
  - intros request Hin. vm_compute in Hin.
    repeat (apply elem_of_cons in Hin as [->|Hin]; [vm_compute; discriminate|]).
    by apply elem_of_nil in Hin.
  - intros s resource Hin. vm_compute in Hin.
    repeat (apply elem_of_cons in Hin as [->|Hin];
            [apply stock_nonneg, (bool_decide_unpack _); vm_compute; reflexivity|]).
    by apply elem_of_nil in Hin.
  - apply elem_of_cons. right. apply elem_of_cons. by left.
Defined.

(** ** One cycle, queen by queen *)

Section Cycle.
Variable getPosFromBunkerCoord : Coord → RoomPosition.t.
Variable distance : RoomPosition.t → RoomPosition.t → Z.
Variable bunkerChargingSpots : list Coord.
Variable isValid : list Task → bool.

Lemma omap_warnings {A} (f : Effect → option A) (warnings : list Warning) :
  (∀ w, f (LogWarning w) = None) → omap f (map LogWarning warnings) = [].
Proof.
  intros Hf. induction warnings as [|w warnings IH]; simpl; [done|]. by rewrite Hf.
Qed.

Lemma setTask_same (queen : Zerg.t) : Zerg.setTask queen (Zerg.task queen) = queen.
Proof. by destruct queen. Qed.

Lemma idleActions_effects (this : Overlord) (queen : Zerg.t) :
  omap ranTask (idleActions getPosFromBunkerCoord bunkerChargingSpots this queen) = []
  ∧ omap sentTo (idleActions getPosFromBunkerCoord bunkerChargingSpots this queen)
    = [Zerg.name queen].
Proof.
  destruct (idleActions_goTo getPosFromBunkerCoord bunkerChargingSpots this queen)
    as (warnings & spot & ->).
  rewrite !omap_app, !omap_warnings by done. done.
Qed.

Lemma handleQueen_effects (this : Overlord) (queen : Zerg.t) :
  ∃ task' log,
    handleQueen getPosFromBunkerCoord distance bunkerChargingSpots isValid this queen
    = (Zerg.setTask queen task', log)
    ∧ omap ranTask log = []
    ∧ omap sentTo log
      = if isIdle isValid (Zerg.setTask queen task') then [Zerg.name queen] else [].
Proof.
  set (requests := Colony.transportRequests (colony this)).
  assert (Hshape : ∀ built : option (list Task) * list Warning,
            let queen' := Zerg.setTask queen built.1 in
            let log := map LogWarning built.2
                       ++ (if isIdle isValid queen'
                           then idleActions getPosFromBunkerCoord bunkerChargingSpots
                                            this queen'
                           else []) in
            omap ranTask log = []
            ∧ omap sentTo log = if isIdle isValid queen' then [Zerg.name queen] else []).
  { intros built queen' log. unfold log.
    rewrite !omap_app, !omap_warnings by done.
    destruct (isIdle isValid queen'); [|done].
    destruct (idleActions_effects this queen') as [-> ->]. done. }
  destruct (anyRequest (TransportRequestGroup.withdrawByID requests)
              (assigned this queen)) eqn:Hw;
    [|destruct (anyRequest (TransportRequestGroup.supplyByID requests)
                  (assigned this queen)) eqn:Hs].
  - rewrite (handleQueen_built _ _ _ _ this queen (buildWithdrawTaskManifest this queen))
      by (left; done).
    eexists _, _. split; [done|]. apply Hshape.
  - rewrite (handleQueen_built _ _ _ _ this queen
               (buildSupplyTaskManifest distance this queen)) by (right; done).
    eexists _, _. split; [done|]. apply Hshape.
  - rewrite handleQueen_no_request by done.
    exists (Zerg.task queen). rewrite setTask_same. eexists. split; [done|].
    destruct (isIdle isValid queen); [|done]. apply idleActions_effects.
Qed.

Lemma runQueen_effects (this : Overlord) (queen : Zerg.t) :
  ∃ task',
    (runQueen getPosFromBunkerCoord distance bunkerChargingSpots isValid this queen).1
    = Zerg.setTask queen task'
    ∧ omap ranTask
        (runQueen getPosFromBunkerCoord distance bunkerChargingSpots isValid this queen).2
      = [Zerg.name queen]
    ∧ (omap sentTo
         (runQueen getPosFromBunkerCoord distance bunkerChargingSpots isValid this queen).2
       = [Zerg.name queen]
       ∨ omap sentTo
           (runQueen getPosFromBunkerCoord distance bunkerChargingSpots isValid this queen).2
         = []).
Proof.
  unfold runQueen. destruct (isIdle isValid queen) eqn:Hidle.
  - destruct (handleQueen_effects this queen) as (task' & log & -> & Hran & Hsent).
    exists task'. simpl. rewrite !omap_app, Hran, Hsent. simpl.
    split; [done|]. split; [done|].
    destruct (isIdle isValid (Zerg.setTask queen task')); simpl; auto.
  - exists (Zerg.task queen). rewrite setTask_same. simpl. auto.
Qed.

Lemma omap_concat {A B} (f : A → option B) (ls : list (list A)) :
  omap f (concat ls) = concat ((λ l : list A, omap f l) <$> ls).
Proof. induction ls as [|l ls IH]; simpl; [done|]. by rewrite omap_app, IH. Qed.

(** X13.  In one cycle every queen runs its task exactly once, in the order
    of the queens, whatever the builds of other queens returned; at most one
    move to a charging spot is ordered per queen, in the same order; and a
    queen leaves the cycle as it entered it except for its task. *)
Theorem cycle_runs_every_queen_once (this : Overlord) :
  let result := run getPosFromBunkerCoord distance bunkerChargingSpots isValid this in
  Forall2 (λ queen queen', ∃ task', queen' = Zerg.setTask queen task')
          (queens this) result.1
  ∧ omap ranTask result.2 = Zerg.name <$> queens this
  ∧ omap sentTo result.2 `sublist_of` Zerg.name <$> queens this.
Proof.
  intros result. unfold result. rewrite run_in_order. cbn [fst snd].
  rewrite !omap_concat.
  induction (queens this) as [|queen queens IH]; simpl in *.
  - split; [constructor|]. split; [done|constructor].
  - destruct IH as (IH1 & IH2 & IH3).
    destruct (runQueen_effects this queen) as (task' & Hq & Hran & Hsent).
    split; [constructor; eauto|]. split.
    + rewrite Hran. simpl. by f_equal.
    + destruct Hsent as [-> | ->]; simpl; [by apply sublist_skip|by apply sublist_cons].
Qed.
End Cycle.

(** ** Queens with nothing assigned *)

(** X14.  A queen with nothing assigned never gets a manifest: its task is
    left as it is and, being idle, it is sent to the charging spot closest to
    its own position (to its own position, with a warning, when there is no
    such spot).  In an overlord as constructed this is the case of every
    spawning queen, creep names being distinct, and of any creep the overlord
    does not list. *)
Theorem unassigned_queen_idles
    (getPosFromBunkerCoord : Coord → RoomPosition.t)
    (lookForStructures : RoomPosition.t → list Structure.t)
    (insideBunkerBounds : RoomPosition.t → bool)
    (distance : RoomPosition.t → RoomPosition.t → Z)
    (quadrantFillOrder : Quadrants Coord)
    (bunkerChargingSpots : list Coord) (isValid : list Task → bool) :
  (∀ this queen,
     assigned this queen = [] → isIdle isValid queen = true →
     handleQueen getPosFromBunkerCoord distance bunkerChargingSpots isValid this queen
     = (queen,
        match RoomPosition.findClosestByRange (Zerg.pos queen)
                (map getPosFromBunkerCoord bunkerChargingSpots) with
        | Some chargeSpot => [GoTo (Zerg.name queen) chargeSpot 0]
        | None => [LogWarning (NoChargingSpot (Zerg.pos queen));
                   GoTo (Zerg.name queen) (Zerg.pos queen) 0]
        end))
  ∧ (∀ colony zerg queen,
       NoDup (Zerg.name <$> zerg) ∧ queen ∈ zerg ∧ Zerg.spawning queen = true
       ∨ Zerg.name queen ∉ Zerg.name <$> zerg →
       assigned (constructor getPosFromBunkerCoord lookForStructures insideBunkerBounds
                             quadrantFillOrder colony zerg) queen = []).
Proof.
  split.
  - intros this queen Hnone Hidle.
    rewrite handleQueen_no_request; [|by rewrite Hnone..].
    rewrite Hidle. unfold idleActions, getChargingSpot. rewrite Hnone. simpl.
    by destruct (RoomPosition.findClosestByRange _ _).
  - intros colony zerg queen Hcase. etrans; [apply assigned_constructor|].
    case_decide as Hin; [|done].
    destruct Hcase as [(Hnd & Hq & Hsp)|Hnot].
    + apply zonesOf_absent.
      assert (Hperm : sortBy Zerg.name zerg ≡ₚ zerg) by apply sortBy_Permutation.
      apply inactive_not_active; [by rewrite Hperm|by rewrite Hperm|done].
    + exfalso. apply Hnot. revert Hin. unfold constructor. cbn [queens].
      by rewrite sortBy_Permutation.
Qed.

Lemma unassigned_queen_idles_witness :
  handleQueen Sample.getPos SampleColony.distance SampleColony.chargingSpots (λ _, true)
              SampleColony.this SampleColony.queen_c
  = (SampleColony.queen_c, [GoTo "queen_c" (Sample.at_ 6 4) 0%Z]).
Proof.
  refine (proj1 (unassigned_queen_idles Sample.getPos Sample.lookFor
                   SampleColony.insideBounds SampleColony.distance Sample.fillOrder
                   SampleColony.chargingSpots (λ _, true))
                SampleColony.this SampleColony.queen_c _ eq_refl).
  refine (proj2 (unassigned_queen_idles Sample.getPos Sample.lookFor
                   SampleColony.insideBounds SampleColony.distance Sample.fillOrder
                   SampleColony.chargingSpots (λ _, true))
                SampleColony.colony SampleColony.zerg SampleColony.queen_c
                (or_introl (conj _ (conj _ eq_refl)))).
  - apply (bool_decide_unpack _). vm_compute. reflexivity.
  - apply (bool_decide_unpack _). vm_compute. reflexivity.
Defined.

(** ** The test for pending requests and the requests collected *)

(** X15.  Every request collected for a queen comes from the entry of one of
    its structures, so when the test for pending requests fails nothing is
    collected; and when no entry of the index is an empty array, the test
    succeeds exactly when some request is collected. *)
Theorem pending_test_and_requests
    (byID : gmap string (list TransportRequest.t)) (structures : list Structure.t) :
  (∀ request, request ∈ requestsFor byID structures →
     ∃ struc requests,
       struc ∈ structures ∧ byID !! Structure.id struc = Some requests
       ∧ request ∈ requests)
  ∧ (anyRequest byID structures = false → requestsFor byID structures = [])
  ∧ ((∀ id requests, byID !! id = Some requests → requests ≠ []) →
     (anyRequest byID structures = true ↔ requestsFor byID structures ≠ [])).
Proof.
  assert (Hfrom : ∀ request, request ∈ requestsFor byID structures →
            ∃ struc requests,
              struc ∈ structures ∧ byID !! Structure.id struc = Some requests
              ∧ request ∈ requests).
  { intros request Hin. unfold requestsFor in Hin.
    apply list_elem_of_In, in_flat_map in Hin as (struc & Hs & Hr).
    destruct (byID !! Structure.id struc) as [requests|] eqn:Hid; simpl in Hr; [|done].
    exists struc, requests. split; [by apply list_elem_of_In|].
    split; [done|by apply list_elem_of_In]. }
  assert (Hnone : anyRequest byID structures = false → requestsFor byID structures = []).
  { intros Hany. destruct (requestsFor byID structures) as [|request rest] eqn:Hreq; [done|].
    destruct (Hfrom request) as (struc & requests & Hs & Hid & _).
    { rewrite ?Hreq. apply elem_of_cons. by left. }
    assert (anyRequest byID structures = true); [|congruence].
    apply anyRequest_spec. eauto. }
  split; [done|]. split; [done|].
  intros Hfull. split.
  - intros Hany. apply anyRequest_spec in Hany as (struc & Hs & [requests Hid]).
    pose proof (Hfull _ _ Hid) as Hne.
    destruct requests as [|request requests]; [done|].
    intros Hnil.
    assert (Hin : request ∈ requestsFor byID structures);
      [|by rewrite Hnil in Hin; apply elem_of_nil in Hin].
    unfold requestsFor. apply list_elem_of_In, in_flat_map.
    exists struc. split; [by apply list_elem_of_In|]. rewrite Hid. simpl. by left.
  - intros Hne. apply not_false_iff_true. intros Hany. by apply Hne, Hnone.
Qed.

Lemma pending_test_and_requests_witness :
  anyRequest (TransportRequestGroup.withdrawByID SampleColony.requests)
             [Sample.lab; Sample.spawn] = true
  ↔ requestsFor (TransportRequestGroup.withdrawByID SampleColony.requests)
                [Sample.lab; Sample.spawn] ≠ [].
Proof.
  refine (proj2 (proj2 (pending_test_and_requests
            (TransportRequestGroup.withdrawByID SampleColony.requests)
            [Sample.lab; Sample.spawn])) _).
  intros id requests Hid. simpl in Hid.
  apply lookup_singleton_Some in Hid as [_ <-]. done.
Defined.

(** ** Store structures, fallback store and sources *)

Lemma storeStructures_constructor
    (getPosFromBunkerCoord : Coord → RoomPosition.t)
    (lookForStructures : RoomPosition.t → list Structure.t)
    (insideBunkerBounds : RoomPosition.t → bool)
    (quadrantFillOrder : Quadrants Coord)
    (colony : Colony.t) (zerg : list Zerg.t) (s : Structure.t) :
  s ∈ storeStructures (constructor getPosFromBunkerCoord lookForStructures
                                   insideBunkerBounds quadrantFillOrder colony zerg)
  ↔ Colony.terminal colony = Some s
    ∨ Colony.storage colony = Some s
    ∨ (s ∈ Colony.containers colony ∧ insideBunkerBounds (Structure.pos s) = true).
Proof.
  unfold constructor, compact. cbn [storeStructures].
  rewrite list_elem_of_omap. split.
  - intros (o & Ho & ->). apply elem_of_app in Ho as [Ho|Ho].
    + apply elem_of_cons in Ho as [Ho|Ho]; [by left|].
      apply elem_of_cons in Ho as [Ho|Ho]; [by right; left|].
      by apply elem_of_nil in Ho.
    + right. right. apply list_elem_of_In, in_map_iff in Ho as (s' & [= ->] & Hs).
      apply filter_In in Hs as [Hs Hin]. split; [by apply list_elem_of_In|done].
  - intros [Ht|[Hs|[Hc Hin]]]; exists (Some s); (split; [|done]).
    + apply elem_of_app. left. rewrite Ht. apply elem_of_cons. by left.
    + apply elem_of_app. left. rewrite Hs.
      apply elem_of_cons. right. apply elem_of_cons. by left.
    + apply elem_of_app. right. apply list_elem_of_In, in_map_iff.
      exists s. split; [done|]. apply filter_In. split; [by apply list_elem_of_In|done].
Qed.

(** X16.  In an overlord as constructed, the fallback store of a carry flush
    is the first of the store structures.  So the withdraw build yields a
    manifest exactly when there is a store structure, and without any store
    structure the supply build never yields one. *)
Theorem fallback_is_first_store
    (getPosFromBunkerCoord : Coord → RoomPosition.t)
    (lookForStructures : RoomPosition.t → list Structure.t)
    (insideBunkerBounds : RoomPosition.t → bool)
    (distance : RoomPosition.t → RoomPosition.t → Z)
    (quadrantFillOrder : Quadrants Coord)
    (colony : Colony.t) (zerg : list Zerg.t) (queen : Zerg.t) :
  let this := constructor getPosFromBunkerCoord lookForStructures insideBunkerBounds
                          quadrantFillOrder colony zerg in
  transferTarget this = head (storeStructures this)
  ∧ ((∃ manifest, buildWithdrawTaskManifest this queen = (Some manifest, []))
     ↔ storeStructures this ≠ [])
  ∧ (storeStructures this = [] →
     ∃ warning, buildSupplyTaskManifest distance this queen = (None, [warning])).
Proof.
  intros this.
  assert (Hhead : transferTarget this = head (storeStructures this))
    by apply constructor_transferTarget.
  split; [done|]. split.
  - destruct (buildWithdraw_abort this queen) as [Hnone Hsome].
    destruct (storeStructures this) as [|s l] eqn:Hs; simpl in Hhead.
    + split; [|done]. intros [manifest Hm]. rewrite (Hnone Hhead) in Hm. done.
    + split; [done|]. intros _. by apply (Hsome s).
  - intros Hnil. unfold buildSupplyTaskManifest.
    destruct (supplyFlush this queen) as [[tasks queenPos]|warning]; [|eauto].
    unfold withdrawTargets. rewrite Hnil. simpl. eauto.
Qed.

(** X17.  In an overlord as constructed, a supply manifest withdraws from,
    and a manifest of either builder flushes into, only store structures: the
    terminal, the storage, or a container inside the bunker bounds.  A
    container outside the bounds is never used. *)
Theorem manifests_use_store_structures
    (getPosFromBunkerCoord : Coord → RoomPosition.t)
    (lookForStructures : RoomPosition.t → list Structure.t)
    (insideBunkerBounds : RoomPosition.t → bool)
    (distance : RoomPosition.t → RoomPosition.t → Z)
    (quadrantFillOrder : Quadrants Coord)
    (colony : Colony.t) (zerg : list Zerg.t) (queen : Zerg.t) :
  let this := constructor getPosFromBunkerCoord lookForStructures insideBunkerBounds
                          quadrantFillOrder colony zerg in
  let isStore (s : Structure.t) :=
    Colony.terminal colony = Some s
    ∨ Colony.storage colony = Some s
    ∨ (s ∈ Colony.containers colony ∧ insideBunkerBounds (Structure.pos s) = true) in
  (∀ manifest warnings op s,
     buildSupplyTaskManifest distance this queen = (Some manifest, warnings) →
     op ∈ manifest → storeOf op = Some s → isStore s)
  ∧ (∀ manifest warnings s,
       buildWithdrawTaskManifest this queen = (Some manifest, warnings) →
       TransferAll s ∈ manifest → isStore s).
Proof.
  intros this isStore.
  assert (Hhead : transferTarget this = head (storeStructures this))
    by apply constructor_transferTarget.
  assert (Htarget : ∀ s, transferTarget this = Some s → isStore s).
  { intros s Hs. unfold isStore.
    apply (storeStructures_constructor getPosFromBunkerCoord lookForStructures
             insideBunkerBounds quadrantFillOrder colony zerg s).
    fold this. rewrite Hhead in Hs. destruct (storeStructures this) as [|s' l]; [done|].
    injection Hs as ->. apply elem_of_cons. by left. }
  split.
  - intros manifest warnings op s Hb Hin Hop.
    destruct (supply_manifest_source _ _ _ _ _ Hb)
      as (_ & flush & source & -> & Hflush & Hsource).
    apply elem_of_app in Hin as [Hin|Hin];
      [|apply elem_of_app in Hin as [Hin|Hin]].
    + destruct Hflush as [->|(target & Ht & ->)]; [by apply elem_of_nil in Hin|].
      apply list_elem_of_singleton in Hin as ->. injection Hop as <-. by apply Htarget.
    + apply list_elem_of_In, in_map_iff in Hin as (r & <- & _). injection Hop as <-.
      unfold isStore.
      apply (storeStructures_constructor getPosFromBunkerCoord lookForStructures
               insideBunkerBounds quadrantFillOrder colony zerg source).
      fold this. by apply withdrawTargets_spec in Hsource as [? _].
    + pose proof (supplyFill_deliveries this queen) as Hdel.
      eapply Forall_forall in Hdel; [|done]. by destruct op.
  - intros manifest warnings s Hb Hin.
    destruct (withdraw_manifest_shape _ _ _ _ Hb)
      as (flush & ws & target & -> & Hflush & Ht & Hws & _).
    apply elem_of_app in Hin as [Hin|Hin];
      [|apply elem_of_app in Hin as [Hin|Hin]].
    + destruct Hflush as [->| ->]; [by apply elem_of_nil in Hin|].
      apply list_elem_of_singleton in Hin as [= ->]. by apply Htarget.
    + eapply Forall_forall in Hws; [|done]. done.
    + apply list_elem_of_singleton in Hin as [= ->]. by apply Htarget.
Qed.

Lemma fallback_is_first_store_witness :
  (∃ manifest,
     buildWithdrawTaskManifest SampleColony.this SampleColony.queen_b = (Some manifest, []))
  ↔ storeStructures SampleColony.this ≠ [].
Proof.
  exact (proj1 (proj2 (fallback_is_first_store Sample.getPos Sample.lookFor
                         SampleColony.insideBounds SampleColony.distance Sample.fillOrder
                         SampleColony.colony SampleColony.zerg SampleColony.queen_b))).
Defined.

Lemma manifests_use_store_structures_witness :
  Colony.terminal SampleColony.colony = Some Sample.storage
  ∨ Colony.storage SampleColony.colony = Some Sample.storage
  ∨ (Sample.storage ∈ Colony.containers SampleColony.colony
     ∧ SampleColony.insideBounds (Structure.pos Sample.storage) = true).
Proof.
  refine (proj1 (manifests_use_store_structures Sample.getPos Sample.lookFor
                   SampleColony.insideBounds SampleColony.distance Sample.fillOrder
                   SampleColony.colony SampleColony.zerg SampleColony.queen_a)
                _ [] (Withdraw Sample.storage "energy" 100%Z) Sample.storage
                eq_refl _ eq_refl).
  apply elem_of_cons. right. apply elem_of_cons. by left.
Defined.

(** ** One store, one request per resource *)

Lemma greedySupply_within_availability (carryCapacity : Z) (available : string → Z)
    (requests : list TransportRequest.t) (c : CarryObj) :
  NoDup (TransportRequest.resourceType <$> requests) →
  (∀ request, request ∈ requests → TransportRequest.resourceType request ∉ carryKeys c) →
  (∀ k, k ∈ carryKeys c → (carryGet c k ≤ available k)%Z) →
  ∀ k, k ∈ carryKeys (greedySupply carryCapacity available requests c).1 →
       (carryGet (greedySupply carryCapacity available requests c).1 k ≤ available k)%Z.
Proof.
  revert c. induction requests as [|request requests IH]; intros c Hnd Hfresh Hc; [done|].
  rewrite fmap_cons in Hnd. apply NoDup_cons in Hnd as [Hr Hnd].
  assert (Hrest : ∀ r, r ∈ requests → TransportRequest.resourceType r ∉ carryKeys c).
  { intros r Hin. apply Hfresh, elem_of_cons. by right. }
  cbn [greedySupply]. case_decide; [done|]. case_decide as Hamount; [by apply IH|].
  set (r := TransportRequest.resourceType request) in *.
  set (amount := Z.min (TransportRequest.amount request)
                   (Z.min (carryCapacity - sumCarry c) (available r))) in *.
  assert (Hfresh_r : r ∉ carryKeys c).
  { apply Hfresh, elem_of_cons. by left. }
  specialize (IH (carryAdd r amount c) Hnd).
  destruct (greedySupply _ _ _ (carryAdd r amount c)) as [carry deliveries].
  simpl in *. apply IH.
  - intros r' Hin. rewrite carryKeys_carryAdd, decide_False by done.
    intros H'. apply elem_of_app in H' as [H'|H']; [by apply (Hrest r')|].
    apply list_elem_of_singleton in H'. apply Hr. rewrite <- H'.
    by apply list_elem_of_fmap_2.
  - intros k Hk. rewrite carryKeys_carryAdd, decide_False in Hk by done.
    rewrite carryGet_carryAdd.
    apply elem_of_app in Hk as [Hk|Hk].
    + rewrite decide_False by (intros ->; done). specialize (Hc k Hk). lia.
    + apply list_elem_of_singleton in Hk as ->.
      rewrite decide_True by done. rewrite carryGet_absent by done.
      unfold amount. lia.
Qed.

(** X18.  In an overlord as constructed, when there is exactly one store
    structure and no two delivery requests of the queen's structures are for
    the same resource, the supply build never logs a warning: the single
    store covers every simulated amount, so the source selection cannot
    fail, and the store also takes the carry flush.  The build then yields a
    manifest, using that store only, whenever the queen carries something or
    the simulated carry is not empty, and no manifest otherwise. *)
Theorem single_store_supply_never_warns
    (getPosFromBunkerCoord : Coord → RoomPosition.t)
    (lookForStructures : RoomPosition.t → list Structure.t)
    (insideBunkerBounds : RoomPosition.t → bool)
    (distance : RoomPosition.t → RoomPosition.t → Z)
    (quadrantFillOrder : Quadrants Coord)
    (colony : Colony.t) (zerg : list Zerg.t) (queen : Zerg.t) (store : Structure.t) :
  let this := constructor getPosFromBunkerCoord lookForStructures insideBunkerBounds
                          quadrantFillOrder colony zerg in
  let built := buildSupplyTaskManifest distance this queen in
  storeStructures this = [store] →
  NoDup (TransportRequest.resourceType <$> supplyRequests this queen) →
  withdrawTargets this (queenCarry (supplyFill this queen)) = [store]
  ∧ built.2 = []
  ∧ ((0 < sumValues (Zerg.carry queen))%Z ∨ queenCarry (supplyFill this queen) ≠ [] →
     ∃ manifest,
       built = (Some manifest, [])
       ∧ ∀ op s, op ∈ manifest → storeOf op = Some s → s = store)
  ∧ ((sumValues (Zerg.carry queen) ≤ 0)%Z → queenCarry (supplyFill this queen) = [] →
     built = (None, [])).
Proof.
  intros this built Hstore Hnd.
  assert (Hhead : transferTarget this = Some store).
  { unfold this. rewrite constructor_transferTarget. fold this. by rewrite Hstore. }
  destruct (supplyFill_greedy this queen) as [Hcarry Hpushed].
  assert (Hcovers : coversCarry (queenCarry (supplyFill this queen)) store = true).
  { apply coversCarry_spec. intros k Hk.
    assert (Hav : availability (storeStructures this) k
                  = default 0%Z (Structure.store store !! k)).
    { rewrite Hstore. simpl. lia. }
    rewrite <- Hav. rewrite Hcarry in Hk |- *.
    apply greedySupply_within_availability; [done| | |done].
    - intros request _. apply not_elem_of_nil.
    - intros k' Hk'. by apply elem_of_nil in Hk'. }
  assert (Htargets : withdrawTargets this (queenCarry (supplyFill this queen)) = [store]).
  { unfold withdrawTargets. rewrite Hstore. simpl. by rewrite Hcovers. }
  split; [done|].
  destruct (buildSupply_cases distance this queen)
    as [(_ & Hnone & _)|[(_ & Hnil & _)|(flush & source & Hflush & Hin & Hb)]];
    [congruence|congruence|].
  fold built in Hb. rewrite Hb. split; [done|].
  rewrite Htargets in Hin. apply list_elem_of_singleton in Hin as ->.
  split.
  - intros Hsome.
    destruct (Tasks.chain _) as [manifest|] eqn:Hc.
    + exists manifest. split; [done|].
      apply chain_Some in Hc as [_ ->].
      intros op s Hin Hop.
      apply elem_of_app in Hin as [Hin|Hin];
        [|apply elem_of_app in Hin as [Hin|Hin]].
      * destruct Hflush as [[_ ->]|(_ & target & Ht & ->)];
          [by apply elem_of_nil in Hin|].
        apply list_elem_of_singleton in Hin as ->.
        injection Hop as <-. congruence.
      * apply list_elem_of_In, in_map_iff in Hin as (r & <- & _). by injection Hop.
      * pose proof (supplyFill_deliveries this queen) as Hdel.
        eapply Forall_forall in Hdel; [|done]. by destruct op.
    + exfalso. apply chain_None, planned_nothing in Hc as [-> Hc].
      destruct Hsome as [Hpos|Hne]; [|done].
      destruct Hflush as [[? _]|(_ & t & _ & ?)]; [lia|done].
  - intros Hle Hc.
    destruct Hflush as [[_ ->]|(Hpos & _)]; [|lia].
    assert (Hnil : Tasks.chain
              ([] ++ map (λ r, Withdraw store r
                                 (carryGet (queenCarry (supplyFill this queen)) r))
                         (carryKeys (queenCarry (supplyFill this queen)))
               ++ pushed (supplyFill this queen)) = None).
    { apply chain_None, planned_nothing. done. }
    by rewrite Hnil.
Qed.

Lemma single_store_supply_never_warns_witness :
  ∃ manifest,
    buildSupplyTaskManifest SampleColony.distance
      (Scenario.overlord Scenario.bigRequest Scenario.queen) Scenario.queen
    = (Some manifest, [])
    ∧ ∀ op s, op ∈ manifest → storeOf op = Some s →
              s = Structure.mk "store" STRUCTURE_STORAGE (Sample.at_ 5 5)
                               {[ "energy" := 200%Z ]}.
Proof.
  refine (proj1 (proj2 (proj2
            (single_store_supply_never_warns Sample.getPos Sample.lookFor
               SampleColony.insideBounds SampleColony.distance Sample.fillOrder
               Scenario.bigRequest [Scenario.queen] Scenario.queen _ eq_refl _))) _).
  - apply (bool_decide_unpack _). vm_compute. reflexivity.
  - right. vm_compute. discriminate.
Defined.

Lemma assignments_keyed_by_creeps_witness :
  assigned SampleColony.this Scenario.queen = [].
Proof.
  refine (proj2 (assignments_keyed_by_creeps Sample.getPos Sample.lookFor
                   SampleColony.insideBounds Sample.fillOrder SampleColony.colony
                   SampleColony.zerg) Scenario.queen _).
  apply (bool_decide_unpack _). vm_compute. reflexivity.
Defined.

(** ** One withdrawal per resource *)

Lemma greedySupply_keys (carryCapacity : Z) (available : string → Z)
    (requests : list TransportRequest.t) (c : CarryObj) :
  carryKeys (greedySupply carryCapacity available requests c).1
  = firstOccurrences (carryKeys c)
      (omap resourceOf (greedySupply carryCapacity available requests c).2).
Proof.
  revert c. induction requests as [|request requests IH]; intros c; simpl; [done|].
  case_decide; [done|]. case_decide; [apply IH|].
  specialize (IH (carryAdd (TransportRequest.resourceType request)
    (Z.min (TransportRequest.amount request)
       (Z.min (carryCapacity - sumCarry c)
          (available (TransportRequest.resourceType request)))) c)).
  destruct (greedySupply _ _ _ _) as [carry deliveries]. simpl in *.
  rewrite IH, carryKeys_carryAdd. unfold firstOccurrences. simpl.
  by destruct (decide (_ ∈ carryKeys c)).
Qed.

Lemma withdrawals_resources (source : Structure.t) (amount : string → Z)
    (keys : list string) :
  omap resourceOf (map (λ r, Withdraw source r (amount r)) keys) = keys.
Proof. induction keys as [|k keys IH]; simpl; [done|]. f_equal. exact IH. Qed.

(** X19.  A supply manifest holds one withdrawal per resource it delivers
    and no other: the resources of its withdrawals are pairwise distinct and
    are the resources of its deliveries, in the order of their first
    delivery. *)
Theorem supply_one_withdrawal_per_resource
    (distance : RoomPosition.t → RoomPosition.t → Z)
    (this : Overlord) (queen : Zerg.t) (manifest : list Task) (warnings : list Warning) :
  buildSupplyTaskManifest distance this queen = (Some manifest, warnings) →
  NoDup (omap resourceOf (List.filter isWithdraw manifest))
  ∧ omap resourceOf (List.filter isWithdraw manifest)
    = firstOccurrences [] (omap resourceOf (List.filter isTransfer manifest)).
Proof.
  intros Hb. rewrite (supply_manifest_deliveries _ _ _ _ _ Hb).
  destruct (supply_manifest_source _ _ _ _ _ Hb)
    as (_ & flush & source & -> & Hflush & _).
  destruct (supplyFill_greedy this queen) as [Hcarry Hpushed].
  assert (Hw : omap resourceOf
                 (List.filter isWithdraw
                    (flush
                     ++ map (λ r, Withdraw source r
                                    (carryGet (queenCarry (supplyFill this queen)) r))
                            (carryKeys (queenCarry (supplyFill this queen)))
                     ++ pushed (supplyFill this queen)))
               = carryKeys (queenCarry (supplyFill this queen))).
  { rewrite !List.filter_app.
    rewrite (filter_none isWithdraw (pushed _)).
    - rewrite (filter_all isWithdraw (map _ _)).
      + rewrite app_nil_r.
        assert (Hf : List.filter isWithdraw flush = [])
          by (by destruct Hflush as [->|(target & _ & ->)]).
        rewrite Hf. simpl. apply withdrawals_resources.
      + apply Forall_forall. intros t Ht.
        apply list_elem_of_In, in_map_iff in Ht as (r & <- & _). done.
    - pose proof (supplyFill_deliveries this queen) as Hdel.
      eapply Forall_impl; [exact Hdel|]. intros t Ht. by destruct t. }
  rewrite Hw. split.
  - rewrite Hcarry. apply greedySupply_NoDup. constructor.
  - rewrite Hcarry, Hpushed. apply greedySupply_keys.
Qed.

Lemma supply_one_withdrawal_per_resource_witness :
  NoDup (omap resourceOf (List.filter isWithdraw
           [Withdraw Scenario.storeB "energy" 30%Z; Withdraw Scenario.storeB "H" 10%Z;
            Transfer Sample.extension "energy" 30%Z; Transfer Sample.lab "H" 10%Z])).
Proof.
  exact (proj1 (supply_one_withdrawal_per_resource SampleColony.distance
                  (Scenario.overlord Scenario.twoStores Scenario.queen) Scenario.queen
                  _ [] eq_refl)).
Defined.

(** ** When the supply build succeeds *)

(** X20.  The supply build yields a manifest exactly when the carry flush
    goes through (nothing carried, or a fallback store exists), some store
    structure covers the simulated carry, and there is an operation to
    chain: the queen carries something or the simulated carry is not empty.
    In an overlord as constructed the last two conditions decide it. *)
Theorem supply_build_succeeds_iff
    (distance : RoomPosition.t → RoomPosition.t → Z) :
  (∀ this queen,
     (∃ manifest, buildSupplyTaskManifest distance this queen = (Some manifest, []))
     ↔ ((sumValues (Zerg.carry queen) ≤ 0)%Z ∨ is_Some (transferTarget this))
       ∧ withdrawTargets this (queenCarry (supplyFill this queen)) ≠ []
       ∧ ((0 < sumValues (Zerg.carry queen))%Z
          ∨ queenCarry (supplyFill this queen) ≠ []))
  ∧ (∀ getPosFromBunkerCoord lookForStructures insideBunkerBounds quadrantFillOrder
       colony zerg queen,
       let this := constructor getPosFromBunkerCoord lookForStructures insideBunkerBounds
                               quadrantFillOrder colony zerg in
       (∃ manifest, buildSupplyTaskManifest distance this queen = (Some manifest, []))
       ↔ withdrawTargets this (queenCarry (supplyFill this queen)) ≠ []
         ∧ ((0 < sumValues (Zerg.carry queen))%Z
            ∨ queenCarry (supplyFill this queen) ≠ [])).
Proof.
  assert (Hgen : ∀ this queen,
     (∃ manifest, buildSupplyTaskManifest distance this queen = (Some manifest, []))
     ↔ ((sumValues (Zerg.carry queen) ≤ 0)%Z ∨ is_Some (transferTarget this))
       ∧ withdrawTargets this (queenCarry (supplyFill this queen)) ≠ []
       ∧ ((0 < sumValues (Zerg.carry queen))%Z
          ∨ queenCarry (supplyFill this queen) ≠ [])).
  { intros this queen.
    destruct (buildSupply_cases distance this queen)
      as [(Hpos & Hnone & Hb)|[(_ & Hnil & Hb)|(flush & source & Hflush & Hin & Hb)]];
      rewrite Hb.
    - split; [by intros [? ?]|]. intros [[Hle|[t Hsome]] _]; [lia|congruence].
    - split; [by intros [? ?]|]. by intros (_ & ? & _).
    - assert (Hne : withdrawTargets this (queenCarry (supplyFill this queen)) ≠ []).
      { intros Hnil. rewrite Hnil in Hin. by apply elem_of_nil in Hin. }
      assert (Hgo : (sumValues (Zerg.carry queen) ≤ 0)%Z ∨ is_Some (transferTarget this)).
      { destruct Hflush as [[? _]|(_ & t & Ht & _)]; [by left|right; by rewrite Ht]. }
      destruct (Tasks.chain _) as [manifest|] eqn:Hc.
      + split; [|eauto]. intros _. split; [done|]. split; [done|].
        apply chain_Some in Hc as [Hc _].
        destruct Hflush as [[_ ->]|(Hpos & _)]; [|by left].
        right. intros Hcarry. apply Hc. by apply planned_nothing.
      + split; [by intros [? ?]|]. intros (_ & _ & Hsome). exfalso.
        apply chain_None, planned_nothing in Hc as [-> Hc].
        destruct Hsome as [Hpos|?]; [|done].
        destruct Hflush as [[? _]|(_ & t & _ & ?)]; [lia|done]. }
  split; [done|].
  intros getPos look inside tables colony zerg queen this. rewrite Hgen.
  split; [by intros [_ ?]|]. intros [Hne Hsome]. split; [|done]. right.
  unfold this. rewrite constructor_transferTarget. fold this.
  destruct (storeStructures this) as [|s l] eqn:Hs; [|by eexists].
  exfalso. apply Hne. unfold withdrawTargets. by rewrite Hs.
Qed.

Lemma supply_build_succeeds_iff_witness :
  ∃ manifest,
    buildSupplyTaskManifest SampleColony.distance SampleColony.this SampleColony.queen_a
    = (Some manifest, []).
Proof.
  apply (proj2 (supply_build_succeeds_iff SampleColony.distance) Sample.getPos
               Sample.lookFor SampleColony.insideBounds Sample.fillOrder
               SampleColony.colony SampleColony.zerg SampleColony.queen_a).
  split; [vm_compute; discriminate|]. left. vm_compute. reflexivity.
Defined.

(** ** A full queen takes no more *)

Lemma supply_fold_full (carryCapacity : Z) (store : gmap string Z)
    (requests : list TransportRequest.t) (st : FillState) :
  sumCarry (queenCarry st) = carryCapacity →
  queenCarry (foldl (supplyStep carryCapacity store) st requests) = queenCarry st
  ∧ pushed (foldl (supplyStep carryCapacity store) st requests) = pushed st.
Proof.
  intros Hfull. destruct requests as [|request requests]; [done|].
  cbn [foldl]. unfold supplyStep at 2 4.
  destruct (broken st) eqn:Hb.
  - by rewrite supplyStep_broken.
  - replace (carryCapacity - sumCarry (queenCarry st) =? 0)%Z with true
      by (symmetry; apply Z.eqb_eq; lia).
    by rewrite supplyStep_broken.
Qed.

Lemma withdraw_fold_full (carryCapacity : Z)
    (requests : list TransportRequest.t) (st : FillState) :
  sumCarry (queenCarry st) = carryCapacity →
  queenCarry (foldl (withdrawStep carryCapacity) st requests) = queenCarry st
  ∧ pushed (foldl (withdrawStep carryCapacity) st requests) = pushed st.
Proof.
  intros Hfull. destruct requests as [|request requests]; [done|].
  cbn [foldl]. unfold withdrawStep at 2 4.
  destruct (broken st) eqn:Hb.
  - by rewrite withdrawStep_broken.
  - replace (carryCapacity - sumCarry (queenCarry st) =? 0)%Z with true
      by (symmetry; apply Z.eqb_eq; lia).
    by rewrite withdrawStep_broken.
Qed.

(** X21.  Once the simulated carry sums to the carry capacity, either greedy
    fill is over: the requests that follow add no operation and change no
    simulated amount.  In particular a queen of capacity 0 is planned no
    delivery and no withdrawal. *)
Theorem fill_stops_when_full (this : Overlord) (queen : Zerg.t) (n : nat) :
  let supplied := foldl (supplyStep (Zerg.carryCapacity queen) (allStore this))
                        (mkFill [] [] false) (take n (supplyRequests this queen)) in
  let withdrawn tasks := foldl (withdrawStep (Zerg.carryCapacity queen))
                               (mkFill [("energy", 0%Z)] tasks false)
                               (take n (withdrawRequests this queen)) in
  (sumCarry (queenCarry supplied) = Zerg.carryCapacity queen →
   queenCarry (supplyFill this queen) = queenCarry supplied
   ∧ pushed (supplyFill this queen) = pushed supplied)
  ∧ (∀ tasks,
       sumCarry (queenCarry (withdrawn tasks)) = Zerg.carryCapacity queen →
       queenCarry (withdrawFill tasks this queen) = queenCarry (withdrawn tasks)
       ∧ pushed (withdrawFill tasks this queen) = pushed (withdrawn tasks))
  ∧ (Zerg.carryCapacity queen = 0%Z →
     pushed (supplyFill this queen) = []
     ∧ ∀ tasks, pushed (withdrawFill tasks this queen) = tasks).
Proof.
  intros supplied withdrawn.
  assert (Hs : sumCarry (queenCarry supplied) = Zerg.carryCapacity queen →
               queenCarry (supplyFill this queen) = queenCarry supplied
               ∧ pushed (supplyFill this queen) = pushed supplied).
  { intros Hfull. unfold supplyFill.
    rewrite <- (take_drop n (supplyRequests this queen)) at 1 2.
    rewrite foldl_app. by apply supply_fold_full. }
  assert (Hw : ∀ tasks,
               sumCarry (queenCarry (withdrawn tasks)) = Zerg.carryCapacity queen →
               queenCarry (withdrawFill tasks this queen) = queenCarry (withdrawn tasks)
               ∧ pushed (withdrawFill tasks this queen) = pushed (withdrawn tasks)).
  { intros tasks Hfull. unfold withdrawFill.
    rewrite <- (take_drop n (withdrawRequests this queen)) at 1 2.
    rewrite foldl_app. by apply withdraw_fold_full. }
  split; [done|]. split; [done|].
  intros Hzero. split.
  - unfold supplyFill.
    by destruct (supply_fold_full (Zerg.carryCapacity queen) (allStore this)
                   (supplyRequests this queen) (mkFill [] [] false)) as [_ ->].
  - intros tasks. unfold withdrawFill.
    by destruct (withdraw_fold_full (Zerg.carryCapacity queen)
                   (withdrawRequests this queen) (mkFill [("energy", 0%Z)] tasks false))
      as [_ ->].
Qed.

Lemma fill_stops_when_full_witness :
  pushed (supplyFill (Scenario.overlord Scenario.bigRequest Scenario.queen) Scenario.queen)
  = [Transfer Sample.extension "energy" 50%Z].
Proof.
  exact (proj2 (proj1 (fill_stops_when_full
                         (Scenario.overlord Scenario.bigRequest Scenario.queen)
                         Scenario.queen 1) eq_refl)).
Defined.
